(** * Verification of the scrapper dashboard core

    A shallow embedding of the heuristic classifier and extractive
    summarizer ([app/api/summarize/route.ts]), of the listing route
    ([app/api/items/route.ts]) and of the statistics route (the second
    document of [components/ui/chart.tsx]).

    Conventions of the model.
    - A JavaScript string is a Rocq [string]: a sequence of code units, each
      below 256.  White space, case mapping and ordering are the ones
      JavaScript applies to those code units.
    - A JavaScript number that only ever holds an integer is a [Z]; where
      [parseInt] can yield NaN the type is [num].
    - An absent (undefined) field is [None]. *)

From Stdlib Require Import ZArith List String Ascii Bool Lia Permutation Sorted.
From Stdlib Require Import Numbers.DecimalString.
Import ListNotations.

Open Scope string_scope.
Open Scope Z_scope.

(** ** JavaScript strings *)

Module JsString.

Definition code (c : ascii) : N := N_of_ascii c.

(** [\s] and the characters removed by [trim]: TAB, LF, VT, FF, CR, SPACE
    and NBSP are the ones below 256. *)
Definition isSpace (c : ascii) : bool :=
  let n := code c in
  ((9 <=? n) && (n <=? 13) || (n =? 32) || (n =? 160))%N.

(** [toLowerCase] on one code unit: A-Z and the Latin-1 capitals
    (U+00C0..U+00DE but the multiplication sign U+00D7). *)
Definition lowerChar (c : ascii) : ascii :=
  let n := code c in
  if ((65 <=? n) && (n <=? 90))%N then ascii_of_N (n + 32)
  else if ((192 <=? n) && (n <=? 222) && negb (n =? 215))%N
       then ascii_of_N (n + 32)
       else c.

Fixpoint toLowerCase (s : string) : string :=
  match s with
  | EmptyString => EmptyString
  | String c s' => String (lowerChar c) (toLowerCase s')
  end.

(** [s.includes(kw)] *)
Fixpoint includes (s kw : string) : bool :=
  if prefix kw s then true
  else match s with
       | EmptyString => false
       | String _ s' => includes s' kw
       end.

Fixpoint trimStart (s : string) : string :=
  match s with
  | EmptyString => EmptyString
  | String c s' => if isSpace c then trimStart s' else s
  end.

Fixpoint trimEnd (s : string) : string :=
  match s with
  | EmptyString => EmptyString
  | String c s' =>
      match trimEnd s' with
      | EmptyString => if isSpace c then EmptyString else String c EmptyString
      | t => String c t
      end
  end.

Definition trim (s : string) : string := trimEnd (trimStart s).

(** Truthiness of a string: non-empty. *)
Definition truthy (s : string) : bool :=
  match s with EmptyString => false | _ => true end.

(** [o || ''] for an optional string field. *)
Definition orEmpty (o : option string) : string :=
  match o with Some s => s | None => "" end.

(** [s] occurs in [t]. *)
Definition Substring (s t : string) : Prop :=
  exists pre post, t = pre ++ s ++ post.

End JsString.
Import JsString.

(** ** Thematic classifier, [categorize] *)

Definition catalogue := list (string * list (string * Z)).

Definition areas : catalogue :=
  [ ("Gender in fisheries and aquaculture",
      [ ("fisheries", 3); ("aquaculture", 3); ("fisher", 2); ("fishing", 2);
        ("fish value chain", 4); ("marine", 2); ("coastal", 2); ("seafood", 2) ]);
    ("Gender in forestry and agroforestry",
      [ ("forestry", 3); ("forest", 2); ("agroforestry", 3); ("woodlot", 3);
        ("non-timber forest", 4); ("ntfp", 3); ("timber", 2); ("deforestation", 2) ]);
    ("Gender and livestock",
      [ ("livestock", 3); ("pastoral", 3); ("pastoralist", 3); ("herd", 2);
        ("animal health", 4); ("small ruminant", 4); ("cattle", 2); ("goat", 2);
        ("sheep", 2); ("poultry", 2); ("dairy", 2) ]);
    ("Gender and plant production and protection",
      [ ("plant production", 4); ("crop", 2); ("crop production", 4);
        ("plant protection", 4); ("ipm", 3); ("integrated pest", 4);
        ("seed", 2); ("agronomy", 3); ("plant health", 4); ("pesticide", 2) ]);
    ("Gender and innovative and labour-saving technologies",
      [ ("innovation", 2); ("innovative", 2); ("technology", 2); ("technologies", 2);
        ("labour-saving", 4); ("labor-saving", 4); ("mechanization", 3);
        ("mechanisation", 3); ("tools", 2); ("equipment", 2); ("digital", 2);
        ("ict", 3); ("mobile", 2); ("app", 2) ]);
    ("Gender and land and water",
      [ ("land tenure", 4); ("land rights", 4); ("land", 2); ("water", 2);
        ("irrigation", 3); ("watershed", 3); ("water management", 4);
        ("land governance", 4); ("tenure", 3); ("property rights", 3) ]);
    ("Gender and climate change, agroecology and biodiversity",
      [ ("climate", 2); ("climate change", 4); ("agroecology", 4);
        ("biodiversity", 3); ("mitigation", 3); ("adaptation", 3);
        ("emissions", 3); ("ecosystem", 3); ("nature-based", 4);
        ("carbon", 2); ("greenhouse", 2); ("sustainability", 2) ]);
    ("Gender and emergencies and resilience building",
      [ ("emergency", 3); ("humanitarian", 3); ("crisis", 3); ("conflict", 3);
        ("resilience", 3); ("shock", 3); ("disaster", 3); ("drm", 4);
        ("risk management", 4); ("recovery", 2); ("relief", 2) ]);
    ("Gender-based violence and protection from sexual exploitation and abuse",
      [ ("gender-based violence", 4); ("gbv", 4); ("violence", 3);
        ("protection from sexual exploitation and abuse", 5); ("psea", 4);
        ("harassment", 3); ("safeguarding", 3); ("abuse", 3) ]);
    ("Gender and rural financial services",
      [ ("finance", 2); ("financial services", 4); ("microfinance", 4);
        ("credit", 3); ("loans", 3); ("savings", 3); ("remittances", 3);
        ("banking", 2); ("financial inclusion", 4) ]);
    ("Gender and decent rural employment and child labour",
      [ ("decent work", 4); ("decent employment", 4); ("rural employment", 4);
        ("child labour", 4); ("child labor", 4); ("occupational safety", 4);
        ("oshea", 4); ("youth employment", 4); ("job", 2); ("workplace", 2) ]);
    ("Gender and investment in sustainable agrifood systems",
      [ ("investment", 3); ("invest", 3); ("sustainable agrifood", 4);
        ("infrastructure", 3); ("capital", 3); ("financing", 3);
        ("public investment", 4); ("private investment", 4); ("funding", 2) ]);
    ("Gender and rural advisory services",
      [ ("extension", 3); ("advisory services", 4); ("rural advisory", 4);
        ("farmer field school", 4); ("ffs", 4); ("capacity development", 4);
        ("training", 2); ("education", 2); ("knowledge transfer", 3) ]);
    ("Gender-sensitive social protection",
      [ ("social protection", 4); ("cash transfer", 4); ("safety net", 4);
        ("social assistance", 4); ("insurance", 3); ("public works", 3);
        ("welfare", 2); ("benefits", 2) ]);
    ("Gender-responsive policy making and budgeting",
      [ ("policy", 2); ("policies", 2); ("policy-making", 4); ("policy making", 4);
        ("budget", 3); ("budgeting", 3); ("gender-responsive budget", 5);
        ("grb", 4); ("governance", 2); ("regulation", 2); ("legislation", 2);
        ("law", 2); ("legal", 2) ]);
    ("Gender statistics and sex-disaggregated data",
      [ ("sex-disaggregated", 4); ("sex disaggregated", 4); ("gender statistics", 4);
        ("disaggregated data", 4); ("indicator", 3); ("survey", 3);
        ("census", 3); ("data collection", 4); ("gender data", 4);
        ("statistics", 2); ("metrics", 2) ]);
    ("Gender and food security and nutrition",
      [ ("food security", 4); ("nutrition", 3); ("malnutrition", 4);
        ("diet", 2); ("food systems", 3); ("household food", 4);
        ("nutritious", 2); ("hunger", 2); ("stunting", 3); ("wasting", 3) ]);
    ("Gender and inclusive food systems and value chains",
      [ ("inclusive", 2); ("value chain", 4); ("market access", 4);
        ("agrifood", 3); ("food system", 3); ("processing", 3);
        ("marketing", 3); ("inclusive business", 4); ("trade", 2);
        ("supply chain", 3); ("distribution", 2) ]);
    ("Gender analysis, gender mainstreaming and the project cycle",
      [ ("gender analysis", 4); ("gender mainstreaming", 4); ("mainstreaming", 3);
        ("project cycle", 4); ("logframe", 3); ("logical framework", 4);
        ("design phase", 4); ("implementation phase", 4);
        ("monitoring and evaluation", 4); ("m&e", 3); ("assessment", 2) ]);
    ("Gender equality and women's empowerment",
      [ ("gender equality", 3); ("women", 1); ("girls", 1); ("empower", 2);
        ("empowerment", 2); ("leadership", 2); ("equity", 2); ("inclusion", 2);
        ("rights", 2); ("equal", 1); ("female", 1) ]) ].

Definition defaultCategory : string := "Gender equality and women's empowerment".

Definition confidenceFloor : Z := 2.

(** The inner loop: one keyword of one category. *)
Definition kwStep (text : string) (score : Z) (p : string * Z) : Z :=
  let '(kw, w) := p in
  if includes text kw
  then (score + w) + (if includes kw " " then 1 else 0)
  else score.

(** The score of one category: [let score = 0; for (const [kw, w] of pairs) ...]. *)
Definition categoryScore (text : string) (pairs : list (string * Z)) : Z :=
  fold_left (kwStep text) pairs 0.

(** The outer loop body: [if (score > bestScore) { bestScore = score; best = label }]. *)
Definition areaStep (text : string) (st : string * Z) (a : string * list (string * Z))
  : string * Z :=
  let '(best, bestScore) := st in
  let '(label, pairs) := a in
  let score := categoryScore text pairs in
  if score >? bestScore then (label, score) else (best, bestScore).

Definition scan (text : string) (cat : catalogue) (st : string * Z) : string * Z :=
  fold_left (areaStep text) cat st.

Definition classifierText (title summary : string) : string :=
  toLowerCase (title ++ " " ++ summary).

Definition categorize (title summary : string) : string :=
  let text := classifierText title summary in
  let '(best, bestScore) := scan text areas (defaultCategory, 0) in
  if bestScore <? confidenceFloor then defaultCategory else best.

(** The highest score over the catalogue (scores are never negative). *)
Definition topScore (text : string) (cat : catalogue) : Z :=
  fold_right (fun a m => Z.max (categoryScore text (snd a)) m) 0 cat.

(** ** JavaScript numbers and arrays *)

(** A number that is an integer or NaN ([parseInt], and what arithmetic
    makes of it). *)
Inductive num : Type :=
| NaN
| Num (z : Z).

Module JsNum.

Definition add (a b : num) : num :=
  match a, b with Num x, Num y => Num (x + y) | _, _ => NaN end.

Definition sub (a b : num) : num :=
  match a, b with Num x, Num y => Num (x - y) | _, _ => NaN end.

(** [Math.min] and [Math.max]: NaN if either argument is. *)
Definition min (a b : num) : num :=
  match a, b with Num x, Num y => Num (Z.min x y) | _, _ => NaN end.

Definition max (a b : num) : num :=
  match a, b with Num x, Num y => Num (Z.max x y) | _, _ => NaN end.

(** [a !== b]: NaN differs from everything, itself included. *)
Definition neqb (a b : num) : bool :=
  match a, b with Num x, Num y => negb (x =? y) | _, _ => true end.

(** ToIntegerOrInfinity: NaN becomes 0. *)
Definition toInteger (a : num) : Z :=
  match a with Num x => x | NaN => 0 end.

Definition isDigit (c : ascii) : bool :=
  let n := code c in ((48 <=? n) && (n <=? 57))%N.

Definition digitValue (c : ascii) : Z := Z.of_N (code c) - 48.

(** The longest prefix of decimal digits, [None] when there is none. *)
Fixpoint readDigits (acc : option Z) (s : string) : option Z :=
  match s with
  | EmptyString => acc
  | String c s' =>
      if isDigit c
      then readDigits
             (Some (10 * (match acc with Some a => a | None => 0 end) + digitValue c)) s'
      else acc
  end.

(** [parseInt(s, 10)]: leading white space, an optional sign, then
    digits; NaN when no digit follows.  The value is the integer the digits
    denote.  JavaScript holds it as a double, which is that integer when it
    is a safe integer ([isSafeInteger] below) and a rounded value beyond;
    what depends on comparing or printing parsed values is stated for safe
    integers. *)
Definition parseInt (s : string) : num :=
  let t := trimStart s in
  let '(neg, r) :=
    match t with
    | String "-" r => (true, r)
    | String "+" r => (false, r)
    | _ => (false, t)
    end in
  match readDigits None r with
  | None => NaN
  | Some n => Num (if neg then - n else n)
  end.

(** [Number.isSafeInteger(n)]: an integer of magnitude at most 2^53 - 1,
    which a double holds exactly. *)
Definition isSafeInteger (n : num) : bool :=
  match n with
  | Num z => Z.abs z <=? 2 ^ 53 - 1
  | NaN => false
  end.

(** [/^\d+$/.test(s)] *)
Fixpoint allDigits (s : string) : bool :=
  match s with
  | EmptyString => true
  | String c s' => isDigit c && allDigits s'
  end.

Definition isDigits (s : string) : bool := truthy s && allDigits s.

(** [String(n)] and [n.toString()] of an integer (decimal notation, which
    JavaScript uses below 10^21). *)
Definition toString (z : Z) : string := NilEmpty.string_of_int (Z.to_int z).

End JsNum.

Module JsArray.

Section Sort.
Context {A : Type}.
Variable compareFn : A -> A -> num.

(** What [sort] makes of the comparator's result: a negative number
    puts the first argument first, NaN counts as 0. *)
Definition before (x y : A) : bool :=
  match compareFn x y with Num v => v <? 0 | NaN => false end.

Fixpoint insert (x : A) (l : list A) : list A :=
  match l with
  | [] => [x]
  | y :: l' => if before x y then x :: y :: l' else y :: insert x l'
  end.

(** [Array.prototype.sort(compareFn)], which is stable: each element is
    placed behind the earlier ones it does not precede. *)
Definition sort (l : list A) : list A :=
  fold_left (fun acc x => insert x acc) l [].
End Sort.

(** [slice(start, end)]: NaN counts as 0, a negative bound counts from the
    end, and both are clamped to the length. *)
Definition clampIndex (len : Z) (i : num) : Z :=
  let r := JsNum.toInteger i in
  if r <? 0 then Z.max (len + r) 0 else Z.min r len.

Definition slice {A : Type} (l : list A) (start finish : num) : list A :=
  let len := Z.of_nat (List.length l) in
  let k := clampIndex len start in
  let final := clampIndex len finish in
  firstn (Z.to_nat (final - k)) (skipn (Z.to_nat k) l).

(** [Array.from(new Set(l))]: the first occurrence of each string, in order. *)
Fixpoint dedupeAux (seen : list string) (l : list string) : list string :=
  match l with
  | [] => []
  | x :: l' =>
      if existsb (String.eqb x) seen then dedupeAux seen l'
      else x :: dedupeAux (x :: seen) l'
  end.

Definition dedupe (l : list string) : list string := dedupeAux [] l.

(** The default [sort()] of strings: by code units. *)
Definition compareStrings (a b : string) : num :=
  match String.compare a b with
  | Lt => Num (-1)
  | Eq => Num 0
  | Gt => Num 1
  end.

Definition sortStrings (l : list string) : list string := sort compareStrings l.

(** [l.indexOf(x)], -1 when absent. *)
Fixpoint indexOf (x : string) (l : list string) : Z :=
  match l with
  | [] => -1
  | y :: l' =>
      if String.eqb y x then 0
      else let i := indexOf x l' in if i <? 0 then -1 else i + 1
  end.

End JsArray.

(** A [Map<string, number>] in insertion order. *)
Module JsMap.

Definition t := list (string * Z).

Fixpoint get (m : t) (k : string) : option Z :=
  match m with
  | [] => None
  | (k', v) :: m' => if String.eqb k' k then Some v else get m' k
  end.

(** [m.set(k, v)]: an existing key keeps its place. *)
Fixpoint set (m : t) (k : string) (v : Z) : t :=
  match m with
  | [] => [(k, v)]
  | (k', v') :: m' =>
      if String.eqb k' k then (k', v) :: m' else (k', v') :: set m' k v
  end.

(** [m.get(k) || 0] *)
Definition getOr0 (m : t) (k : string) : Z :=
  match get m k with Some v => v | None => 0 end.

(** [m.set(k, (m.get(k) || 0) + 1)] *)
Definition incr (m : t) (k : string) : t := set m k (getOr0 m k + 1).

Definition keys (m : t) : list string := map fst m.

End JsMap.

(** ** Extractive summarizer, [summarizeExtractive] *)

(** [s.replace(/\s+/g, ' ')]: [inRun] tells that the previous character was
    white space. *)
Fixpoint collapse (inRun : bool) (s : string) : string :=
  match s with
  | EmptyString => EmptyString
  | String c s' =>
      if isSpace c
      then if inRun then collapse true s' else String " " (collapse true s')
      else String c (collapse false s')
  end.

Definition normalizeSpace (text : string) : string :=
  if truthy (trim text) then trim (collapse false text) else "".

Definition isTerminal (c : ascii) : bool :=
  Ascii.eqb c "." || Ascii.eqb c "!" || Ascii.eqb c "?".

(** [s.split(/(?<=[\.!?])\s+/)]: a separator is a whole run of white space
    that follows a terminal character.  [prevTerm]: the previous character
    is terminal; [inSep]: a separator is being consumed.  The result is the
    piece that continues at this position and the pieces after it. *)
Fixpoint splitFrom (prevTerm inSep : bool) (s : string) : string * list string :=
  match s with
  | EmptyString => (EmptyString, [])
  | String c s' =>
      if isSpace c && (inSep || prevTerm)
      then let '(p, ps) := splitFrom false true s' in
           if inSep then (p, ps) else (EmptyString, p :: ps)
      else let '(p, ps) := splitFrom (isTerminal c) false s' in
           (String c p, ps)
  end.

Definition splitSentences (s : string) : list string :=
  let '(p, ps) := splitFrom false false s in p :: ps.

(** [.map(s => s.trim()).filter(Boolean)] *)
Definition sentencesOf (body : string) : list string :=
  filter truthy (map trim (splitSentences body)).

Definition isWordChar (c : ascii) : bool :=
  let n := code c in ((97 <=? n) && (n <=? 122) || (n =? 39))%N.

(** [s.match(/[a-z']+/g) || []]: the maximal runs of word characters. *)
Fixpoint wordsFrom (s : string) : string * list string :=
  match s with
  | EmptyString => (EmptyString, [])
  | String c s' =>
      let '(w, ws) := wordsFrom s' in
      if isWordChar c then (String c w, ws)
      else (EmptyString, if truthy w then w :: ws else ws)
  end.

Definition matchWords (s : string) : list string :=
  let '(w, ws) := wordsFrom s in if truthy w then w :: ws else ws.

Definition stop : list string :=
  [ "a"; "an"; "the"; "and"; "or"; "but"; "if"; "while"; "of"; "for"; "on";
    "in"; "at"; "to"; "from"; "by"; "with"; "as"; "is"; "are"; "was"; "were";
    "be"; "been"; "being"; "this"; "that"; "those"; "these"; "it"; "its";
    "they"; "them"; "their"; "we"; "our"; "you"; "your"; "he"; "she"; "his";
    "her"; "not"; "no"; "yes"; "do"; "does"; "did" ].

Definition stopHas (w : string) : bool := existsb (String.eqb w) stop.

(** [freq] is a plain object used as a dictionary.  Its values are counts,
    but for the key "constructor", the one word of [a-z']+ that a plain
    object inherits: there [freq[w] || 0] is the Object function, adding to
    it yields a string, and the comparator's subtraction turns that into
    NaN.  Such a value is [NaN] here from the start. *)
Definition freqTable := list (string * num).

Fixpoint freqOwn (freq : freqTable) (w : string) : option num :=
  match freq with
  | [] => None
  | (k, v) :: freq' => if String.eqb k w then Some v else freqOwn freq' w
  end.

(** [freq[w] || 0] *)
Definition freqGet (freq : freqTable) (w : string) : num :=
  match freqOwn freq w with
  | Some v => v
  | None => if String.eqb w "constructor" then NaN else Num 0
  end.

Fixpoint freqSet (freq : freqTable) (w : string) (v : num) : freqTable :=
  match freq with
  | [] => [(w, v)]
  | (k, v') :: freq' =>
      if String.eqb k w then (k, v) :: freq' else (k, v') :: freqSet freq' w v
  end.

Definition freqStep (freq : freqTable) (w : string) : freqTable :=
  if stopHas w || (String.length w <=? 2)%nat then freq
  else freqSet freq w (JsNum.add (freqGet freq w) (Num 1)).

Definition buildFreq (words : list string) : freqTable :=
  fold_left freqStep words [].

Definition sentenceScore (freq : freqTable) (s : string) : num :=
  fold_left (fun a w => JsNum.add a (freqGet freq w))
            (matchWords (toLowerCase s)) (Num 0).

(** [sentences.map((s, i) => ({ i, score }))] *)
Fixpoint scoreFrom (freq : freqTable) (i : nat) (sentences : list string)
  : list (nat * num) :=
  match sentences with
  | [] => []
  | s :: rest => (i, sentenceScore freq s) :: scoreFrom freq (S i) rest
  end.

Definition byScoreDesc (a b : nat * num) : num := JsNum.sub (snd b) (snd a).

Definition byIndexAsc (a b : nat) : num := Num (Z.of_nat a - Z.of_nat b).

(** The indices of the sentences taken when there are more than
    [maxSentences]: [scored.sort(...).slice(0, maxSentences).map(x => x.i).sort(...)]. *)
Definition topIndices (body : string) (sentences : list string) (maxSentences : nat)
  : list nat :=
  let freq := buildFreq (matchWords (toLowerCase body)) in
  let scored := JsArray.sort byScoreDesc (scoreFrom freq 0 sentences) in
  JsArray.sort byIndexAsc (map fst (firstn maxSentences scored)).

(** [maxSentences] is a number of sentences (the route passes 5). *)
Definition summarizeExtractive (text : string) (maxSentences : nat) : string :=
  let body := normalizeSpace text in
  if negb (truthy body) then ""
  else
    let sentences := sentencesOf body in
    if (List.length sentences <=? maxSentences)%nat then String.concat " " sentences
    else
      String.concat " "
        (map (fun i => nth i sentences "") (topIndices body sentences maxSentences)).

(** ** Content records, data sets and requests *)

(** [year?: number | string] *)
Inductive ymField : Type :=
| YmNumber (z : Z)
| YmString (s : string).

Record Row : Type := mkRow {
  section : option string;
  category : option string;
  title : option string;
  date : option string;
  date_iso : option string;
  year : option ymField;
  month : option ymField;
  url : option string;
  summary : option string
}.

(** What a data set location holds once it is read: text that
    [JSON.parse] rejects (or a value whose [items] cannot be read), or a
    payload whose [items] is an array ([Some]) or anything else ([None]). *)
Inductive Body : Type :=
| Unparsable
| Parsed (items : option (list Row)).

(** The surroundings of a request: [readFile] is [None] when
    [fs.readFile] rejects; [fetch] is [None] when [fetch] rejects, and
    otherwise gives [res.ok] and the body; [envJsonPath] is
    [process.env.JSON_PATH || '']; [publicDir] is the public directory
    below the working directory. *)
Record World : Type := mkWorld {
  readFile : string -> option Body;
  fetch : string -> option (bool * Body);
  envJsonPath : string;
  publicDir : string
}.

Definition defaultPublicPaths (w : World) : list string :=
  [ publicDir w ++ "/news.json";
    publicDir w ++ "/insights.json";
    publicDir w ++ "/success-stories.json";
    publicDir w ++ "/e-learning.json";
    publicDir w ++ "/publications.json";
    publicDir w ++ "/output/news.json" ].

(** [Array.isArray(parsed.items) ? parsed.items : []] *)
Definition itemsArray (items : option (list Row)) : list Row :=
  match items with Some arr => arr | None => [] end.

(** [if (arr) rows = rows.concat(arr)] *)
Definition concatIf (rows : list Row) (arr : option (list Row)) : list Row :=
  match arr with Some a => (rows ++ a)%list | None => rows end.

(** The filter parameters of the query string, [None] when absent. *)
Record Query : Type := mkQuery {
  p_section : option string;
  p_category : option string;
  p_q : option string;
  p_startYm : option string;
  p_endYm : option string
}.

(** The filters after [trim], [toLowerCase] and the "all" rule. *)
Record Filters : Type := mkFilters {
  fSection : string;
  fCategory : string;
  fQ : string;
  fStart : string;
  fEnd : string
}.

Definition allIsNone (s : string) : string := if String.eqb s "all" then "" else s.

Definition filtersOf (q : Query) : Filters :=
  {| fSection := allIsNone (toLowerCase (trim (orEmpty (p_section q))));
     fCategory := allIsNone (toLowerCase (trim (orEmpty (p_category q))));
     fQ := toLowerCase (trim (orEmpty (p_q q)));
     fStart := trim (orEmpty (p_startYm q));
     fEnd := trim (orEmpty (p_endYm q)) |}.

(** [s.replace('-', '')]: the first dash only. *)
Fixpoint removeFirstDash (s : string) : string :=
  match s with
  | EmptyString => EmptyString
  | String c s' => if Ascii.eqb c "-" then s' else String c (removeFirstDash s')
  end.

(** [s.replace(/-/g, '')] *)
Fixpoint removeDashes (s : string) : string :=
  match s with
  | EmptyString => EmptyString
  | String c s' => if Ascii.eqb c "-" then removeDashes s' else String c (removeDashes s')
  end.

(** [s || d] *)
Definition orElse (s d : string) : string := if truthy s then s else d.

(** The range test both routes share, on a label: string comparison of
    the keys, by code units. *)
Definition inRange (f : Filters) (lbl : string) : bool :=
  if negb (truthy (fStart f)) && negb (truthy (fEnd f)) then true
  else if String.eqb lbl "Unknown" then false
  else if truthy (fStart f) && String.ltb (removeFirstDash lbl) (removeFirstDash (fStart f))
       then false
  else if truthy (fEnd f) && String.ltb (removeFirstDash (fEnd f)) (removeFirstDash lbl)
       then false
  else true.

(** [(r.section || '').trim().toLowerCase() !== fSection], guarded by the
    filter being set. *)
Definition rejects (filter : string) (field : option string) : bool :=
  truthy filter && negb (String.eqb (toLowerCase (trim (orEmpty field))) filter).

(** ** The listing route, [app/api/items/route.ts] *)

Module Items.

Definition isHttp (pathStr : string) : bool :=
  let l := toLowerCase pathStr in prefix "http://" l || prefix "https://" l.

Definition tryRead (w : World) (pathStr : string) : option (list Row) :=
  if isHttp pathStr then
    match fetch w pathStr with
    | None => None
    | Some (ok, body) =>
        if negb ok then None
        else match body with
             | Unparsable => None
             | Parsed items => Some (itemsArray items)
             end
    end
  else
    match readFile w pathStr with
    | None => None
    | Some Unparsable => None
    | Some (Parsed items) => Some (itemsArray items)
    end.

(** The loop over the default data sets. *)
Definition mergeAll (w : World) (paths : list string) : list Row :=
  fold_left (fun rows p => concatIf rows (tryRead w p)) paths [].

Definition loadRows (w : World) (csvParam : string) : list Row :=
  if truthy csvParam then concatIf [] (tryRead w csvParam)
  else if truthy (envJsonPath w) then concatIf [] (tryRead w (envJsonPath w))
  else mergeAll w (defaultPublicPaths w).

Definition withinYmRange (f : Filters) (dateIso : string) : bool :=
  let lbl := orElse (substring 0 7 dateIso) "Unknown" in
  inRange f lbl.

Definition keep (f : Filters) (r : Row) : bool :=
  if rejects (fSection f) (section r) then false
  else if rejects (fCategory f) (category r) then false
  else if truthy (fQ f) && negb (includes (toLowerCase (orEmpty (title r))) (fQ f))
       then false
  else if negb (withinYmRange f (orEmpty (date_iso r))) then false
  else true.

Definition dateKey (r : Row) : num :=
  JsNum.parseInt (orElse (removeDashes (orEmpty (date_iso r))) "0").

Record Compact : Type := mkCompact {
  c_section : string;
  c_category : string;
  c_title : string;
  c_date : string;
  c_url : string;
  c_summary : string;
  c_shortSummary : string
}.

Record Response : Type := mkResponse {
  total : Z;
  items : list Compact
}.

(** The pagination parameters of the query string. *)
Record Page : Type := mkPage {
  p_limit : option string;
  p_offset : option string
}.

(** [Math.max(1, Math.min(500, parseInt(get('limit') || '20', 10)))] *)
Definition limitOf (p : Page) : num :=
  JsNum.max (Num 1) (JsNum.min (Num 500) (JsNum.parseInt (orElse (orEmpty (p_limit p)) "20"))).

(** [Math.max(0, parseInt(get('offset') || '0', 10))] *)
Definition offsetOf (p : Page) : num :=
  JsNum.max (Num 0) (JsNum.parseInt (orElse (orEmpty (p_offset p)) "0")).

Section Listing.
(** [a.localeCompare(b)] follows the collation of the host's locale,
    and the marker that [makeShortSummary] appends lies outside the
    code units of the model: both are taken as given. *)
Variable localeCompare : string -> string -> num.
Variable marker : string.

Definition compareRows (a b : Row) : num :=
  let an := dateKey a in
  let bn := dateKey b in
  if JsNum.neqb an bn then JsNum.sub bn an
  else localeCompare (toLowerCase (orEmpty (title a))) (toLowerCase (orEmpty (title b))).

Definition makeShortSummary (s : string) : string :=
  let text := trim s in
  if negb (truthy text) then ""
  else if (String.length text <=? 240)%nat then text
  else trimEnd (substring 0 239 text) ++ marker.

Definition compact (r : Row) : Compact :=
  let summary := orEmpty (summary r) in
  {| c_section := orEmpty (section r);
     c_category := orEmpty (category r);
     c_title := orEmpty (title r);
     c_date := orEmpty (date r);
     c_url := orEmpty (url r);
     c_summary := summary;
     c_shortSummary := makeShortSummary (orElse summary (orEmpty (title r))) |}.

(** The route on a loaded corpus. *)
Definition listing (rows : list Row) (q : Query) (p : Page) : Response :=
  let limit := limitOf p in
  let offset := offsetOf p in
  if (List.length rows =? 0)%nat then {| total := 0; items := [] |}
  else
    let f := filtersOf q in
    let filtered := filter (keep f) rows in
    let sorted :=
      JsArray.slice (JsArray.sort compareRows filtered) offset (JsNum.add offset limit) in
    {| total := Z.of_nat (List.length filtered); items := map compact sorted |}.

Definition GET (w : World) (csvParam : option string) (q : Query) (p : Page) : Response :=
  listing (loadRows w (orEmpty csvParam)) q p.
End Listing.

End Items.

(** ** The statistics route (second document of [components/ui/chart.tsx]) *)

Module Stats.

(** [String(r.year || '')] *)
Definition fieldString (o : option ymField) : string :=
  match o with
  | None => ""
  | Some (YmNumber z) => if z =? 0 then "" else JsNum.toString z
  | Some (YmString s) => s
  end.

(** The part of [s] before its first dash, and what follows that dash
    when there is one: the head of [s.split('-')] and the rest. *)
Fixpoint splitDash (s : string) : string * option string :=
  match s with
  | EmptyString => (EmptyString, None)
  | String c s' =>
      if Ascii.eqb c "-" then (EmptyString, Some s')
      else let '(h, t) := splitDash s' in (String c h, t)
  end.

(** [s.padStart(n, '0')] *)
Definition padStart (n : nat) (s : string) : string :=
  string_of_list_ascii (repeat "0"%char (n - String.length s)) ++ s.

Definition numString (n : num) : string :=
  match n with Num z => JsNum.toString z | NaN => "NaN" end.

Definition toYmLabel (r : Row) : string :=
  let di := trim (orEmpty (date_iso r)) in
  let '(y, rest) := splitDash di in
  let m := match rest with Some t => fst (splitDash t) | None => "" end in
  if truthy di && (truthy y && truthy m) then y ++ "-" ++ m
  else
    let y := trim (fieldString (year r)) in
    let m := trim (fieldString (month r)) in
    if JsNum.isDigits y && JsNum.isDigits m then
      let yi := JsNum.parseInt y in
      let mi := JsNum.parseInt m in
      padStart 4 (numString yi) ++ "-" ++ padStart 2 (numString mi)
    else "Unknown".

Definition ymKey (a : string) : num :=
  if String.eqb a "Unknown" then Num 0 else JsNum.parseInt (removeFirstDash a).

Definition sortYmLabels (labels : list string) : list string :=
  JsArray.sort (fun a b => JsNum.sub (ymKey a) (ymKey b)) (JsArray.dedupe labels).

Definition tryRead (w : World) (pathStr : string) : option (list Row) :=
  match readFile w pathStr with
  | None => None
  | Some Unparsable => None
  | Some (Parsed items) =>
      let arr := itemsArray items in
      if (0 <? List.length arr)%nat then Some arr else Some []
  end.

(** [usedPaths] and [rowsMerged]. *)
Definition loadStep (w : World) (st : list string * list Row) (p : string)
  : list string * list Row :=
  match tryRead w p with
  | Some arr => ((fst st ++ [p])%list, (snd st ++ arr)%list)
  | None => st
  end.

(** The loop over the default data sets. *)
Definition mergeAll (w : World) (paths : list string) : list string * list Row :=
  fold_left (loadStep w) paths ([], []).

Definition load (w : World) (csvParam : string) : list string * list Row :=
  if truthy csvParam then loadStep w ([], []) csvParam
  else if truthy (envJsonPath w) then loadStep w ([], []) (envJsonPath w)
  else mergeAll w (defaultPublicPaths w).

Definition withinYmRange (f : Filters) (lbl : string) : bool := inRange f lbl.

Definition keep (f : Filters) (r : Row) : bool :=
  if rejects (fSection f) (section r) then false
  else if rejects (fCategory f) (category r) then false
  else if truthy (fQ f)
          && negb (includes (toLowerCase (orEmpty (title r) ++ " " ++ orEmpty (summary r)))
                            (fQ f))
       then false
  else if negb (withinYmRange f (toYmLabel r)) then false
  else true.

(** [(r.category || 'Uncategorized').trim() || 'Uncategorized'] *)
Definition bucket (field : option string) (blank : string) : string :=
  orElse (trim (orElse (orEmpty field) blank)) blank.

Definition categoryBucket (r : Row) : string := bucket (category r) "Uncategorized".
Definition sectionBucket (r : Row) : string := bucket (section r) "unknown".

(** [Array.from(new Set(rows.map(r => (r.section || '').trim()).filter(Boolean))).sort()] *)
Definition facetValues (field : Row -> option string) (rows : list Row) : list string :=
  JsArray.sortStrings
    (JsArray.dedupe (filter truthy (map (fun r => trim (orEmpty (field r))) rows))).

(** The state of the counting loop: [byCategory], [bySection], [ymList]. *)
Record Counters : Type := mkCounters {
  byCategory : JsMap.t;
  bySection : JsMap.t;
  ymList : list string
}.

Definition countStep (c : Counters) (r : Row) : Counters :=
  {| byCategory := JsMap.incr (byCategory c) (categoryBucket r);
     bySection := JsMap.incr (bySection c) (sectionBucket r);
     ymList := (ymList c ++ [toYmLabel r])%list |}.

Definition countAll (filtered : list Row) : Counters :=
  fold_left countStep filtered {| byCategory := []; bySection := []; ymList := [] |}.

Definition byCountDesc (a b : string * Z) : num := Num (snd b - snd a).

(** [series[sec][idx] = (series[sec][idx] || 0) + 1], for an index within
    the array. *)
Fixpoint bumpAt (idx : nat) (l : list Z) : list Z :=
  match l, idx with
  | [], _ => []
  | v :: l', O => (v + 1) :: l'
  | v :: l', S i => v :: bumpAt i l'
  end.

Fixpoint bumpSeries (series : list (string * list Z)) (sec : string) (idx : nat)
  : list (string * list Z) :=
  match series with
  | [] => []
  | (k, arr) :: rest =>
      if String.eqb k sec then (k, bumpAt idx arr) :: rest
      else (k, arr) :: bumpSeries rest sec idx
  end.

Definition seriesStep (ymLabels : list string) (series : list (string * list Z)) (r : Row)
  : list (string * list Z) :=
  let idx := JsArray.indexOf (toYmLabel r) ymLabels in
  if idx >=? 0 then bumpSeries series (sectionBucket r) (Z.to_nat idx) else series.

Record Response : Type := mkResponse {
  csv_path : string;
  total : Z;
  by_category : list (string * Z);
  by_section : list (string * Z);
  by_year_month : list string * list Z;
  monthly_by_section : list string * list (string * list Z);
  facets : list string * list string
}.

(** The route on a loaded corpus. *)
Definition aggregate (usedPaths : list string) (rows : list Row) (q : Query) : Response :=
  if (List.length rows =? 0)%nat then
    {| csv_path := String.concat ", " usedPaths;
       total := 0;
       by_category := [];
       by_section := [];
       by_year_month := ([], []);
       monthly_by_section := ([], []);
       facets := ([], []) |}
  else
    let f := filtersOf q in
    let allSections := facetValues section rows in
    let allCategories := facetValues category rows in
    let filtered := filter (keep f) rows in
    let c := countAll filtered in
    let ymCounts := fold_left JsMap.incr (ymList c) [] in
    let ymLabels := sortYmLabels (JsMap.keys ymCounts) in
    let sectionKeys := JsArray.sortStrings (JsMap.keys (bySection c)) in
    let series0 := map (fun s => (s, map (fun _ => 0) ymLabels)) sectionKeys in
    let series := fold_left (seriesStep ymLabels) filtered series0 in
    {| csv_path := String.concat ", " usedPaths;
       total := Z.of_nat (List.length filtered);
       by_category := JsArray.sort byCountDesc (byCategory c);
       by_section := JsArray.sort byCountDesc (bySection c);
       by_year_month := (ymLabels, map (JsMap.getOr0 ymCounts) ymLabels);
       monthly_by_section := (ymLabels, series);
       facets := (allSections, allCategories) |}.

Definition GET (w : World) (csvParam : option string) (q : Query) : Response :=
  let '(usedPaths, rows) := load w (orEmpty csvParam) in
  aggregate usedPaths rows q.

End Stats.

(** ** The merger's contract *)

(** What a data set contributes by the contract of the record merger: its
    items when it loads, parses and holds an array of items, and nothing
    otherwise. *)
Definition fileItems (w : World) (p : string) : list Row :=
  match readFile w p with
  | Some (Parsed (Some arr)) => arr
  | _ => []
  end.

Definition remoteItems (w : World) (p : string) : list Row :=
  match fetch w p with
  | Some (true, Parsed (Some arr)) => arr
  | _ => []
  end.

Definition sourceItems (w : World) (p : string) : list Row :=
  if Items.isHttp p then remoteItems w p else fileItems w p.

Definition sumZ (l : list Z) : Z := fold_right Z.add 0 l.

(** ** Sample data *)

Definition blankRow : Row :=
  {| section := None; category := None; title := None; date := None; date_iso := None;
     year := None; month := None; url := None; summary := None |}.

Definition rowFisheries : Row :=
  {| section := Some "news"; category := None;
     title := Some "Women in fisheries value chains"; date := None;
     date_iso := Some "2024-01-10"; year := None; month := None; url := None;
     summary := None |}.

Definition rowLand : Row :=
  {| section := Some "news"; category := Some "Gender and land and water";
     title := Some "Land tenure and water rights"; date := None;
     date_iso := Some "2024-01-20"; year := None; month := None; url := None;
     summary := None |}.

(** A publication dated by [year] and [month] only. *)
Definition rowPublication : Row :=
  {| section := Some "publications"; category := None;
     title := Some "Annual report"; date := None;
     date_iso := None; year := Some (YmNumber 2023); month := Some (YmNumber 7);
     url := None; summary := Some "A study of fisheries" |}.

Definition noFilters : Query :=
  {| p_section := None; p_category := None; p_q := None;
     p_startYm := None; p_endYm := None |}.

Definition year2023 : Query :=
  {| p_section := None; p_category := None; p_q := None;
     p_startYm := Some "2023-01"; p_endYm := Some "2023-12" |}.

Definition queryFish : Query :=
  {| p_section := None; p_category := None; p_q := Some " Fish ";
     p_startYm := None; p_endYm := None |}.

(** Data sets of sizes 2, unreadable, 3, and three that bring nothing. *)
Definition sampleWorld : World :=
  {| readFile := fun p =>
       if String.eqb p "/app/public/news.json"
       then Some (Parsed (Some [rowFisheries; rowLand]))
       else if String.eqb p "/app/public/success-stories.json"
       then Some (Parsed (Some [rowPublication; rowLand; rowFisheries]))
       else if String.eqb p "/app/public/e-learning.json" then Some Unparsable
       else if String.eqb p "/app/public/publications.json" then Some (Parsed None)
       else None;
     fetch := fun _ => None;
     envJsonPath := "";
     publicDir := "/app/public" |}.

(** [s] holds a dash. *)
Fixpoint hasDash (s : string) : bool :=
  match s with
  | EmptyString => false
  | String c s' => Ascii.eqb c "-" || hasDash s'
  end.

(** ** Words and sentences of a normalized text *)

(** Notions used to state what [normalizeSpace] and the sentence splitting
    yield; the program itself does not compute them. *)

(** The maximal runs of characters that are not white space: the run that
    starts at this position and the runs after it. *)
Fixpoint tokFrom (s : string) : string * list string :=
  match s with
  | EmptyString => (EmptyString, [])
  | String c s' =>
      let '(w, ws) := tokFrom s' in
      if isSpace c then (EmptyString, if truthy w then w :: ws else ws)
      else (String c w, ws)
  end.

Definition tokens (s : string) : list string :=
  let '(w, ws) := tokFrom s in if truthy w then w :: ws else ws.

Fixpoint noSpace (s : string) : bool :=
  match s with
  | EmptyString => true
  | String c s' => negb (isSpace c) && noSpace s'
  end.

(** A word: not empty, without white space. *)
Definition isWord (w : string) : bool := truthy w && noSpace w.

(** The last character of [s] is terminal ([pt] when [s] is empty). *)
Fixpoint lastTerminal (pt : bool) (s : string) : bool :=
  match s with
  | EmptyString => pt
  | String c s' => lastTerminal (isTerminal c) s'
  end.

Definition endsTerminal (w : string) : bool := lastTerminal false w.

(** The words of a text grouped into sentences: a sentence ends with a
    word that ends in a terminal character and is followed by a word. *)
Fixpoint groupFrom (ws : list string) : list string * list (list string) :=
  match ws with
  | [] => ([], [])
  | w :: ws' =>
      let '(g, gs) := groupFrom ws' in
      match ws' with
      | [] => ([w], [])
      | _ :: _ => if endsTerminal w then ([w], g :: gs) else (w :: g, gs)
      end
  end.

Definition groups (ws : list string) : list (list string) :=
  let '(g, gs) := groupFrom ws in g :: gs.

(** A word that is being read, followed by the words after it. *)
Definition joinAfter (w : string) (ws : list string) : string :=
  w ++ match ws with [] => "" | _ :: _ => " " ++ String.concat " " ws end.

(** A sentence as a list of words: not empty, and not split by [groupFrom]. *)
Definition wholeSentence (g : list string) : Prop :=
  g <> [] /\ Forall (fun w => isWord w = true) g /\ groupFrom g = (g, []).

(** The last word of the sentence ends in a terminal character. *)
Definition terminated (g : list string) : Prop := endsTerminal (last g "") = true.

(** Sentences that follow one another in a text: all but the last are
    terminated. *)
Inductive Chained : list (list string) -> Prop :=
| chained_last (g : list string) : wholeSentence g -> Chained [g]
| chained_next (g : list string) (gs : list (list string)) :
    wholeSentence g -> terminated g -> Chained gs -> Chained (g :: gs).


(** ** Main-content extraction, [extractMainText] *)

(** What the cheerio queries answer on a page.  [partsOf html sel] is
    [None] when [$(sel).first()] is empty, and otherwise the texts of the
    [p] and [li] elements below that node, in document order;
    [paragraphsOf html] are the texts of all [p] elements; both after the
    script, style, navigation and sharing elements are removed.
    [titleOf] and [headingOf] are [$('title').first().text()] and
    [$('h1').first().text()]. *)
Record Cheerio : Type := mkCheerio {
  partsOf : string -> string -> option (list string);
  paragraphsOf : string -> list string;
  titleOf : string -> string;
  headingOf : string -> string
}.

Definition candidateSelectors : list string :=
  [ "article"; "main article"; "main .article"; "div.article"; "div.article-content";
    "div.entry-content"; "div#content"; "main"; "section.content"; "div.content";
    "div.text"; "div#main-content" ].

Definition newline : string := String (ascii_of_N 10) EmptyString.

(** [if (t && t.trim()) parts.push(normalizeSpace(t))], then [parts.join('\n')]. *)
Definition joinParts (texts : list string) : string :=
  String.concat newline
    (map normalizeSpace (filter (fun t => truthy t && truthy (trim t)) texts)).

(** The loop body: [best] and [bestLen]. *)
Definition candidateStep (ch : Cheerio) (html : string) (st : string * nat) (sel : string)
  : string * nat :=
  match partsOf ch html sel with
  | None => st
  | Some texts =>
      let text := joinParts texts in
      if (snd st <? String.length text)%nat then (text, String.length text) else st
  end.

Definition extractMainText (ch : Cheerio) (html : string) : string :=
  let '(best, _) := fold_left (candidateStep ch html) candidateSelectors ("", 0%nat) in
  let best := if negb (truthy best) then joinParts (paragraphsOf ch html) else best in
  normalizeSpace best.

(** ** The remote adapter and the route, [summarizeWithAgent] and [POST] *)

(** What the chat completion call comes to: it fails (the request is
    rejected, the answer or its content is not JSON, or the content is the
    JSON value [null]), it answers with a status that is not ok, or it
    answers with an object whose [summary] and [category] are these strings
    (empty when absent). *)
Inductive AgentReply : Type :=
| CallFails
| CallNotOk
| CallReply (summary category : string).

(** What fetching the article comes to: the request is rejected or the
    text of the answer cannot be read, or it answers with [res.ok],
    [res.status] and the text of the body. *)
Inductive PageReply : Type :=
| PageFails
| PageAnswer (ok : bool) (status : Z) (html : string).

(** The surroundings of the summarize route: [apiKey] is
    [process.env.OPENAI_API_KEY || '']; [chat url title content] is the call
    to the completion service, with the content as it is sent. *)
Record Web : Type := mkWeb {
  apiKey : string;
  chat : string -> string -> string -> AgentReply;
  fetchPage : string -> PageReply;
  cheerio : Cheerio
}.

Definition summarizeWithAgent (w : Web) (url title content : string)
  : option (string * string) :=
  if negb (truthy (apiKey w)) then None
  else
    match chat w url title (substring 0 (Z.to_nat 12000) content) with
    | CallFails => None
    | CallNotOk => None
    | CallReply s c =>
        let summary := normalizeSpace s in
        let category := normalizeSpace c in
        if negb (truthy summary) then None
        else Some (summary, orElse category (categorize title summary))
    end.

Inductive Method : Type := heuristic | agent.

Record SummarizeResponse : Type := mkSummarizeResponse {
  r_title : string;
  r_url : string;
  r_summary : string;
  r_category : string;
  r_method : Method
}.

(** The answer of the route: the payload, or a status with its [error]
    text (the [message] of a caught exception is left out). *)
Inductive Answer : Type :=
| Payload (p : SummarizeResponse)
| Failure (status : Z) (error : string).

(** The request body, as [await req.json().catch(() => ({}))] yields it:
    the JSON value [null], none of whose fields can be read, or a value
    with fields, where [url] is [None] when absent (it is for a body that
    is not JSON, which counts as [{}]) and [agent] is [Boolean(body.agent)]. *)
Inductive SummarizeRequest : Type :=
| NullBody
| Fields (url : option string) (agent : bool).

Definition req_url (req : SummarizeRequest) : option string :=
  match req with
  | NullBody => None
  | Fields url _ => url
  end.

Definition req_agent (req : SummarizeRequest) : bool :=
  match req with
  | NullBody => false
  | Fields _ wantAgent => wantAgent
  end.

(** [normalizeSpace($('title').first().text()) ||
     normalizeSpace($('h1').first().text()) || targetUrl] *)
Definition pageTitle (ch : Cheerio) (html targetUrl : string) : string :=
  orElse (normalizeSpace (titleOf ch html))
         (orElse (normalizeSpace (headingOf ch html)) targetUrl).

(** The route.  Reading [body.url] of a [null] body throws, and whatever is
    thrown inside the [try] is answered by 500. *)
Definition POST (w : Web) (req : SummarizeRequest) : Answer :=
  match req with
  | NullBody => Failure 500 "Internal server error"
  | Fields url wantAgent =>
      let targetUrl := trim (orEmpty url) in
      if negb (truthy targetUrl) || negb (Items.isHttp targetUrl)
      then Failure 400 "Invalid url"
      else
        match fetchPage w targetUrl with
        | PageFails => Failure 500 "Internal server error"
        | PageAnswer ok status html =>
            if negb ok then Failure 502 ("Fetch failed: " ++ JsNum.toString status)
            else
              let title := pageTitle (cheerio w) html targetUrl in
              let content := extractMainText (cheerio w) html in
              let summary := summarizeExtractive content 5 in
              let category := categorize title (orElse summary content) in
              if wantAgent then
                match summarizeWithAgent w targetUrl title content with
                | Some (aiSummary, aiCategory) =>
                    if truthy aiSummary then
                      Payload {| r_title := title; r_url := targetUrl;
                                 r_summary := aiSummary;
                                 r_category := orElse aiCategory category;
                                 r_method := agent |}
                    else
                      Payload {| r_title := title; r_url := targetUrl; r_summary := summary;
                                 r_category := category; r_method := heuristic |}
                | None =>
                    Payload {| r_title := title; r_url := targetUrl; r_summary := summary;
                               r_category := category; r_method := heuristic |}
                end
              else
                Payload {| r_title := title; r_url := targetUrl; r_summary := summary;
                           r_category := category; r_method := heuristic |}
        end
  end.

(** ** The migration script, [guessKeywords] *)

Definition keywordDict : list string :=
  [ "women"; "agrifood systems"; "value chains"; "gender"; "employment";
    "finance"; "climate"; "land"; "data"; "policy" ].

(** [k.split(' ')[0]] *)
Fixpoint firstWord (k : string) : string :=
  match k with
  | EmptyString => EmptyString
  | String c k' => if Ascii.eqb c " " then EmptyString else String c (firstWord k')
  end.

(** [if (!picks.includes(w)) picks.push(w)] *)
Definition addPick (picks : list string) (w : string) : list string :=
  if existsb (String.eqb w) picks then picks else (picks ++ [w])%list.

Definition guessKeywords (title summary : string) : list string :=
  let text := toLowerCase (title ++ " " ++ summary) in
  let picks :=
    fold_left (fun picks k => if includes text (firstWord k) then addPick picks k else picks)
              keywordDict [] in
  JsArray.slice picks (Num 0) (Num 12).

(** ** Year-month labels of the usual shape *)

(** Four digits, a dash and two digits. *)
Definition isYm (s : string) : bool :=
  match s with
  | String a (String b (String c (String d (String e (String f (String g EmptyString)))))) =>
      JsNum.isDigit a && JsNum.isDigit b && JsNum.isDigit c && JsNum.isDigit d
      && Ascii.eqb e "-" && JsNum.isDigit f && JsNum.isDigit g
  | _ => false
  end.

(** ** More sample data *)

Definition sampleCheerio : Cheerio :=
  {| partsOf := fun _ sel =>
       if String.eqb sel "article"
       then Some ["Women lead  the cooperative."; "   "; "Fish sales rose."]
       else if String.eqb sel "main" then Some ["Menu"]
       else None;
     paragraphsOf := fun _ => ["Menu"; "Women lead  the cooperative."];
     titleOf := fun _ => " Fisheries  news ";
     headingOf := fun _ => "" |}.

(** A site that answers, and no key for the completion service. *)
Definition sampleWeb : Web :=
  {| apiKey := "";
     chat := fun _ _ _ => CallFails;
     fetchPage := fun _ => PageAnswer true 200 "<html></html>";
     cheerio := sampleCheerio |}.

(** A site that answers and a key; the completion service turns down the
    requests about one address and answers the others. *)
Definition agentDownWeb : Web :=
  {| apiKey := "sk-test";
     chat := fun url _ _ =>
       if String.eqb url "https://example.org/a" then CallNotOk
       else CallReply " A  summary. " "";
     fetchPage := fun _ => PageAnswer true 200 "<html></html>";
     cheerio := sampleCheerio |}.

(** The number that a string of decimal digits writes, after [acc]. *)
Fixpoint decimalValue (acc : Z) (s : string) : Z :=
  match s with
  | EmptyString => acc
  | String c s' => decimalValue (10 * acc + JsNum.digitValue c) s'
  end.

(** What [toYmLabel] makes of a [year] or [month] field that holds the
    number [n]: the digits it tests, and the part of the label, padded to
    [width]. *)
Definition fieldDigits (n : Z) : string := trim (Stats.fieldString (Some (YmNumber n))).

Definition fieldPart (width : nat) (n : Z) : string :=
  Stats.padStart width (Stats.numString (JsNum.parseInt (fieldDigits n))).

(** The part has [width] digits and writes [n]. *)
Definition fieldPartOk (width : nat) (n : Z) : bool :=
  JsNum.isDigits (fieldDigits n)
  && (String.length (fieldPart width n) =? width)%nat
  && JsNum.allDigits (fieldPart width n)
  && (decimalValue 0 (fieldPart width n) =? n).

(** The number of records of [rows] whose section bucket is [sec] and
    whose year-month label is [lbl]; used to state what a cell of
    [monthly_by_section] holds. *)
Definition cellCount (rows : list Row) (sec lbl : string) : Z :=
  Z.of_nat (List.length
              (filter (fun r => String.eqb (Stats.sectionBucket r) sec
                                && String.eqb (Stats.toYmLabel r) lbl) rows)).

(** A record that passes no date test and one with a blank section. *)
Definition rowUndated : Row :=
  {| section := Some "  "; category := Some "Gender"; title := Some "Note"; date := None;
     date_iso := None; year := None; month := None; url := None; summary := None |}.

(** The data set at [p] can be read and its text is a JSON value whose
    [items] can be looked up. *)
Definition parses (w : World) (p : string) : bool :=
  match readFile w p with
  | Some (Parsed _) => true
  | _ => false
  end.
(** * Properties *)

(** ** The classifier *)

Section ClassifierFacts.
Variable text : string.

Lemma topScore_nonneg (cat : catalogue) : 0 <= topScore text cat.
Proof. induction cat as [|a cat IH]; simpl; lia. Qed.

Lemma topScore_upper (cat : catalogue) (a : string * list (string * Z)) :
  In a cat -> categoryScore text (snd a) <= topScore text cat.
Proof.
  induction cat as [|b cat IH]; simpl; [tauto|].
  intros [->|H]; [lia|].
  specialize (IH H). lia.
Qed.

(** The loop of [categorize], from any state with a score that is not
    negative: the final score is the larger of the initial score and the
    highest score; the label is unchanged when no category beats the
    initial score, and otherwise it is the label of the first category
    that reaches the highest score. *)
Lemma scan_inv (cat : catalogue) :
  forall (b : string) (s : Z), 0 <= s ->
    snd (scan text cat (b, s)) = Z.max s (topScore text cat) /\
    ((topScore text cat <= s /\ fst (scan text cat (b, s)) = b) \/
     (s < topScore text cat /\
      exists k a, nth_error cat k = Some a /\
                  fst (scan text cat (b, s)) = fst a /\
                  categoryScore text (snd a) = topScore text cat /\
                  forall m a', (m < k)%nat -> nth_error cat m = Some a' ->
                               categoryScore text (snd a') < topScore text cat)).
Proof.
  induction cat as [|[label pairs] cat IH]; intros b s Hs.
  - simpl. split; [lia|]. left. split; [lia|reflexivity].
  - unfold scan in *. cbn [fold_left areaStep topScore fold_right snd].
    fold (topScore text cat).
    destruct (Z.gtb_spec (categoryScore text pairs) s) as [Hgt|Hle].
    + destruct (IH label (categoryScore text pairs) ltac:(lia)) as [E [[Hl Hb]|[Hl Hx]]].
      * split; [rewrite E; lia|]. right. split; [lia|].
        exists 0%nat, (label, pairs). cbn [nth_error fst].
        repeat split; [exact Hb|cbn [snd]; lia|intros; lia].
      * split; [rewrite E; lia|]. right. split; [lia|].
        destruct Hx as (k & a & Hk & Hb & Ha & Hbefore).
        exists (S k), a. cbn [nth_error].
        repeat split; [exact Hk|exact Hb|lia|].
        intros [|m] a' Hm Hn; cbn [nth_error] in Hn.
        -- injection Hn as <-. cbn [snd]. lia.
        -- assert (categoryScore text (snd a') < topScore text cat) by (eapply Hbefore; [|eassumption]; lia).
           lia.
    + destruct (IH b s Hs) as [E [[Hl Hb]|[Hl Hx]]].
      * split; [rewrite E; lia|]. left. split; [lia|exact Hb].
      * split; [rewrite E; lia|]. right. split; [lia|].
        destruct Hx as (k & a & Hk & Hb & Ha & Hbefore).
        exists (S k), a. cbn [nth_error].
        repeat split; [exact Hk|exact Hb|lia|].
        intros [|m] a' Hm Hn; cbn [nth_error] in Hn.
        -- injection Hn as <-. cbn [snd]. lia.
        -- assert (categoryScore text (snd a') < topScore text cat) by (eapply Hbefore; [|eassumption]; lia).
           lia.
Qed.

(** A category whose keywords all weigh at least 2 scores 0 or at least 2. *)
Lemma categoryScore_gap (pairs : list (string * Z)) :
  Forall (fun p => 2 <= snd p) pairs ->
  categoryScore text pairs = 0 \/ 2 <= categoryScore text pairs.
Proof.
  unfold categoryScore.
  assert (G : forall s, (s = 0 \/ 2 <= s) ->
              Forall (fun p => 2 <= snd p) pairs ->
              fold_left (kwStep text) pairs s = 0 \/ 2 <= fold_left (kwStep text) pairs s).
  { induction pairs as [|[kw w] pairs IH]; intros s Hs HF; [exact Hs|].
    inversion HF as [|? ? Hw HF']; subst. cbn [fold_left]. apply IH; [|exact HF'].
    unfold kwStep. cbn [snd] in Hw.
    destruct (includes text kw); [|exact Hs].
    right. destruct (includes kw " "); lia. }
  intro HF. apply G; [left; reflexivity|exact HF].
Qed.
End ClassifierFacts.

Lemma categoryScore_nonneg (text : string) (pairs : list (string * Z)) :
  Forall (fun p => 0 <= snd p) pairs -> 0 <= categoryScore text pairs.
Proof.
  unfold categoryScore.
  assert (G : forall s, 0 <= s -> Forall (fun p => 0 <= snd p) pairs ->
                0 <= fold_left (kwStep text) pairs s).
  { induction pairs as [|[kw w] pairs IH]; intros s Hs HF; [exact Hs|].
    inversion HF as [|? ? Hw HF']; subst. cbn [fold_left snd] in *.
    apply IH; [|exact HF']. unfold kwStep.
    destruct (includes text kw); [|exact Hs]. destruct (includes kw " "); lia. }
  apply G. lia.
Qed.

Lemma areas_scores_nonneg (text : string) (a : string * list (string * Z)) :
  In a areas -> 0 <= categoryScore text (snd a).
Proof.
  intro H. apply categoryScore_nonneg, Forall_forall. intros p Hp.
  assert (C : forallb (fun a => forallb (fun p => 0 <=? snd p) (snd a)) areas = true)
    by (vm_compute; reflexivity).
  rewrite forallb_forall in C. specialize (C a H).
  rewrite forallb_forall in C. specialize (C p Hp). lia.
Qed.

(** [topScore] is the score of some category: it is the highest score. *)
Lemma topScore_attained (text : string) (cat : catalogue) :
  cat <> [] ->
  (forall a, In a cat -> 0 <= categoryScore text (snd a)) ->
  exists a, In a cat /\ categoryScore text (snd a) = topScore text cat.
Proof.
  induction cat as [|a cat IH]; [contradiction|]. intros _ Hpos.
  cbn [topScore fold_right]. fold (topScore text cat).
  destruct (Z.le_gt_cases (topScore text cat) (categoryScore text (snd a))) as [Hle|Hgt].
  - exists a. split; [left; reflexivity|lia].
  - assert (Hne : cat <> []).
    { intros ->. cbn in Hgt. specialize (Hpos a (or_introl eq_refl)). lia. }
    destruct (IH Hne (fun b Hb => Hpos b (or_intror Hb))) as (b & Hb & Eb).
    exists b. split; [right; exact Hb|lia].
Qed.

(** The highest score is below a bound exactly when every score is. *)
Lemma topScore_below_iff (text : string) (bound : Z) :
  topScore text areas < bound <->
  forall a, In a areas -> categoryScore text (snd a) < bound.
Proof.
  split.
  - intros H a Ha. pose proof (topScore_upper text areas a Ha). lia.
  - intro H.
    destruct (topScore_attained text areas ltac:(discriminate) (areas_scores_nonneg text))
      as (a & Ha & Ea).
    specialize (H a Ha). lia.
Qed.

Lemma areas_labels_distinct : NoDup (map fst areas).
Proof.
  assert (E : nodup string_dec (map fst areas) = map fst areas) by (vm_compute; reflexivity).
  rewrite <- E. apply NoDup_nodup.
Qed.

(** Only the default category has keywords of weight below 2. *)
Lemma areas_light_only_default (a : string * list (string * Z)) :
  In a areas ->
  Forall (fun p => 2 <= snd p) (snd a) \/ fst a = defaultCategory.
Proof.
  intro H.
  assert (C : forallb (fun a => forallb (fun p => 2 <=? snd p) (snd a)
                                || String.eqb (fst a) defaultCategory) areas = true)
    by (vm_compute; reflexivity).
  rewrite forallb_forall in C. specialize (C a H).
  apply orb_true_iff in C. destruct C as [C|C].
  - left. apply Forall_forall. intros p Hp.
    rewrite forallb_forall in C. specialize (C p Hp). lia.
  - right. apply String.eqb_eq. exact C.
Qed.

(** What [categorize] returns when some category scores: the label of the
    first category that reaches the highest score. *)
Lemma categorize_first_top (title summary : string) :
  0 < topScore (classifierText title summary) areas ->
  exists k a,
    nth_error areas k = Some a /\
    categorize title summary = fst a /\
    categoryScore (classifierText title summary) (snd a)
      = topScore (classifierText title summary) areas /\
    forall m a', (m < k)%nat -> nth_error areas m = Some a' ->
      categoryScore (classifierText title summary) (snd a')
        < topScore (classifierText title summary) areas.
Proof.
  intro Hpos. set (text := classifierText title summary) in *.
  destruct (scan_inv text areas defaultCategory 0 ltac:(lia)) as [E [[Hl _]|[_ Hx]]]; [lia|].
  destruct Hx as (k & a & Hk & Hb & Ha & Hbefore).
  exists k, a. repeat split; try assumption.
  unfold categorize. fold text.
  destruct (scan text areas (defaultCategory, 0)) as [best bestScore] eqn:Es.
  cbn [fst snd] in *.
  destruct (Z.ltb_spec bestScore confidenceFloor) as [Hlow|Hhigh]; [|exact Hb].
  unfold confidenceFloor in Hlow.
  destruct (areas_light_only_default a (nth_error_In _ _ Hk)) as [HF|Hd]; [|symmetry; exact Hd].
  destruct (categoryScore_gap text (snd a) HF); lia.
Qed.

(** C1.  For every title and summary, when the highest score over the
    categories of the catalogue is below the confidence floor 2,
    [categorize] returns the default category "Gender equality and women's
    empowerment", whatever category the loop has picked. *)
Theorem categorize_below_floor (title summary : string) :
  topScore (classifierText title summary) areas < confidenceFloor ->
  categorize title summary = defaultCategory.
Proof.
  intro Hlow. unfold categorize.
  pose proof (scan_inv (classifierText title summary) areas defaultCategory 0 ltac:(lia))
    as [E _].
  destruct (scan (classifierText title summary) areas (defaultCategory, 0))
    as [best bestScore].
  cbn [snd] in E.
  pose proof (topScore_nonneg (classifierText title summary) areas).
  destruct (Z.ltb_spec bestScore confidenceFloor); [reflexivity|lia].
Qed.

Lemma categorize_below_floor_witness :
  categorize "Women in parliament" "" = defaultCategory.
Proof.
  apply (categorize_below_floor "Women in parliament" ""). vm_compute. reflexivity.
Defined.

(** C2, as the code has it.  For every title and summary whose highest
    category score is positive: of two categories tied at the highest score
    [categorize] never returns the later one; it returns the earliest
    category of the catalogue that reaches the highest score; and a call
    with the same title and summary returns the same category. *)
Theorem categorize_tie_earliest (title summary : string) (i j : nat)
    (ai aj : string * list (string * Z)) :
  (i < j)%nat ->
  nth_error areas i = Some ai ->
  nth_error areas j = Some aj ->
  categoryScore (classifierText title summary) (snd ai)
    = categoryScore (classifierText title summary) (snd aj) ->
  categoryScore (classifierText title summary) (snd ai)
    = topScore (classifierText title summary) areas ->
  0 < topScore (classifierText title summary) areas ->
  categorize title summary <> fst aj /\
  (exists k ak, (k <= i)%nat /\ nth_error areas k = Some ak /\
                categoryScore (classifierText title summary) (snd ak)
                  = topScore (classifierText title summary) areas /\
                categorize title summary = fst ak) /\
  (forall title' summary', title' = title -> summary' = summary ->
     categorize title' summary' = categorize title summary).
Proof.
  intros Hij Hi Hj Htie Htop Hpos.
  assert (Hsame : forall title' summary', title' = title -> summary' = summary ->
                    categorize title' summary' = categorize title summary)
    by (intros ? ? -> ->; reflexivity).
  destruct (categorize_first_top title summary Hpos) as (k & a & Hk & Hc & Ha & Hbefore).
  assert (Hki : (k <= i)%nat).
  { destruct (Nat.le_gt_cases k i) as [L|G]; [exact L|].
    specialize (Hbefore i ai G Hi). lia. }
  split.
  - rewrite Hc. intro Heq.
    pose proof areas_labels_distinct as ND.
    rewrite NoDup_nth_error in ND.
    assert (Lk : (k < List.length (map fst areas))%nat).
    { rewrite length_map. apply nth_error_Some. rewrite Hk. discriminate. }
    specialize (ND k j Lk).
    rewrite (map_nth_error fst k areas Hk), (map_nth_error fst j areas Hj) in ND.
    specialize (ND (f_equal Some Heq)). lia.
  - split; [|exact Hsame]. exists k, a. repeat split; assumption.
Qed.

Lemma categorize_tie_earliest_witness :
  categorize "crop water" "" <> "Gender and land and water".
Proof.
  refine (proj1 (categorize_tie_earliest "crop water" "" 3 5
                   (nth 3 areas ("", [])) (nth 5 areas ("", [])) _ _ _ _ _ _));
    try (vm_compute; reflexivity).
  lia.
Defined.

Example categorize_tie_crop_water :
  categorize "crop water" "" = "Gender and plant production and protection".
Proof. vm_compute. reflexivity. Qed.

(** C2, as stated, fails on the empty text: every category scores 0, so
    the first and the last category tie at the highest score, and the
    category returned is the last one of the catalogue, the default. *)
Lemma categorize_tie_counterexample :
  exists a0 a19,
    nth_error areas 0 = Some a0 /\ nth_error areas 19 = Some a19 /\
    categoryScore (classifierText "" "") (snd a0)
      = categoryScore (classifierText "" "") (snd a19) /\
    categoryScore (classifierText "" "") (snd a0) = topScore (classifierText "" "") areas /\
    categorize "" "" = fst a19 /\
    categorize "" "" <> fst a0.
Proof.
  exists (nth 0 areas ("", [])), (nth 19 areas ("", [])).
  repeat split; try (vm_compute; reflexivity).
  vm_compute. discriminate.
Qed.

(** ** Strings *)

Lemma prefix_iff (p s : string) : prefix p s = true <-> exists post, s = p ++ post.
Proof.
  revert s. induction p as [|c p IH]; intro s.
  - destruct s; cbn; split; eauto.
  - destruct s as [|d s]; cbn [prefix].
    + split; [discriminate|]. intros [post H]. discriminate.
    + destruct (ascii_dec c d) as [->|Hn].
      * rewrite IH. split; intros [post H]; exists post.
        -- cbn. f_equal. exact H.
        -- cbn in H. injection H as H. exact H.
      * split; [discriminate|]. intros [post H]. cbn in H. congruence.
Qed.

(** [includes] decides occurrence as a substring. *)
Lemma includes_iff (s kw : string) : includes s kw = true <-> Substring kw s.
Proof.
  induction s as [|c s IH]; cbn [includes].
  - destruct (prefix kw "") eqn:E.
    + split; [intros _|reflexivity].
      apply prefix_iff in E. destruct E as [post E]. exists "", post. exact E.
    + split; [discriminate|]. intros (pre & post & H).
      destruct pre; cbn in H; [|discriminate].
      assert (prefix kw "" = true) by (apply prefix_iff; eauto). congruence.
  - destruct (prefix kw (String c s)) eqn:E.
    + split; [intros _|reflexivity].
      apply prefix_iff in E. destruct E as [post E]. exists "", post. exact E.
    + rewrite IH. split; intros (pre & post & H).
      * exists (String c pre), post. cbn. f_equal. exact H.
      * destruct pre as [|d pre]; cbn in H.
        -- assert (prefix kw (String c s) = true) by (apply prefix_iff; eauto). congruence.
        -- injection H as _ H. exists pre, post. exact H.
Qed.

Lemma append_assoc (a b c : string) : (a ++ b) ++ c = a ++ (b ++ c).
Proof. induction a as [|x a IH]; cbn; [reflexivity|f_equal; exact IH]. Qed.

Lemma toLowerCase_app (a b : string) :
  toLowerCase (a ++ b) = toLowerCase a ++ toLowerCase b.
Proof. induction a as [|x a IH]; cbn; [reflexivity|f_equal; exact IH]. Qed.

Lemma Substring_app_l (s a b : string) : Substring s a -> Substring s (a ++ b).
Proof.
  intros (pre & post & ->). exists pre, (post ++ b).
  rewrite !append_assoc. reflexivity.
Qed.

(** ** Sorting and slicing *)

Section SortFacts.
Context {A : Type}.
Variable compareFn : A -> A -> num.

Lemma insert_perm (x : A) (l : list A) :
  Permutation (JsArray.insert compareFn x l) (x :: l).
Proof.
  induction l as [|y l IH]; cbn [JsArray.insert]; [reflexivity|].
  destruct (JsArray.before compareFn x y); [reflexivity|].
  rewrite IH. apply perm_swap.
Qed.

Lemma sort_from_perm (l acc : list A) :
  Permutation (fold_left (fun acc x => JsArray.insert compareFn x acc) l acc) (acc ++ l)%list.
Proof.
  revert acc. induction l as [|x l IH]; intro acc; cbn [fold_left].
  - rewrite app_nil_r. reflexivity.
  - rewrite IH, insert_perm. apply Permutation_middle.
Qed.

(** Whatever the comparator answers, [sort] only rearranges. *)
Lemma sort_perm (l : list A) : Permutation (JsArray.sort compareFn l) l.
Proof. unfold JsArray.sort. apply (sort_from_perm l []). Qed.

Lemma sort_length (l : list A) : List.length (JsArray.sort compareFn l) = List.length l.
Proof. apply Permutation_length, sort_perm. Qed.

(** A comparator that decides a transitive total relation sorts by it. *)
Variable R : A -> A -> Prop.
Hypothesis R_trans : forall x y z, R x y -> R y z -> R x z.
Hypothesis before_true : forall x y, JsArray.before compareFn x y = true -> R x y.
Hypothesis before_false : forall x y, JsArray.before compareFn x y = false -> R y x.

Lemma insert_sorted (x : A) (l : list A) :
  StronglySorted R l -> StronglySorted R (JsArray.insert compareFn x l).
Proof.
  induction 1 as [|y l Hs IH Hy]; cbn [JsArray.insert].
  - repeat constructor.
  - destruct (JsArray.before compareFn x y) eqn:E.
    + constructor; [constructor; assumption|].
      constructor; [apply before_true, E|].
      eapply Forall_impl; [|exact Hy]. intros z Hz.
      eapply R_trans; [apply before_true, E|exact Hz].
    + constructor; [exact IH|].
      eapply Permutation_Forall; [symmetry; apply insert_perm|].
      constructor; [apply before_false, E|exact Hy].
Qed.

Lemma sort_sorted (l : list A) : StronglySorted R (JsArray.sort compareFn l).
Proof.
  unfold JsArray.sort.
  assert (G : forall acc, StronglySorted R acc ->
              StronglySorted R (fold_left (fun acc x => JsArray.insert compareFn x acc) l acc)).
  { induction l as [|x l IH]; intros acc Hacc; cbn [fold_left]; [exact Hacc|].
    apply IH, insert_sorted, Hacc. }
  apply G. constructor.
Qed.
End SortFacts.

Lemma sorted_le_nodup_lt (l : list nat) :
  StronglySorted le l -> NoDup l -> StronglySorted lt l.
Proof.
  induction 1 as [|x l Hs IH Hx]; intro ND; [constructor|].
  inversion ND as [|? ? Hnin ND']; subst.
  constructor; [apply IH, ND'|].
  rewrite Forall_forall in *. intros y Hy.
  specialize (Hx y Hy). assert (x <> y) by (intros ->; contradiction). lia.
Qed.

Lemma sort_byIndexAsc_sorted (l : list nat) :
  StronglySorted le (JsArray.sort byIndexAsc l).
Proof.
  apply sort_sorted.
  - intros x y z; lia.
  - intros x y. unfold JsArray.before, byIndexAsc. intro H.
    apply Z.ltb_lt in H. lia.
  - intros x y. unfold JsArray.before, byIndexAsc. intro H.
    apply Z.ltb_ge in H. lia.
Qed.

Lemma map_nth_seq {A : Type} (l : list A) (d : A) :
  map (fun i => nth i l d) (seq 0 (List.length l)) = l.
Proof.
  induction l as [|x l IH]; cbn [List.length seq map nth]; [reflexivity|].
  f_equal. rewrite <- seq_shift, map_map. exact IH.
Qed.

Lemma seq_sorted_lt (len start : nat) : StronglySorted lt (seq start len).
Proof.
  revert start. induction len as [|len IH]; intro start; cbn [seq]; constructor.
  - apply IH.
  - apply Forall_forall. intros y Hy. apply in_seq in Hy. lia.
Qed.

(** ** The summarizer *)

Lemma scoreFrom_indices (freq : freqTable) (sentences : list string) (i : nat) :
  map fst (scoreFrom freq i sentences) = seq i (List.length sentences).
Proof.
  revert i. induction sentences as [|s rest IH]; intro i; cbn; [reflexivity|].
  f_equal. apply IH.
Qed.

(** The indices picked among more than [maxSentences] sentences: at most
    [maxSentences] of them, each the index of a sentence, in increasing
    order. *)
Lemma topIndices_spec (body : string) (sentences : list string) (maxSentences : nat) :
  (List.length (topIndices body sentences maxSentences) <= maxSentences)%nat /\
  StronglySorted lt (topIndices body sentences maxSentences) /\
  Forall (fun i => (i < List.length sentences)%nat) (topIndices body sentences maxSentences).
Proof.
  unfold topIndices.
  set (freq := buildFreq (matchWords (toLowerCase body))).
  set (scored := JsArray.sort byScoreDesc (scoreFrom freq 0 sentences)).
  assert (P : Permutation (map fst scored) (seq 0 (List.length sentences))).
  { rewrite <- (scoreFrom_indices freq sentences 0).
    apply Permutation_map, sort_perm. }
  assert (ND : NoDup (map fst (firstn maxSentences scored))).
  { rewrite <- firstn_map.
    apply (NoDup_app_remove_r _ (skipn maxSentences (map fst scored))).
    rewrite firstn_skipn.
    eapply Permutation_NoDup; [symmetry; exact P|apply seq_NoDup]. }
  repeat split.
  - rewrite sort_length, length_map. apply firstn_le_length.
  - apply sorted_le_nodup_lt; [apply sort_byIndexAsc_sorted|].
    eapply Permutation_NoDup; [symmetry; apply sort_perm|exact ND].
  - eapply Permutation_Forall; [symmetry; apply sort_perm|].
    apply Forall_forall. intros i Hi.
    rewrite <- firstn_map in Hi.
    assert (Hin : In i (map fst scored)).
    { rewrite <- (firstn_skipn maxSentences (map fst scored)). apply in_or_app. left. exact Hi. }
    apply (Permutation_in _ P), in_seq in Hin. lia.
Qed.

(** The summary is made of sentences of the normalized body joined by
    single spaces: at most [maxSentences] of them, taken at strictly
    increasing positions. *)
Lemma summarizeExtractive_indices (text : string) (maxSentences : nat) :
  exists idx : list nat,
    summarizeExtractive text maxSentences
      = String.concat " "
          (map (fun i => nth i (sentencesOf (normalizeSpace text)) "") idx) /\
    (List.length idx <= maxSentences)%nat /\
    StronglySorted lt idx /\
    Forall (fun i => (i < List.length (sentencesOf (normalizeSpace text)))%nat) idx.
Proof.
  unfold summarizeExtractive.
  set (body := normalizeSpace text).
  destruct (truthy body) eqn:Hb; cbn [negb].
  - destruct (Nat.leb_spec (List.length (sentencesOf body)) maxSentences) as [Hle|Hgt].
    + exists (seq 0 (List.length (sentencesOf body))).
      rewrite map_nth_seq, length_seq. repeat split.
      * exact Hle.
      * apply seq_sorted_lt.
      * apply Forall_forall. intros i Hi. apply in_seq in Hi. lia.
    + exists (topIndices body (sentencesOf body) maxSentences).
      split; [reflexivity|]. apply topIndices_spec.
  - exists []. repeat split; [cbn; lia|constructor|constructor].
Qed.

(** With at most [n] sentences the summary joins them all. *)
Lemma summarizeExtractive_all (text : string) (n : nat) :
  (List.length (sentencesOf (normalizeSpace text)) <= n)%nat ->
  summarizeExtractive text n = String.concat " " (sentencesOf (normalizeSpace text)).
Proof.
  intro Hle. unfold summarizeExtractive.
  destruct (normalizeSpace text) as [|c body] eqn:Hb; [reflexivity|].
  cbn [truthy negb].
  apply Nat.leb_le in Hle. rewrite Hle. reflexivity.
Qed.

(** ** Normalized texts *)

Lemma append_nil_r (s : string) : s ++ "" = s.
Proof. induction s as [|c s IH]; cbn; congruence. Qed.

Lemma trimEnd_cons_nonspace (c : ascii) (s : string) :
  isSpace c = false -> trimEnd (String c s) = String c (trimEnd s).
Proof. intro H. cbn [trimEnd]. rewrite H. destruct (trimEnd s); reflexivity. Qed.

Lemma trimEnd_cons_space (c : ascii) (s : string) :
  isSpace c = true ->
  trimEnd (String c s) = if truthy (trimEnd s) then String c (trimEnd s) else "".
Proof. intro H. cbn [trimEnd]. rewrite H. destruct (trimEnd s); reflexivity. Qed.

Lemma tokFrom_truthy (s : string) : Forall (fun w => truthy w = true) (snd (tokFrom s)).
Proof.
  induction s as [|c s IH]; cbn [tokFrom]; [constructor|].
  destruct (tokFrom s) as [w ws]. cbn [snd] in IH.
  destruct (isSpace c); cbn [snd]; [|exact IH].
  destruct (truthy w) eqn:E; [constructor; assumption|exact IH].
Qed.

Lemma concat_truthy (ws : list string) :
  Forall (fun w => truthy w = true) ws ->
  truthy (String.concat " " ws) = match ws with [] => false | _ => true end.
Proof.
  intro H. destruct H as [|w ws Hw Hws]; [reflexivity|].
  cbn [String.concat]. destruct w as [|c w]; [discriminate|].
  destruct ws; reflexivity.
Qed.

(** The text after [replace(/\s+/g, ' ')] and [trimEnd], in terms of its
    words. *)
Lemma collapse_trimEnd (s : string) :
  trimEnd (collapse true s)
    = String.concat " " (if truthy (fst (tokFrom s))
                         then fst (tokFrom s) :: snd (tokFrom s) else snd (tokFrom s)) /\
  trimEnd (collapse false s) = joinAfter (fst (tokFrom s)) (snd (tokFrom s)).
Proof.
  induction s as [|c s [IHt IHf]]; [split; reflexivity|].
  pose proof (tokFrom_truthy s) as Ht.
  cbn [tokFrom collapse]. destruct (tokFrom s) as [w ws]. cbn [fst snd] in *.
  destruct (isSpace c) eqn:Ec; cbn [fst snd truthy].
  - split; [exact IHt|].
    rewrite (trimEnd_cons_space " " _ eq_refl), IHt. unfold joinAfter. cbn [append].
    assert (Hall : Forall (fun w => truthy w = true) (if truthy w then w :: ws else ws))
      by (destruct (truthy w) eqn:E; [constructor; assumption|exact Ht]).
    rewrite (concat_truthy _ Hall).
    destruct (if truthy w then w :: ws else ws); reflexivity.
  - rewrite (trimEnd_cons_nonspace c _ Ec), IHf. unfold joinAfter.
    split; [|reflexivity].
    cbn [String.concat append]. destruct ws; [rewrite append_nil_r|]; reflexivity.
Qed.

Lemma trimStart_collapse_true (s : string) :
  trimStart (collapse true s) = collapse true s.
Proof.
  induction s as [|c s IH]; [reflexivity|]. cbn [collapse].
  destruct (isSpace c) eqn:Ec; [exact IH|]. cbn [trimStart]. rewrite Ec. reflexivity.
Qed.

Lemma trimStart_collapse (s : string) :
  trimStart (collapse false s) = collapse true s.
Proof.
  destruct s as [|c s]; [reflexivity|]. cbn [collapse].
  destruct (isSpace c) eqn:Ec.
  - cbn [trimStart]. replace (isSpace " ") with true by reflexivity.
    apply trimStart_collapse_true.
  - cbn [trimStart]. rewrite Ec. reflexivity.
Qed.

Lemma trimEnd_empty_tokens (s : string) :
  trimEnd s = "" -> tokFrom s = ("", []).
Proof.
  induction s as [|c s IH]; [reflexivity|]. intro H.
  destruct (isSpace c) eqn:Ec.
  - rewrite (trimEnd_cons_space c s Ec) in H.
    destruct (trimEnd s) eqn:Et; [|discriminate].
    cbn [tokFrom]. rewrite (IH eq_refl), Ec. reflexivity.
  - rewrite (trimEnd_cons_nonspace c s Ec) in H. discriminate.
Qed.

Lemma trimStart_tokens (s : string) : tokens (trimStart s) = tokens s.
Proof.
  induction s as [|c s IH]; [reflexivity|]. cbn [trimStart].
  destruct (isSpace c) eqn:Ec; [|reflexivity].
  rewrite IH. unfold tokens. cbn [tokFrom]. destruct (tokFrom s) as [w ws].
  rewrite Ec. cbn [truthy]. reflexivity.
Qed.

(** [normalizeSpace] joins the words of the text by single spaces. *)
Lemma normalizeSpace_tokens (text : string) :
  normalizeSpace text = String.concat " " (tokens text).
Proof.
  unfold normalizeSpace.
  destruct (truthy (trim text)) eqn:E.
  - unfold trim at 1. rewrite trimStart_collapse.
    rewrite (proj1 (collapse_trimEnd text)). unfold tokens.
    destruct (tokFrom text) as [w ws]. reflexivity.
  - unfold trim in E. destruct (trimEnd (trimStart text)) eqn:Et; [|discriminate].
    rewrite <- trimStart_tokens. unfold tokens.
    rewrite (trimEnd_empty_tokens _ Et). reflexivity.
Qed.

Lemma tokFrom_words (s : string) :
  noSpace (fst (tokFrom s)) = true /\
  Forall (fun w => isWord w = true) (snd (tokFrom s)).
Proof.
  induction s as [|c s [IHw IHws]]; [split; [reflexivity|constructor]|].
  cbn [tokFrom]. destruct (tokFrom s) as [w ws]. cbn [fst snd] in *.
  destruct (isSpace c) eqn:Ec; cbn [fst snd noSpace].
  - split; [reflexivity|].
    destruct (truthy w) eqn:E; [|exact IHws].
    constructor; [|exact IHws]. unfold isWord. rewrite E, IHw. reflexivity.
  - rewrite Ec, IHw. split; [reflexivity|exact IHws].
Qed.

Lemma tokens_words (s : string) : Forall (fun w => isWord w = true) (tokens s).
Proof.
  unfold tokens. destruct (tokFrom_words s) as [Hw Hws].
  destruct (tokFrom s) as [w ws]. cbn [fst snd] in *.
  destruct (truthy w) eqn:E; [|exact Hws].
  constructor; [|exact Hws]. unfold isWord. rewrite E, Hw. reflexivity.
Qed.

Lemma tokFrom_word_app (w rest : string) :
  noSpace w = true ->
  tokFrom (w ++ rest) = (w ++ fst (tokFrom rest), snd (tokFrom rest)).
Proof.
  induction w as [|c w IH]; cbn [noSpace append]; intro H.
  - destruct (tokFrom rest); reflexivity.
  - apply andb_true_iff in H. destruct H as [Hc Hw]. apply negb_true_iff in Hc.
    cbn [tokFrom]. rewrite (IH Hw), Hc. reflexivity.
Qed.

(** The words of words joined by single spaces are those words. *)
Lemma tokFrom_concat (ws : list string) :
  Forall (fun w => isWord w = true) ws ->
  tokFrom (String.concat " " ws)
    = match ws with [] => ("", []) | w :: ws' => (w, ws') end.
Proof.
  induction 1 as [|w ws Hw Hws IH]; [reflexivity|].
  apply andb_true_iff in Hw. destruct Hw as [Hw1 Hw2].
  cbn [String.concat]. destruct ws as [|w' ws'].
  - rewrite <- (append_nil_r w) at 1. rewrite (tokFrom_word_app w "" Hw2).
    cbn. rewrite append_nil_r. reflexivity.
  - rewrite (tokFrom_word_app w _ Hw2).
    change (" " ++ String.concat " " (w' :: ws'))
      with (String " " (String.concat " " (w' :: ws'))).
    cbn [tokFrom]. rewrite IH.
    inversion Hws as [|? ? Hw' _]; subst.
    apply andb_true_iff in Hw'. destruct Hw' as [Hw'1 _].
    replace (isSpace " ") with true by reflexivity. rewrite Hw'1.
    cbn [fst snd]. rewrite append_nil_r. reflexivity.
Qed.

Lemma tokens_concat (ws : list string) :
  Forall (fun w => isWord w = true) ws -> tokens (String.concat " " ws) = ws.
Proof.
  intro H. unfold tokens. rewrite (tokFrom_concat ws H).
  destruct H as [|w ws Hw Hws]; [reflexivity|].
  apply andb_true_iff in Hw. destruct Hw as [Hw1 _]. rewrite Hw1. reflexivity.
Qed.

(** A text made of words joined by single spaces is its own normal form. *)
Lemma normalizeSpace_concat (ws : list string) :
  Forall (fun w => isWord w = true) ws ->
  normalizeSpace (String.concat " " ws) = String.concat " " ws.
Proof. intro H. rewrite normalizeSpace_tokens, (tokens_concat ws H). reflexivity. Qed.

Lemma trimEnd_word_app (w rest : string) :
  noSpace w = true -> trimEnd (w ++ rest) = w ++ trimEnd rest.
Proof.
  induction w as [|c w IH]; cbn [noSpace append]; intro H; [reflexivity|].
  apply andb_true_iff in H. destruct H as [Hc Hw]. apply negb_true_iff in Hc.
  rewrite (trimEnd_cons_nonspace c _ Hc), (IH Hw). reflexivity.
Qed.

Lemma isWord_truthy (ws : list string) :
  Forall (fun w => isWord w = true) ws -> Forall (fun w => truthy w = true) ws.
Proof.
  apply Forall_impl. intros w H. apply andb_true_iff in H. tauto.
Qed.

Lemma trimEnd_concat (ws : list string) :
  Forall (fun w => isWord w = true) ws ->
  trimEnd (String.concat " " ws) = String.concat " " ws.
Proof.
  induction 1 as [|w ws Hw Hws IH]; [reflexivity|].
  apply andb_true_iff in Hw. destruct Hw as [Hw1 Hw2].
  cbn [String.concat]. destruct ws as [|w' ws'].
  - rewrite <- (append_nil_r w) at 1. rewrite (trimEnd_word_app w "" Hw2).
    cbn. apply append_nil_r.
  - rewrite (trimEnd_word_app w _ Hw2). f_equal.
    change (" " ++ String.concat " " (w' :: ws'))
      with (String " " (String.concat " " (w' :: ws'))).
    rewrite (trimEnd_cons_space " " _ eq_refl), IH.
    rewrite (concat_truthy _ (isWord_truthy _ Hws)). reflexivity.
Qed.

Lemma trim_concat (ws : list string) :
  Forall (fun w => isWord w = true) ws ->
  trim (String.concat " " ws) = String.concat " " ws.
Proof.
  intro H. unfold trim.
  assert (E : trimStart (String.concat " " ws) = String.concat " " ws).
  { destruct H as [|w ws Hw Hws]; [reflexivity|].
    apply andb_true_iff in Hw. destruct Hw as [Hw1 Hw2].
    cbn [String.concat]. destruct w as [|c w]; [discriminate|].
    cbn [noSpace] in Hw2. apply andb_true_iff in Hw2. destruct Hw2 as [Hc _].
    apply negb_true_iff in Hc.
    destruct ws; cbn [append trimStart]; rewrite Hc; reflexivity. }
  rewrite E. apply trimEnd_concat, H.
Qed.

(** ** Sentences as groups of words *)

Lemma splitFrom_word_app (c : ascii) (w rest : string) :
  noSpace (String c w) = true ->
  forall pt b,
    splitFrom pt b (String c w ++ rest)
    = (String c w ++ fst (splitFrom (endsTerminal (String c w)) false rest),
       snd (splitFrom (endsTerminal (String c w)) false rest)).
Proof.
  revert c. induction w as [|d w IH]; intros c H pt b.
  - cbn [noSpace] in H. apply andb_true_iff in H. destruct H as [Hc _].
    apply negb_true_iff in Hc.
    cbn [append splitFrom]. rewrite Hc. cbn [andb].
    unfold endsTerminal. cbn [lastTerminal].
    destruct (splitFrom (isTerminal c) false rest). reflexivity.
  - pose proof H as H'. cbn [noSpace] in H. apply andb_true_iff in H. destruct H as [Hc Hw].
    apply negb_true_iff in Hc.
    change (String c (String d w) ++ rest) with (String c (String d w ++ rest)).
    cbn [splitFrom]. rewrite Hc. cbn [andb].
    rewrite (IH d Hw (isTerminal c) false).
    unfold endsTerminal. cbn [lastTerminal fst snd]. reflexivity.
Qed.

Lemma groupFrom_head (ws : list string) : ws <> [] -> fst (groupFrom ws) <> [].
Proof.
  destruct ws as [|w ws]; [contradiction|]. intros _. cbn [groupFrom].
  destruct (groupFrom ws) as [g gs]. destruct ws; cbn; [discriminate|].
  destruct (endsTerminal w); discriminate.
Qed.

Lemma splitFrom_concat (ws : list string) :
  Forall (fun w => isWord w = true) ws ->
  forall pt b,
    splitFrom pt b (String.concat " " ws)
    = (String.concat " " (fst (groupFrom ws)),
       map (String.concat " ") (snd (groupFrom ws))).
Proof.
  induction 1 as [|w ws Hw Hws IH]; intros pt b; [reflexivity|].
  apply andb_true_iff in Hw. destruct Hw as [Hw1 Hw2].
  destruct w as [|c w]; [discriminate|].
  cbn [String.concat groupFrom]. destruct ws as [|w' ws'].
  - rewrite <- (append_nil_r (String c w)) at 1.
    rewrite (splitFrom_word_app c w "" Hw2). cbn. rewrite append_nil_r. reflexivity.
  - rewrite (splitFrom_word_app c w _ Hw2).
    pose proof (groupFrom_head (w' :: ws') ltac:(discriminate)) as Hne.
    change (" " ++ String.concat " " (w' :: ws'))
      with (String " " (String.concat " " (w' :: ws'))).
    cbn [splitFrom]. replace (isSpace " ") with true by reflexivity.
    cbn [andb orb]. rewrite !IH.
    destruct (groupFrom (w' :: ws')) as [g gs]. cbn [fst snd] in *.
    destruct (endsTerminal (String c w)); cbn [fst snd map String.concat].
    + rewrite append_nil_r. reflexivity.
    + destruct g; [contradiction|reflexivity].
Qed.

Lemma splitSentences_concat (ws : list string) :
  Forall (fun w => isWord w = true) ws ->
  splitSentences (String.concat " " ws) = map (String.concat " ") (groups ws).
Proof.
  intro H. unfold splitSentences, groups.
  rewrite (splitFrom_concat ws H). destruct (groupFrom ws). reflexivity.
Qed.

Lemma wholeSentence_one (w : string) : isWord w = true -> wholeSentence [w].
Proof. intro H. repeat split; [discriminate|constructor; [exact H|constructor]]. Qed.

Lemma terminated_cons (w : string) (g : list string) :
  g <> [] -> terminated g -> terminated (w :: g).
Proof. intros Hg Ht. unfold terminated in *. destruct g; [contradiction|exact Ht]. Qed.

Lemma wholeSentence_cons (w : string) (g : list string) :
  isWord w = true -> endsTerminal w = false -> wholeSentence g -> wholeSentence (w :: g).
Proof.
  intros Hw He (Hne & Hws & Hg). repeat split.
  - discriminate.
  - constructor; assumption.
  - cbn [groupFrom]. rewrite Hg, He. destruct g; [contradiction|reflexivity].
Qed.

(** The sentences of a non-empty list of words follow one another. *)
Lemma groups_chained (ws : list string) :
  Forall (fun w => isWord w = true) ws -> ws <> [] -> Chained (groups ws).
Proof.
  unfold groups.
  induction 1 as [|w ws Hw Hws IH]; intros Hne; [contradiction|].
  cbn [groupFrom]. destruct ws as [|w' ws'].
  - cbn. apply chained_last, wholeSentence_one, Hw.
  - specialize (IH ltac:(discriminate)).
    destruct (groupFrom (w' :: ws')) as [g gs].
    destruct (endsTerminal w) eqn:E.
    + apply chained_next; [apply wholeSentence_one, Hw|exact E|exact IH].
    + inversion IH as [g0 Hg|g0 gs0 Hg Ht Hc]; subst.
      * apply chained_last, wholeSentence_cons; assumption.
      * apply chained_next; [apply wholeSentence_cons; assumption| |exact Hc].
        apply terminated_cons; [apply Hg|exact Ht].
Qed.

Lemma chained_whole (gs : list (list string)) :
  Chained gs -> Forall wholeSentence gs.
Proof. induction 1; constructor; try assumption. constructor. Qed.

Lemma chained_terminated (gs : list (list string)) :
  Chained gs ->
  forall i, (S i < List.length gs)%nat -> terminated (nth i gs []).
Proof.
  induction 1 as [g Hg|g gs Hg Ht Hc IH]; intros i Hi; cbn [List.length] in Hi; [lia|].
  destruct i as [|i]; [exact Ht|]. cbn [nth]. apply IH. lia.
Qed.

Lemma groups_flatten (ws : list string) : List.concat (groups ws) = ws.
Proof.
  unfold groups. induction ws as [|w ws IH]; [reflexivity|].
  cbn [groupFrom]. destruct (groupFrom ws) as [g gs]. destruct ws as [|w' ws'].
  - reflexivity.
  - destruct (endsTerminal w); cbn [List.concat app] in *; rewrite IH; reflexivity.
Qed.

Lemma concat_app (a b : list string) :
  a <> [] -> b <> [] ->
  String.concat " " (a ++ b) = String.concat " " a ++ " " ++ String.concat " " b.
Proof.
  intros Ha Hb. induction a as [|x a IH]; [contradiction|].
  destruct a as [|y a].
  - cbn [app String.concat]. destruct b; [contradiction|reflexivity].
  - change ((x :: y :: a) ++ b)%list with (x :: ((y :: a) ++ b))%list.
    cbn [String.concat]. cbn [app]. cbn [app] in IH.
    rewrite (IH ltac:(discriminate)). rewrite !append_assoc. reflexivity.
Qed.

Lemma flatten_nonempty (gs : list (list string)) :
  Forall (fun g => g <> []) gs -> gs <> [] -> List.concat gs <> [].
Proof.
  intros H Hne. destruct H as [|g gs Hg _]; [contradiction|].
  cbn. destruct g; [contradiction|discriminate].
Qed.

(** Joining sentences and joining their words give the same text. *)
Lemma concat_flatten (gs : list (list string)) :
  Forall (fun g => g <> []) gs ->
  String.concat " " (map (String.concat " ") gs) = String.concat " " (List.concat gs).
Proof.
  induction 1 as [|g gs Hg Hgs IH]; [reflexivity|].
  cbn [map List.concat String.concat]. destruct gs as [|g' gs'].
  - cbn. rewrite app_nil_r. reflexivity.
  - cbn [map] in *. rewrite IH.
    rewrite (concat_app g (List.concat (g' :: gs')) Hg).
    + reflexivity.
    + apply flatten_nonempty; [exact Hgs|discriminate].
Qed.

Lemma wholeSentence_inv (w : string) (g : list string) :
  g <> [] -> wholeSentence (w :: g) -> endsTerminal w = false /\ wholeSentence g.
Proof.
  intros Hg (_ & Hws & Hgr). inversion Hws as [|? ? Hw Hg']; subst.
  cbn [groupFrom] in Hgr. destruct (groupFrom g) as [g0 gs0] eqn:E.
  destruct g as [|w' g']; [contradiction|].
  destruct (endsTerminal w); [discriminate|].
  injection Hgr as -> ->. repeat split; try assumption; discriminate.
Qed.

(** A terminated sentence followed by words stays a sentence of its own. *)
Lemma groupFrom_app (g ws : list string) :
  wholeSentence g -> terminated g -> ws <> [] ->
  groupFrom (g ++ ws) = (g, groups ws).
Proof.
  intros Hg Ht Hws. induction g as [|w g IH]; [destruct Hg as [H _]; contradiction|].
  destruct g as [|w' g'].
  - cbn [app groupFrom]. unfold groups. destruct (groupFrom ws) as [g0 gs0].
    unfold terminated in Ht. cbn [last] in Ht. rewrite Ht.
    destruct ws; [contradiction|reflexivity].
  - destruct (wholeSentence_inv w (w' :: g') ltac:(discriminate) Hg) as [He Hg'].
    assert (Ht' : terminated (w' :: g')) by exact Ht.
    specialize (IH Hg' Ht').
    change ((w :: w' :: g') ++ ws)%list with (w :: ((w' :: g') ++ ws))%list.
    cbn [groupFrom]. rewrite IH, He. reflexivity.
Qed.

Lemma selection_whole (gs : list (list string)) (idx : list nat) :
  Forall wholeSentence gs ->
  Forall (fun i => (i < List.length gs)%nat) idx ->
  Forall wholeSentence (map (fun i => nth i gs []) idx).
Proof.
  intros Hgs Hidx. apply Forall_map. eapply Forall_impl; [|exact Hidx].
  intros i Hi. rewrite Forall_forall in Hgs. apply Hgs, nth_In, Hi.
Qed.

(** Sentences taken in order from sentences that follow one another are
    found again when their words are grouped. *)
Lemma regroup_selection (gs : list (list string)) (idx : list nat) :
  Chained gs ->
  StronglySorted lt idx ->
  Forall (fun i => (i < List.length gs)%nat) idx ->
  idx <> [] ->
  groups (List.concat (map (fun i => nth i gs []) idx)) = map (fun i => nth i gs []) idx.
Proof.
  intros Hc Hs Hv Hne.
  induction idx as [|i idx IH]; [contradiction|].
  inversion Hs as [|? ? Hs' Hlt]; subst. inversion Hv as [|? ? Hi Hv']; subst.
  pose proof (chained_whole gs Hc) as Hw.
  assert (Hgi : wholeSentence (nth i gs [])).
  { rewrite Forall_forall in Hw. apply Hw, nth_In, Hi. }
  destruct idx as [|j idx].
  - cbn [map List.concat]. rewrite app_nil_r. unfold groups.
    destruct Hgi as (_ & _ & E). rewrite E. reflexivity.
  - specialize (IH Hs' Hv' ltac:(discriminate)).
    change (map (fun i => nth i gs []) (i :: j :: idx))
      with (nth i gs [] :: map (fun i => nth i gs []) (j :: idx)).
    cbn [List.concat]. unfold groups at 1.
    rewrite groupFrom_app.
    + rewrite IH. reflexivity.
    + exact Hgi.
    + apply (chained_terminated gs Hc).
      inversion Hlt as [|? ? Hij _]; subst. inversion Hv' as [|? ? Hj _]; subst. lia.
    + apply flatten_nonempty; [|discriminate].
      eapply Forall_impl; [|apply (selection_whole gs (j :: idx) Hw Hv')].
      intros g Hg. apply Hg.
Qed.

Lemma flatten_words (gs : list (list string)) :
  Forall wholeSentence gs -> Forall (fun w => isWord w = true) (List.concat gs).
Proof.
  induction 1 as [|g gs Hg Hgs IH]; [constructor|].
  cbn [List.concat]. apply Forall_app. split; [apply Hg|exact IH].
Qed.

(** The sentences of words joined by single spaces are their groups. *)
Lemma sentencesOf_concat (ws : list string) :
  Forall (fun w => isWord w = true) ws -> ws <> [] ->
  sentencesOf (String.concat " " ws) = map (String.concat " ") (groups ws).
Proof.
  intros Hws Hne. unfold sentencesOf. rewrite (splitSentences_concat ws Hws).
  pose proof (chained_whole _ (groups_chained ws Hws Hne)) as Hw.
  induction Hw as [|g gs Hg Hgs IH]; [reflexivity|].
  cbn [map filter]. destruct Hg as (Hg1 & Hg2 & _).
  rewrite (trim_concat g Hg2), (concat_truthy g (isWord_truthy g Hg2)), IH.
  destruct g; [contradiction|reflexivity].
Qed.

Lemma sentencesOf_empty : sentencesOf "" = [].
Proof. reflexivity. Qed.

(** Taking sentences of a text in order, joining them by single spaces and
    reading the result as a text gives back the sentences taken. *)
Lemma rejoin_selection (ws : list string) (idx : list nat) :
  Forall (fun w => isWord w = true) ws ->
  StronglySorted lt idx ->
  Forall (fun i => (i < List.length (sentencesOf (String.concat " " ws)))%nat) idx ->
  sentencesOf
    (normalizeSpace
       (String.concat " "
          (map (fun i => nth i (sentencesOf (String.concat " " ws)) "") idx)))
  = map (fun i => nth i (sentencesOf (String.concat " " ws)) "") idx.
Proof.
  intros Hws Hs Hv.
  destruct idx as [|i0 idx0]; [reflexivity|].
  destruct ws as [|w0 ws0].
  { inversion Hv as [|? ? Hi _]; subst. cbn in Hi. lia. }
  set (ws := w0 :: ws0) in *. set (idx := i0 :: idx0) in *.
  assert (Hne : ws <> []) by discriminate.
  rewrite (sentencesOf_concat ws Hws Hne) in *. rewrite length_map in Hv.
  pose proof (groups_chained ws Hws Hne) as Hc.
  pose proof (chained_whole _ Hc) as Hw.
  assert (E : map (fun i => nth i (map (String.concat " ") (groups ws)) "") idx
              = map (String.concat " ") (map (fun i => nth i (groups ws) []) idx)).
  { rewrite map_map. apply map_ext. intro i.
    apply (map_nth (String.concat " ") (groups ws) [] i). }
  rewrite E.
  pose proof (selection_whole (groups ws) idx Hw Hv) as Hsel.
  rewrite concat_flatten
    by (eapply Forall_impl; [|exact Hsel]; intros g Hg; apply Hg).
  rewrite (normalizeSpace_concat _ (flatten_words _ Hsel)).
  rewrite sentencesOf_concat.
  - rewrite (regroup_selection (groups ws) idx Hc Hs Hv); [reflexivity|discriminate].
  - apply flatten_words, Hsel.
  - apply flatten_nonempty; [|discriminate].
    eapply Forall_impl; [|exact Hsel]. intros g Hg. apply Hg.
Qed.

(** Joined by single spaces, the sentences of a normalized text give the
    text back. *)
Lemma sentences_rejoin (text : string) :
  String.concat " " (sentencesOf (normalizeSpace text)) = normalizeSpace text.
Proof.
  rewrite normalizeSpace_tokens.
  pose proof (tokens_words text) as Hws.
  destruct (tokens text) as [|w ws] eqn:E; [reflexivity|].
  rewrite <- E in *.
  assert (Hne : tokens text <> []) by (rewrite E; discriminate).
  rewrite (sentencesOf_concat _ Hws Hne).
  pose proof (chained_whole _ (groups_chained _ Hws Hne)) as Hw.
  rewrite concat_flatten
    by (eapply Forall_impl; [|exact Hw]; intros g Hg; apply Hg).
  rewrite groups_flatten. reflexivity.
Qed.

Lemma normalizeSpace_idempotent (text : string) :
  normalizeSpace (normalizeSpace text) = normalizeSpace text.
Proof.
  rewrite (normalizeSpace_tokens text). apply normalizeSpace_concat, tokens_words.
Qed.

(** C3.  For every text and every [maxSentences], the summary is made of
    sentences of the text (the sentences of the normalized body) joined by
    single spaces: at most [maxSentences] of them, taken at strictly
    increasing positions, that is, in the order of the source; and read
    as a text again, the summary has exactly these sentences. *)
Theorem summarizeExtractive_bounded_in_order (text : string) (maxSentences : nat) :
  exists idx : list nat,
    summarizeExtractive text maxSentences
      = String.concat " "
          (map (fun i => nth i (sentencesOf (normalizeSpace text)) "") idx) /\
    (List.length idx <= maxSentences)%nat /\
    StronglySorted lt idx /\
    Forall (fun i => (i < List.length (sentencesOf (normalizeSpace text)))%nat) idx /\
    sentencesOf (normalizeSpace (summarizeExtractive text maxSentences))
      = map (fun i => nth i (sentencesOf (normalizeSpace text)) "") idx /\
    (List.length (sentencesOf (normalizeSpace (summarizeExtractive text maxSentences)))
       <= maxSentences)%nat.
Proof.
  destruct (summarizeExtractive_indices text maxSentences) as (idx & E & Hlen & Hs & Hv).
  exists idx.
  assert (R : sentencesOf (normalizeSpace (summarizeExtractive text maxSentences))
              = map (fun i => nth i (sentencesOf (normalizeSpace text)) "") idx).
  { rewrite E. rewrite (normalizeSpace_tokens text) in Hv |- *.
    apply rejoin_selection; [apply tokens_words|exact Hs|exact Hv]. }
  repeat split; try assumption.
  rewrite R, length_map. exact Hlen.
Qed.

(** C4.  For every text with at most [n] sentences, the summary is exactly
    the sentences of the text, each as it is and in their order, joined by
    single spaces; it is the normalized text itself. *)
Theorem summarizeExtractive_short_text (text : string) (n : nat) :
  (List.length (sentencesOf (normalizeSpace text)) <= n)%nat ->
  summarizeExtractive text n = String.concat " " (sentencesOf (normalizeSpace text)) /\
  summarizeExtractive text n = normalizeSpace text /\
  sentencesOf (normalizeSpace (summarizeExtractive text n))
    = sentencesOf (normalizeSpace text).
Proof.
  intro Hle. rewrite (summarizeExtractive_all text n Hle), sentences_rejoin.
  repeat split. rewrite normalizeSpace_idempotent. reflexivity.
Qed.

Lemma summarizeExtractive_short_text_witness :
  summarizeExtractive "First  thing.   Second thing! Third?" 5
    = "First thing. Second thing! Third?".
Proof.
  rewrite (proj1 (summarizeExtractive_short_text "First  thing.   Second thing! Third?" 5
                    ltac:(vm_compute; lia))).
  vm_compute. reflexivity.
Defined.

(** ** The filters of the two routes *)

(** Both predicates are the conjunction of the four filter tests. *)
Lemma stats_keep_and (f : Filters) (r : Row) :
  Stats.keep f r =
    negb (rejects (fSection f) (section r))
    && negb (rejects (fCategory f) (category r))
    && (negb (truthy (fQ f))
        || includes (toLowerCase (orEmpty (title r) ++ " " ++ orEmpty (summary r))) (fQ f))
    && Stats.withinYmRange f (Stats.toYmLabel r).
Proof.
  unfold Stats.keep.
  destruct (rejects (fSection f) (section r)); [reflexivity|].
  destruct (rejects (fCategory f) (category r)); [reflexivity|].
  destruct (truthy (fQ f)); cbn [negb andb orb].
  - destruct (includes _ (fQ f)); cbn [negb andb]; [|reflexivity].
    destruct (Stats.withinYmRange f (Stats.toYmLabel r)); reflexivity.
  - destruct (Stats.withinYmRange f (Stats.toYmLabel r)); reflexivity.
Qed.

Lemma items_keep_and (f : Filters) (r : Row) :
  Items.keep f r =
    negb (rejects (fSection f) (section r))
    && negb (rejects (fCategory f) (category r))
    && (negb (truthy (fQ f)) || includes (toLowerCase (orEmpty (title r))) (fQ f))
    && Items.withinYmRange f (orEmpty (date_iso r)).
Proof.
  unfold Items.keep.
  destruct (rejects (fSection f) (section r)); [reflexivity|].
  destruct (rejects (fCategory f) (category r)); [reflexivity|].
  destruct (truthy (fQ f)); cbn [negb andb orb].
  - destruct (includes _ (fQ f)); cbn [negb andb]; [|reflexivity].
    destruct (Items.withinYmRange f (orEmpty (date_iso r))); reflexivity.
  - destruct (Items.withinYmRange f (orEmpty (date_iso r))); reflexivity.
Qed.

Lemma rejects_false_iff (filter : string) (field : option string) :
  rejects filter field = false <->
  filter = "" \/ toLowerCase (trim (orEmpty field)) = filter.
Proof.
  unfold rejects. destruct filter as [|c filter]; cbn [truthy andb].
  - split; [intros _; left; reflexivity|reflexivity].
  - rewrite negb_false_iff, String.eqb_eq. split; [intro H; right; exact H|].
    intros [H|H]; [discriminate|exact H].
Qed.

Lemma truthy_false_iff (s : string) : truthy s = false <-> s = "".
Proof. destruct s; cbn [truthy]; split; congruence. Qed.

Lemma inRange_true_iff (f : Filters) (lbl : string) :
  inRange f lbl = true <->
  (fStart f = "" /\ fEnd f = "") \/
  (lbl <> "Unknown" /\
   (fStart f = "" \/ String.ltb (removeFirstDash lbl) (removeFirstDash (fStart f)) = false) /\
   (fEnd f = "" \/ String.ltb (removeFirstDash (fEnd f)) (removeFirstDash lbl) = false)).
Proof.
  unfold inRange.
  destruct (fStart f) as [|a sa] eqn:Es; destruct (fEnd f) as [|b sb] eqn:Ee;
    cbn [truthy negb andb];
    try (split; [intros _; left; split; reflexivity|reflexivity]);
    (destruct (String.eqb_spec lbl "Unknown") as [Eu|Nu];
     [split; [discriminate|intros [[H1 H2]|[H _]]; [discriminate|contradiction]]|]).
  - destruct (String.ltb (removeFirstDash (String b sb)) (removeFirstDash lbl)).
    + split; [discriminate|].
      intros [[_ H]|(_ & _ & [H|H])]; discriminate.
    + split; [intros _|reflexivity]. right.
      split; [exact Nu|]. split; [left; reflexivity|right; reflexivity].
  - destruct (String.ltb (removeFirstDash lbl) (removeFirstDash (String a sa))).
    + split; [discriminate|].
      intros [[H _]|(_ & [H|H] & _)]; discriminate.
    + split; [intros _|reflexivity]. right.
      split; [exact Nu|]. split; [right; reflexivity|left; reflexivity].
  - destruct (String.ltb (removeFirstDash lbl) (removeFirstDash (String a sa))).
    + split; [discriminate|].
      intros [[H _]|(_ & [H|H] & _)]; discriminate.
    + destruct (String.ltb (removeFirstDash (String b sb)) (removeFirstDash lbl)).
      * split; [discriminate|].
        intros [[H _]|(_ & _ & [H|H])]; discriminate.
      * split; [intros _|reflexivity]. right.
        split; [exact Nu|]. split; right; reflexivity.
Qed.

Lemma query_test_iff (fq text : string) :
  negb (truthy fq) || includes text fq = true <-> fq = "" \/ Substring fq text.
Proof.
  rewrite orb_true_iff, negb_true_iff, truthy_false_iff, includes_iff. reflexivity.
Qed.

(** C5.  What each route keeps, filter by filter.  A record is kept
    exactly when the four tests pass together: the section filter is empty
    or equals the trimmed, lowered section; the category filter is empty or
    equals the trimmed, lowered category; the query filter, which is [q]
    trimmed and lowered, is empty or occurs in the lowered text the route
    searches (title, a space and summary in the statistics route, the title
    alone in the listing route); and the range filter is unset, or the label
    is not "Unknown" and lies, by its key, between the bounds that are set.
    So for a [q] that is not blank, a record that either route keeps has
    the trimmed, lowered [q] as a substring of its lowered title, space and
    summary. *)
Theorem query_filter_only_if_match (q : Query) (rows : list Row) (r : Row) :
  (Stats.keep (filtersOf q) r = true <->
     (fSection (filtersOf q) = "" \/
      toLowerCase (trim (orEmpty (section r))) = fSection (filtersOf q)) /\
     (fCategory (filtersOf q) = "" \/
      toLowerCase (trim (orEmpty (category r))) = fCategory (filtersOf q)) /\
     (toLowerCase (trim (orEmpty (p_q q))) = "" \/
      Substring (toLowerCase (trim (orEmpty (p_q q))))
                (toLowerCase (orEmpty (title r) ++ " " ++ orEmpty (summary r)))) /\
     ((fStart (filtersOf q) = "" /\ fEnd (filtersOf q) = "") \/
      (Stats.toYmLabel r <> "Unknown" /\
       (fStart (filtersOf q) = "" \/
        String.ltb (removeFirstDash (Stats.toYmLabel r))
                   (removeFirstDash (fStart (filtersOf q))) = false) /\
       (fEnd (filtersOf q) = "" \/
        String.ltb (removeFirstDash (fEnd (filtersOf q)))
                   (removeFirstDash (Stats.toYmLabel r)) = false)))) /\
  (Items.keep (filtersOf q) r = true <->
     (fSection (filtersOf q) = "" \/
      toLowerCase (trim (orEmpty (section r))) = fSection (filtersOf q)) /\
     (fCategory (filtersOf q) = "" \/
      toLowerCase (trim (orEmpty (category r))) = fCategory (filtersOf q)) /\
     (toLowerCase (trim (orEmpty (p_q q))) = "" \/
      Substring (toLowerCase (trim (orEmpty (p_q q)))) (toLowerCase (orEmpty (title r)))) /\
     ((fStart (filtersOf q) = "" /\ fEnd (filtersOf q) = "") \/
      (orElse (substring 0 7 (orEmpty (date_iso r))) "Unknown" <> "Unknown" /\
       (fStart (filtersOf q) = "" \/
        String.ltb (removeFirstDash (orElse (substring 0 7 (orEmpty (date_iso r))) "Unknown"))
                   (removeFirstDash (fStart (filtersOf q))) = false) /\
       (fEnd (filtersOf q) = "" \/
        String.ltb (removeFirstDash (fEnd (filtersOf q)))
                   (removeFirstDash (orElse (substring 0 7 (orEmpty (date_iso r))) "Unknown"))
        = false)))) /\
  (toLowerCase (trim (orEmpty (p_q q))) <> "" ->
   In r (filter (Stats.keep (filtersOf q)) rows) \/
   In r (filter (Items.keep (filtersOf q)) rows) ->
   Substring (toLowerCase (trim (orEmpty (p_q q))))
             (toLowerCase (orEmpty (title r) ++ " " ++ orEmpty (summary r)))).
Proof.
  assert (S : Stats.keep (filtersOf q) r = true <->
     (fSection (filtersOf q) = "" \/
      toLowerCase (trim (orEmpty (section r))) = fSection (filtersOf q)) /\
     (fCategory (filtersOf q) = "" \/
      toLowerCase (trim (orEmpty (category r))) = fCategory (filtersOf q)) /\
     (fQ (filtersOf q) = "" \/
      Substring (fQ (filtersOf q))
                (toLowerCase (orEmpty (title r) ++ " " ++ orEmpty (summary r)))) /\
     ((fStart (filtersOf q) = "" /\ fEnd (filtersOf q) = "") \/
      (Stats.toYmLabel r <> "Unknown" /\
       (fStart (filtersOf q) = "" \/
        String.ltb (removeFirstDash (Stats.toYmLabel r))
                   (removeFirstDash (fStart (filtersOf q))) = false) /\
       (fEnd (filtersOf q) = "" \/
        String.ltb (removeFirstDash (fEnd (filtersOf q)))
                   (removeFirstDash (Stats.toYmLabel r)) = false)))).
  { rewrite stats_keep_and. unfold Stats.withinYmRange.
    rewrite !andb_true_iff, !negb_true_iff, !rejects_false_iff, query_test_iff,
      inRange_true_iff.
    split; [intros [[[H1 H2] H3] H4]; exact (conj H1 (conj H2 (conj H3 H4)))
           |intros (H1 & H2 & H3 & H4); exact (conj (conj (conj H1 H2) H3) H4)]. }
  assert (I : Items.keep (filtersOf q) r = true <->
     (fSection (filtersOf q) = "" \/
      toLowerCase (trim (orEmpty (section r))) = fSection (filtersOf q)) /\
     (fCategory (filtersOf q) = "" \/
      toLowerCase (trim (orEmpty (category r))) = fCategory (filtersOf q)) /\
     (fQ (filtersOf q) = "" \/
      Substring (fQ (filtersOf q)) (toLowerCase (orEmpty (title r)))) /\
     ((fStart (filtersOf q) = "" /\ fEnd (filtersOf q) = "") \/
      (orElse (substring 0 7 (orEmpty (date_iso r))) "Unknown" <> "Unknown" /\
       (fStart (filtersOf q) = "" \/
        String.ltb (removeFirstDash (orElse (substring 0 7 (orEmpty (date_iso r))) "Unknown"))
                   (removeFirstDash (fStart (filtersOf q))) = false) /\
       (fEnd (filtersOf q) = "" \/
        String.ltb (removeFirstDash (fEnd (filtersOf q)))
                   (removeFirstDash (orElse (substring 0 7 (orEmpty (date_iso r))) "Unknown"))
        = false)))).
  { rewrite items_keep_and. unfold Items.withinYmRange. cbv zeta.
    rewrite !andb_true_iff, !negb_true_iff, !rejects_false_iff, query_test_iff,
      inRange_true_iff.
    split; [intros [[[H1 H2] H3] H4]; exact (conj H1 (conj H2 (conj H3 H4)))
           |intros (H1 & H2 & H3 & H4); exact (conj (conj (conj H1 H2) H3) H4)]. }
  change (toLowerCase (trim (orEmpty (p_q q)))) with (fQ (filtersOf q)).
  split; [exact S|]. split; [exact I|].
  intros Hq [Hin|Hin]; apply filter_In in Hin; destruct Hin as [_ Hk].
  - apply S in Hk. destruct Hk as (_ & _ & [Hb|Hs] & _); [contradiction|exact Hs].
  - apply I in Hk. destruct Hk as (_ & _ & [Hb|Hs] & _); [contradiction|].
    rewrite toLowerCase_app. apply Substring_app_l. exact Hs.
Qed.

Lemma query_filter_only_if_match_witness :
  Substring "fish" (toLowerCase ("Women in fisheries value chains" ++ " " ++ "")).
Proof.
  refine (proj2 (proj2 (query_filter_only_if_match queryFish [rowFisheries] rowFisheries)) _ _).
  - vm_compute. discriminate.
  - left. vm_compute. left. reflexivity.
Defined.

(** C5, as stated, fails for a query with white space around it: for
    [q = " Fish "], which is not empty, both routes keep a record in whose
    title and summary " fish " does not occur, joined by a space or not;
    the routes search for the trimmed query. *)
Lemma query_filter_counterexample :
  orEmpty (p_q queryFish) = " Fish " /\
  In rowFisheries (filter (Stats.keep (filtersOf queryFish)) [rowFisheries]) /\
  In rowFisheries (filter (Items.keep (filtersOf queryFish)) [rowFisheries]) /\
  ~ Substring (toLowerCase (orEmpty (p_q queryFish)))
              (toLowerCase (orEmpty (title rowFisheries) ++ " "
                            ++ orEmpty (summary rowFisheries))) /\
  ~ Substring (toLowerCase (orEmpty (p_q queryFish)))
              (toLowerCase (orEmpty (title rowFisheries) ++ orEmpty (summary rowFisheries))).
Proof.
  split; [reflexivity|].
  split; [vm_compute; left; reflexivity|].
  split; [vm_compute; left; reflexivity|].
  split; intro H; apply includes_iff in H; vm_compute in H; discriminate.
Qed.

(** A query of white space alone is not empty either, and filters nothing:
    a record without title and summary is kept. *)
Example blank_query_keeps_all :
  Stats.keep (filtersOf {| p_section := None; p_category := None; p_q := Some "  ";
                           p_startYm := None; p_endYm := None |}) blankRow = true /\
  Items.keep (filtersOf {| p_section := None; p_category := None; p_q := Some "  ";
                           p_startYm := None; p_endYm := None |}) blankRow = true.
Proof. split; reflexivity. Qed.

(** ** Year-month labels *)

Example toYmLabel_date_iso :
  Stats.toYmLabel {| section := None; category := None; title := None; date := None;
                     date_iso := Some "2024-03-15"; year := None; month := None;
                     url := None; summary := None |} = "2024-03".
Proof. reflexivity. Qed.

Example toYmLabel_year_month :
  Stats.toYmLabel {| section := None; category := None; title := None; date := None;
                     date_iso := None; year := Some (YmNumber 2023);
                     month := Some (YmNumber 7); url := None; summary := None |} = "2023-07".
Proof. reflexivity. Qed.

Example toYmLabel_unknown : Stats.toYmLabel blankRow = "Unknown".
Proof. reflexivity. Qed.

Lemma splitDash_dash (y t : string) :
  hasDash y = false -> Stats.splitDash (y ++ String "-" t) = (y, Some t).
Proof.
  induction y as [|c y IH]; cbn [hasDash append Stats.splitDash]; intro H.
  - reflexivity.
  - apply orb_false_iff in H. destruct H as [Hc Hy].
    rewrite Hc, (IH Hy). reflexivity.
Qed.

Lemma splitDash_plain (y : string) :
  hasDash y = false -> Stats.splitDash y = (y, None).
Proof.
  induction y as [|c y IH]; cbn [hasDash Stats.splitDash]; intro H.
  - reflexivity.
  - apply orb_false_iff in H. destruct H as [Hc Hy].
    rewrite Hc, (IH Hy). reflexivity.
Qed.

(** In the statistics route a [date_iso] that starts with a year part, a
    dash and a month part decides the label, whatever [year] and [month]
    hold. *)
Lemma toYmLabel_prefers_date_iso (r : Row) (y m rest : string) :
  trim (orEmpty (date_iso r)) = y ++ String "-" (m ++ rest) ->
  hasDash y = false -> hasDash m = false -> y <> "" -> m <> "" ->
  rest = "" \/ (exists t, rest = String "-" t) ->
  Stats.toYmLabel r = y ++ "-" ++ m.
Proof.
  intros Hd Hy Hm Hy0 Hm0 Hrest. unfold Stats.toYmLabel.
  rewrite Hd, (splitDash_dash y _ Hy).
  assert (Em : fst (Stats.splitDash (m ++ rest)) = m).
  { destruct Hrest as [->|[t ->]].
    - replace (m ++ "") with m by (clear; induction m; cbn; congruence).
      rewrite (splitDash_plain m Hm). reflexivity.
    - rewrite (splitDash_dash m t Hm). reflexivity. }
  rewrite Em.
  destruct y as [|cy y]; [contradiction|]. destruct m as [|cm m]; [contradiction|].
  reflexivity.
Qed.

(** Without a usable [date_iso] the label comes from [year] and [month]
    when both are written in digits, and is "Unknown" otherwise. *)
Lemma toYmLabel_without_date_iso (r : Row) :
  trim (orEmpty (date_iso r)) = "" ->
  Stats.toYmLabel r =
    if JsNum.isDigits (trim (Stats.fieldString (year r)))
       && JsNum.isDigits (trim (Stats.fieldString (month r)))
    then Stats.padStart 4 (Stats.numString (JsNum.parseInt (trim (Stats.fieldString (year r)))))
         ++ "-"
         ++ Stats.padStart 2 (Stats.numString (JsNum.parseInt (trim (Stats.fieldString (month r)))))
    else "Unknown".
Proof. intro Hd. unfold Stats.toYmLabel. rewrite Hd. reflexivity. Qed.

(** The listing route derives its label from [date_iso] alone. *)
Lemma items_withinYmRange_label (f : Filters) (r : Row) :
  Items.withinYmRange f (orEmpty (date_iso r))
  = inRange f (orElse (substring 0 7 (orEmpty (date_iso r))) "Unknown").
Proof. reflexivity. Qed.

Lemma items_undated_out_of_range (f : Filters) (r : Row) :
  date_iso r = None ->
  truthy (fStart f) || truthy (fEnd f) = true ->
  Items.withinYmRange f (orEmpty (date_iso r)) = false.
Proof.
  intros Hd Hf. rewrite Hd. unfold Items.withinYmRange, inRange. cbn.
  destruct (truthy (fStart f)), (truthy (fEnd f)); cbn in *; try reflexivity; discriminate.
Qed.

(** C6.  The two routes do not derive the label by the same function: for
    a record without [date_iso] but with year 2023 and month 7, and the range
    2023-01 to 2023-12, the statistics route derives "2023-07" and counts
    the record, while the listing route, which looks at [date_iso] only,
    takes the label to be "Unknown" and drops the record. *)
Theorem listing_label_ignores_year_month (localeCompare : string -> string -> num)
    (marker : string) :
  Stats.toYmLabel rowPublication = "2023-07" /\
  Stats.keep (filtersOf year2023) rowPublication = true /\
  Items.keep (filtersOf year2023) rowPublication = false /\
  Stats.total (Stats.aggregate [] [rowPublication] year2023) = 1 /\
  Items.total (Items.listing localeCompare marker [rowPublication] year2023
                 (Items.mkPage None None)) = 0.
Proof. repeat split; reflexivity. Qed.

(** ** The record merger *)

Lemma items_tryRead_sourceItems (w : World) (p : string) (rows : list Row) :
  concatIf rows (Items.tryRead w p) = (rows ++ sourceItems w p)%list.
Proof.
  unfold Items.tryRead, sourceItems, remoteItems, fileItems.
  destruct (Items.isHttp p).
  - destruct (fetch w p) as [[[|] [|[arr|]]]|]; cbn; rewrite ?app_nil_r; reflexivity.
  - destruct (readFile w p) as [[|[arr|]]|]; cbn; rewrite ?app_nil_r; reflexivity.
Qed.

Lemma stats_loadStep_fileItems (w : World) (p : string) (st : list string * list Row) :
  snd (Stats.loadStep w st p) = (snd st ++ fileItems w p)%list.
Proof.
  unfold Stats.loadStep, Stats.tryRead, fileItems.
  destruct (readFile w p) as [[|[arr|]]|]; cbn; rewrite ?app_nil_r; try reflexivity.
  destruct arr; cbn; rewrite ?app_nil_r; reflexivity.
Qed.

Lemma items_merge_from (w : World) (paths : list string) (rows : list Row) :
  fold_left (fun rows p => concatIf rows (Items.tryRead w p)) paths rows
  = (rows ++ flat_map (sourceItems w) paths)%list.
Proof.
  revert rows. induction paths as [|p paths IH]; intro rows; cbn [fold_left flat_map].
  - rewrite app_nil_r. reflexivity.
  - rewrite IH, items_tryRead_sourceItems, <- app_assoc. reflexivity.
Qed.

Lemma stats_merge_from (w : World) (paths : list string) (st : list string * list Row) :
  snd (fold_left (Stats.loadStep w) paths st)
  = (snd st ++ flat_map (fileItems w) paths)%list.
Proof.
  revert st. induction paths as [|p paths IH]; intro st; cbn [fold_left flat_map].
  - rewrite app_nil_r. reflexivity.
  - rewrite IH, stats_loadStep_fileItems, <- app_assoc. reflexivity.
Qed.

(** C7.  For every ordered list of data set locations, the loop of the
    default configuration yields exactly the concatenation, in the order
    of the list, of the item arrays of the sources that load, parse and
    hold an array of items; every other source brings nothing and the
    loop goes on.  So does each route when neither the [csv] parameter nor
    the environment names a data set. *)
Theorem merge_concatenates_loaded (w : World) (paths : list string) :
  Items.mergeAll w paths = flat_map (sourceItems w) paths /\
  snd (Stats.mergeAll w paths) = flat_map (fileItems w) paths /\
  (envJsonPath w = "" ->
   Items.loadRows w "" = flat_map (sourceItems w) (defaultPublicPaths w) /\
   snd (Stats.load w "") = flat_map (fileItems w) (defaultPublicPaths w)).
Proof.
  assert (I : forall ps, Items.mergeAll w ps = flat_map (sourceItems w) ps)
    by (intro ps; unfold Items.mergeAll; rewrite items_merge_from; reflexivity).
  assert (S : forall ps, snd (Stats.mergeAll w ps) = flat_map (fileItems w) ps)
    by (intro ps; unfold Stats.mergeAll; rewrite stats_merge_from; reflexivity).
  split; [apply I|]. split; [apply S|].
  intro He. unfold Items.loadRows, Stats.load. rewrite He. cbn [truthy].
  split; [apply I|apply S].
Qed.

Lemma merge_concatenates_loaded_witness :
  Items.loadRows sampleWorld ""
    = [rowFisheries; rowLand; rowPublication; rowLand; rowFisheries] /\
  snd (Stats.load sampleWorld "")
    = [rowFisheries; rowLand; rowPublication; rowLand; rowFisheries].
Proof.
  destruct (merge_concatenates_loaded sampleWorld []) as (_ & _ & H).
  destruct (H eq_refl) as [HI HS].
  rewrite HI, HS. split; vm_compute; reflexivity.
Defined.

(** ** The filters: "all" *)

Lemma category_all_is_no_filter (q : Query) :
  p_category q = Some "all" ->
  filtersOf q
  = filtersOf {| p_section := p_section q; p_category := None; p_q := p_q q;
                 p_startYm := p_startYm q; p_endYm := p_endYm q |}.
Proof. intro H. unfold filtersOf. rewrite H. reflexivity. Qed.

Example aggregate_two_records :
  Stats.by_year_month (Stats.aggregate [] [rowFisheries; rowLand] noFilters)
    = (["2024-01"], [2]) /\
  Stats.total (Stats.aggregate [] [rowFisheries; rowLand] noFilters) = 2.
Proof. split; reflexivity. Qed.

(** ** Facets *)

(** C8.  For every world, every [csv] parameter and every two queries, the
    statistics route answers with the same facets: they are computed from
    the whole corpus, whatever the filters. *)
Theorem facets_ignore_filters (w : World) (csvParam : option string) (q1 q2 : Query) :
  Stats.facets (Stats.GET w csvParam q1) = Stats.facets (Stats.GET w csvParam q2) /\
  Stats.facets (Stats.GET w csvParam q1)
    = (Stats.facetValues section (snd (Stats.load w (orEmpty csvParam))),
       Stats.facetValues category (snd (Stats.load w (orEmpty csvParam)))).
Proof.
  unfold Stats.GET.
  destruct (Stats.load w (orEmpty csvParam)) as [usedPaths rows].
  unfold Stats.aggregate. cbn [snd].
  destruct rows as [|r rows]; cbn [List.length Nat.eqb Stats.facets]; split; reflexivity.
Qed.

(** ** Pagination of the listing route *)

Lemma slice_window {A : Type} (l : list A) (o n : Z) :
  0 <= o -> 0 <= n ->
  JsArray.slice l (Num o) (JsNum.add (Num o) (Num n))
  = firstn (Z.to_nat n) (skipn (Z.to_nat o) l).
Proof.
  intros Ho Hn. unfold JsArray.slice, JsArray.clampIndex. cbn [JsNum.add JsNum.toInteger].
  destruct (Z.ltb_spec o 0) as [?|_]; [lia|].
  destruct (Z.ltb_spec (o + n) 0) as [?|_]; [lia|].
  remember (Z.of_nat (List.length l)) as len eqn:Elen.
  destruct (Z.le_gt_cases len o) as [Hfar|Hnear].
  - rewrite !(skipn_all2 l) by lia.
    rewrite !firstn_nil. reflexivity.
  - replace (Z.min o len) with o by lia.
    destruct (Z.le_gt_cases (o + n) len) as [Hin|Hout].
    + replace (Z.min (o + n) len) with (o + n) by lia.
      replace (o + n - o) with n by lia. reflexivity.
    + replace (Z.min (o + n) len) with len by lia.
      pose proof (length_skipn (Z.to_nat o) l) as Hs.
      rewrite !firstn_all2; [reflexivity| |]; lia.
Qed.

(** On a limit that [parseInt] reads as an integer the clamp holds, and
    the default is 20. *)
Lemma limitOf_numeric (p : Items.Page) (n : Z) :
  JsNum.parseInt (orElse (orEmpty (Items.p_limit p)) "20") = Num n ->
  Items.limitOf p = Num (Z.max 1 (Z.min 500 n)) /\ 1 <= Z.max 1 (Z.min 500 n) <= 500.
Proof. intro H. unfold Items.limitOf. rewrite H. cbn. split; [reflexivity|lia]. Qed.

Lemma limitOf_absent (p : Items.Page) :
  Items.p_limit p = None -> Items.limitOf p = Num 20.
Proof. intro H. unfold Items.limitOf. rewrite H. reflexivity. Qed.

Lemma offsetOf_numeric (p : Items.Page) (n : Z) :
  JsNum.parseInt (orElse (orEmpty (Items.p_offset p)) "0") = Num n ->
  Items.offsetOf p = Num (Z.max 0 n).
Proof. intro H. unfold Items.offsetOf. rewrite H. reflexivity. Qed.

Lemma offsetOf_absent (p : Items.Page) :
  Items.p_offset p = None -> Items.offsetOf p = Num 0.
Proof. intro H. unfold Items.offsetOf. rewrite H. reflexivity. Qed.

(** With a numeric limit and offset the page is the window
    [offset, offset + limit) of the filtered and sorted records, and
    [total] counts all the filtered records. *)
Lemma listing_page (localeCompare : string -> string -> num) (marker : string)
    (rows : list Row) (q : Query) (p : Items.Page) (l o : Z) :
  rows <> [] ->
  Items.limitOf p = Num l -> 0 <= l ->
  Items.offsetOf p = Num o -> 0 <= o ->
  Items.items (Items.listing localeCompare marker rows q p)
  = map (Items.compact marker)
      (firstn (Z.to_nat l)
         (skipn (Z.to_nat o)
            (JsArray.sort (Items.compareRows localeCompare)
               (filter (Items.keep (filtersOf q)) rows)))) /\
  Items.total (Items.listing localeCompare marker rows q p)
  = Z.of_nat (List.length (filter (Items.keep (filtersOf q)) rows)).
Proof.
  intros Hr Hl Hl0 Ho Ho0. unfold Items.listing.
  destruct rows as [|r rows]; [contradiction|].
  cbn [List.length Nat.eqb Items.items Items.total].
  rewrite Hl, Ho, slice_window by assumption. split; reflexivity.
Qed.

Example listing_second_of_two (localeCompare : string -> string -> num) (marker : string) :
  Items.listing localeCompare marker [rowFisheries; rowLand] noFilters
    (Items.mkPage (Some "1") (Some "1"))
  = {| Items.total := 2; Items.items := [Items.compact marker rowFisheries] |}.
Proof. reflexivity. Qed.

(** C9.  The clamp misses the limit that is not a number: for
    [limit=abc], [parseInt] yields NaN, which [Math.min] and [Math.max]
    hand on, so the effective limit is NaN and not within 1 and 500; the
    slice then ends at 0, and the page is empty although two records pass
    the filters.  The same holds for [offset=abc]. *)
Theorem listing_limit_nan (localeCompare : string -> string -> num) (marker : string) :
  Items.limitOf (Items.mkPage (Some "abc") None) = NaN /\
  Items.listing localeCompare marker [rowFisheries; rowLand] noFilters
    (Items.mkPage (Some "abc") None)
  = {| Items.total := 2; Items.items := [] |} /\
  Items.offsetOf (Items.mkPage None (Some "abc")) = NaN /\
  Items.listing localeCompare marker [rowFisheries; rowLand] noFilters
    (Items.mkPage None (Some "abc"))
  = {| Items.total := 2; Items.items := [] |}.
Proof. repeat split; reflexivity. Qed.

(** ** Counting *)

Lemma sumZ_perm (l l' : list Z) : Permutation l l' -> sumZ l = sumZ l'.
Proof. unfold sumZ. induction 1; cbn [fold_right] in *; lia. Qed.

Module JsMapFacts.
Import JsMap.

Lemma get_set (m : t) (k x : string) (v : Z) :
  get (set m k v) x = if String.eqb k x then Some v else get m x.
Proof.
  induction m as [|[k' v'] m IH]; cbn [set get].
  - reflexivity.
  - destruct (String.eqb_spec k' k) as [->|Hk]; cbn [get].
    + destruct (String.eqb k x); reflexivity.
    + rewrite IH. destruct (String.eqb_spec k' x) as [->|Hx]; [|reflexivity].
      destruct (String.eqb_spec k x); [congruence|reflexivity].
Qed.

Lemma getOr0_incr (m : t) (k x : string) :
  getOr0 (incr m k) x = if String.eqb k x then getOr0 m x + 1 else getOr0 m x.
Proof.
  unfold incr, getOr0 at 1. rewrite get_set.
  destruct (String.eqb_spec k x) as [->|_]; reflexivity.
Qed.

Lemma sum_set (m : t) (k : string) (v : Z) :
  sumZ (map snd (set m k v)) = sumZ (map snd m) - getOr0 m k + v.
Proof.
  unfold getOr0.
  induction m as [|[k' v'] m IH]; cbn [set get map snd sumZ fold_right].
  - lia.
  - destruct (String.eqb k' k); cbn [map snd sumZ fold_right].
    + fold (sumZ (map snd m)). lia.
    + fold (sumZ (map snd (set m k v))) (sumZ (map snd m)). lia.
Qed.

(** Each increment adds one to the sum of the counts. *)
Lemma sum_incr (m : t) (k : string) :
  sumZ (map snd (incr m k)) = sumZ (map snd m) + 1.
Proof. unfold incr. rewrite sum_set. lia. Qed.

Lemma keys_set_in (m : t) (k x : string) (v : Z) :
  In x (keys (set m k v)) <-> In x (keys m) \/ x = k.
Proof.
  unfold keys.
  induction m as [|[k' v'] m IH]; cbn [set map fst In].
  - intuition congruence.
  - destruct (String.eqb_spec k' k) as [->|Hk]; cbn [map fst In].
    + intuition congruence.
    + rewrite IH. tauto.
Qed.

Lemma keys_set_nodup (m : t) (k : string) (v : Z) :
  NoDup (keys m) -> NoDup (keys (set m k v)).
Proof.
  unfold keys.
  induction m as [|[k' v'] m IH]; cbn [set map fst]; intro ND.
  - repeat constructor. intros [].
  - inversion ND as [|? ? Hnin ND']; subst.
    destruct (String.eqb_spec k' k) as [->|Hk]; cbn [map fst].
    + constructor; assumption.
    + constructor; [|apply IH, ND'].
      intro Hin. apply (keys_set_in m k k' v) in Hin. destruct Hin; [contradiction|congruence].
Qed.

Lemma fold_incr (l : list string) :
  forall m, NoDup (keys m) ->
    NoDup (keys (fold_left incr l m)) /\
    sumZ (map snd (fold_left incr l m)) = sumZ (map snd m) + Z.of_nat (List.length l).
Proof.
  induction l as [|x l IH]; intros m ND; cbn [fold_left List.length].
  - split; [exact ND|lia].
  - destruct (IH (incr m x) (keys_set_nodup m x _ ND)) as [ND' E].
    split; [exact ND'|]. rewrite E, sum_incr. lia.
Qed.

(** Reading every key once gives every count once. *)
Lemma sum_get_keys (m : t) :
  NoDup (keys m) -> sumZ (map (getOr0 m) (keys m)) = sumZ (map snd m).
Proof.
  unfold keys.
  induction m as [|[k v] m IH]; intro ND; [reflexivity|].
  inversion ND as [|? ? Hnin ND']; subst.
  cbn [map fst snd sumZ fold_right].
  fold (sumZ (map (getOr0 ((k, v) :: m)) (map fst m))) (sumZ (map snd m)).
  rewrite <- (IH ND').
  unfold getOr0 at 1. cbn [get]. rewrite String.eqb_refl.
  f_equal. f_equal. apply map_ext_in. intros x Hx.
  unfold getOr0. cbn [get].
  destruct (String.eqb_spec k x) as [->|_]; [contradiction|reflexivity].
Qed.
End JsMapFacts.

Lemma dedupeAux_nodup (l : list string) :
  forall seen, (forall x, In x l -> ~ In x seen) -> NoDup l -> JsArray.dedupeAux seen l = l.
Proof.
  induction l as [|x l IH]; intros seen Hd ND; cbn [JsArray.dedupeAux]; [reflexivity|].
  inversion ND as [|? ? Hnin ND']; subst.
  destruct (existsb (String.eqb x) seen) eqn:E.
  - apply existsb_exists in E. destruct E as (y & Hy & Exy).
    apply String.eqb_eq in Exy. subst y.
    exfalso. apply (Hd x); [left; reflexivity|exact Hy].
  - f_equal. apply IH; [|exact ND'].
    intros y Hy [<-|Hs]; [contradiction|].
    apply (Hd y); [right; exact Hy|exact Hs].
Qed.

Lemma sortYmLabels_perm (labels : list string) :
  NoDup labels -> Permutation (Stats.sortYmLabels labels) labels.
Proof.
  intro ND. unfold Stats.sortYmLabels, JsArray.dedupe.
  rewrite dedupeAux_nodup; [apply sort_perm| |exact ND].
  intros x _ [].
Qed.

(** The counting loop adds one per record to each of its three tallies. *)
Lemma countAll_from (l : list Row) :
  forall c : Stats.Counters,
    sumZ (map snd (Stats.byCategory (fold_left Stats.countStep l c)))
      = sumZ (map snd (Stats.byCategory c)) + Z.of_nat (List.length l) /\
    sumZ (map snd (Stats.bySection (fold_left Stats.countStep l c)))
      = sumZ (map snd (Stats.bySection c)) + Z.of_nat (List.length l) /\
    List.length (Stats.ymList (fold_left Stats.countStep l c))
      = (List.length (Stats.ymList c) + List.length l)%nat.
Proof.
  induction l as [|r l IH]; intro c; cbn [fold_left List.length].
  - repeat split; lia.
  - destruct (IH (Stats.countStep c r)) as (E1 & E2 & E3).
    rewrite E1, E2, E3. unfold Stats.countStep. cbn [Stats.byCategory Stats.bySection Stats.ymList].
    rewrite !JsMapFacts.sum_incr, length_app. cbn [List.length]. repeat split; lia.
Qed.

(** The count kept for a bucket is the number of records that fall in it. *)
Lemma countAll_category (l : list Row) (k : string) :
  forall c : Stats.Counters,
    JsMap.getOr0 (Stats.byCategory (fold_left Stats.countStep l c)) k
    = JsMap.getOr0 (Stats.byCategory c) k
      + Z.of_nat (count_occ string_dec (map Stats.categoryBucket l) k).
Proof.
  induction l as [|r l IH]; intro c; cbn [fold_left map count_occ]; [lia|].
  rewrite IH. unfold Stats.countStep at 1. cbn [Stats.byCategory].
  rewrite JsMapFacts.getOr0_incr.
  destruct (string_dec (Stats.categoryBucket r) k) as [->|Hn].
  - rewrite String.eqb_refl. lia.
  - destruct (String.eqb_spec (Stats.categoryBucket r) k); [contradiction|lia].
Qed.

Lemma bucket_blank (field : option string) (blank : string) :
  trim (orEmpty field) = "" -> trim blank = blank -> Stats.bucket field blank = blank.
Proof.
  intros Hf Hb. unfold Stats.bucket, orElse.
  destruct (truthy (orEmpty field)) eqn:E.
  - rewrite Hf. reflexivity.
  - rewrite Hb. destruct (truthy blank); reflexivity.
Qed.

(** The counts of the three groupings each add up to [total]. *)
Lemma aggregate_sums (usedPaths : list string) (rows : list Row) (q : Query) :
  sumZ (map snd (Stats.by_category (Stats.aggregate usedPaths rows q)))
    = Stats.total (Stats.aggregate usedPaths rows q) /\
  sumZ (map snd (Stats.by_section (Stats.aggregate usedPaths rows q)))
    = Stats.total (Stats.aggregate usedPaths rows q) /\
  sumZ (snd (Stats.by_year_month (Stats.aggregate usedPaths rows q)))
    = Stats.total (Stats.aggregate usedPaths rows q) /\
  Stats.total (Stats.aggregate usedPaths rows q)
    = Z.of_nat (List.length (filter (Stats.keep (filtersOf q)) rows)).
Proof.
  unfold Stats.aggregate.
  destruct rows as [|r0 rows]; [cbn; repeat split; reflexivity|].
  cbn [List.length Nat.eqb].
  set (filtered := filter (Stats.keep (filtersOf q)) (r0 :: rows)).
  cbn [Stats.by_category Stats.by_section Stats.by_year_month Stats.total snd].
  destruct (countAll_from filtered (Stats.mkCounters [] [] [])) as (E1 & E2 & E3).
  fold (Stats.countAll filtered) in E1, E2, E3.
  repeat split.
  - rewrite (sumZ_perm _ _ (Permutation_map snd (sort_perm Stats.byCountDesc _))).
    rewrite E1. reflexivity.
  - rewrite (sumZ_perm _ _ (Permutation_map snd (sort_perm Stats.byCountDesc _))).
    rewrite E2. reflexivity.
  - destruct (JsMapFacts.fold_incr (Stats.ymList (Stats.countAll filtered)) [])
      as [ND E]; [constructor|].
    rewrite (sumZ_perm _ _ (Permutation_map _ (sortYmLabels_perm _ ND))).
    rewrite JsMapFacts.sum_get_keys by exact ND.
    rewrite E, E3. reflexivity.
Qed.

(** In a map without repeated keys, [get] finds exactly the entries. *)
Lemma get_iff_in (m : JsMap.t) (k : string) (v : Z) :
  NoDup (JsMap.keys m) -> (JsMap.get m k = Some v <-> In (k, v) m).
Proof.
  unfold JsMap.keys. induction m as [|[k' v'] m IH]; cbn [JsMap.get map fst In]; intro ND.
  - split; [discriminate|tauto].
  - inversion ND as [|? ? Hnin ND']; subst.
    destruct (String.eqb_spec k' k) as [->|Hk].
    + split.
      * intro H. injection H as ->. left. reflexivity.
      * intros [H|H]; [injection H as ->; reflexivity|].
        exfalso. apply Hnin. apply (in_map fst) in H. exact H.
    + rewrite (IH ND'). split; [tauto|]. intros [H|H]; [congruence|exact H].
Qed.

(** Sorting the entries does not change what a key is bound to. *)
Lemma getOr0_perm (m m' : JsMap.t) (k : string) :
  NoDup (JsMap.keys m) -> Permutation m m' -> JsMap.getOr0 m k = JsMap.getOr0 m' k.
Proof.
  intros ND P.
  assert (ND' : NoDup (JsMap.keys m'))
    by (eapply Permutation_NoDup; [apply Permutation_map, P|exact ND]).
  unfold JsMap.getOr0.
  destruct (JsMap.get m k) as [v|] eqn:E.
  - apply (get_iff_in m k v ND) in E.
    apply (Permutation_in _ P), (get_iff_in m' k v ND') in E. rewrite E. reflexivity.
  - destruct (JsMap.get m' k) as [v'|] eqn:E'; [|reflexivity].
    apply (get_iff_in m' k v' ND'), (Permutation_in _ (Permutation_sym P)),
      (get_iff_in m k v' ND) in E'. congruence.
Qed.

Lemma fold_incr_get (l : list string) (k : string) :
  forall m, JsMap.getOr0 (fold_left JsMap.incr l m) k
            = JsMap.getOr0 m k + Z.of_nat (count_occ string_dec l k).
Proof.
  induction l as [|x l IH]; intro m; cbn [fold_left count_occ]; [lia|].
  rewrite IH, JsMapFacts.getOr0_incr.
  destruct (string_dec x k) as [->|Hn].
  - rewrite String.eqb_refl. lia.
  - destruct (String.eqb_spec x k); [contradiction|lia].
Qed.

Lemma countAll_section (l : list Row) (k : string) :
  forall c : Stats.Counters,
    JsMap.getOr0 (Stats.bySection (fold_left Stats.countStep l c)) k
    = JsMap.getOr0 (Stats.bySection c) k
      + Z.of_nat (count_occ string_dec (map Stats.sectionBucket l) k).
Proof.
  induction l as [|r l IH]; intro c; cbn [fold_left map count_occ]; [lia|].
  rewrite IH. unfold Stats.countStep at 1. cbn [Stats.bySection].
  rewrite JsMapFacts.getOr0_incr.
  destruct (string_dec (Stats.sectionBucket r) k) as [->|Hn].
  - rewrite String.eqb_refl. lia.
  - destruct (String.eqb_spec (Stats.sectionBucket r) k); [contradiction|lia].
Qed.

Lemma countAll_nodup (l : list Row) :
  forall c : Stats.Counters,
    NoDup (JsMap.keys (Stats.byCategory c)) -> NoDup (JsMap.keys (Stats.bySection c)) ->
    NoDup (JsMap.keys (Stats.byCategory (fold_left Stats.countStep l c))) /\
    NoDup (JsMap.keys (Stats.bySection (fold_left Stats.countStep l c))).
Proof.
  induction l as [|r l IH]; intros c H1 H2; cbn [fold_left]; [split; assumption|].
  apply IH; unfold Stats.countStep; cbn [Stats.byCategory Stats.bySection];
    apply JsMapFacts.keys_set_nodup; assumption.
Qed.

Lemma countAll_ymList (l : list Row) :
  forall c : Stats.Counters,
    Stats.ymList (fold_left Stats.countStep l c)
    = (Stats.ymList c ++ map Stats.toYmLabel l)%list.
Proof.
  induction l as [|r l IH]; intro c; cbn [fold_left map].
  - rewrite app_nil_r. reflexivity.
  - rewrite IH. unfold Stats.countStep. cbn [Stats.ymList].
    rewrite <- app_assoc. reflexivity.
Qed.

Lemma categoryBucket_absent (r : Row) :
  trim (orEmpty (category r)) = "" -> Stats.categoryBucket r = "Uncategorized".
Proof. intro H. apply bucket_blank; [exact H|reflexivity]. Qed.

Lemma sectionBucket_absent (r : Row) :
  trim (orEmpty (section r)) = "" -> Stats.sectionBucket r = "unknown".
Proof. intro H. apply bucket_blank; [exact H|reflexivity]. Qed.

(** C10.  For every corpus and every query, the counts of [by_category],
    of [by_section] and of [by_year_month] each add up to [total], the number
    of records that pass the filters; and the count given for a category, a
    section or a year-month label is the number of filtered records that
    fall in that bucket ("Uncategorized" and "unknown" for a blank category
    and section), so each filtered record is counted once in each
    grouping. *)
Theorem aggregate_counts_sum_to_total (usedPaths : list string) (rows : list Row) (q : Query) :
  sumZ (map snd (Stats.by_category (Stats.aggregate usedPaths rows q)))
    = Stats.total (Stats.aggregate usedPaths rows q) /\
  sumZ (map snd (Stats.by_section (Stats.aggregate usedPaths rows q)))
    = Stats.total (Stats.aggregate usedPaths rows q) /\
  sumZ (snd (Stats.by_year_month (Stats.aggregate usedPaths rows q)))
    = Stats.total (Stats.aggregate usedPaths rows q) /\
  Stats.total (Stats.aggregate usedPaths rows q)
    = Z.of_nat (List.length (filter (Stats.keep (filtersOf q)) rows)) /\
  (forall k,
     JsMap.getOr0 (Stats.by_category (Stats.aggregate usedPaths rows q)) k
     = Z.of_nat (count_occ string_dec
                   (map Stats.categoryBucket (filter (Stats.keep (filtersOf q)) rows)) k)) /\
  (forall k,
     JsMap.getOr0 (Stats.by_section (Stats.aggregate usedPaths rows q)) k
     = Z.of_nat (count_occ string_dec
                   (map Stats.sectionBucket (filter (Stats.keep (filtersOf q)) rows)) k)) /\
  snd (Stats.by_year_month (Stats.aggregate usedPaths rows q))
  = map (fun l => Z.of_nat (count_occ string_dec
                              (map Stats.toYmLabel (filter (Stats.keep (filtersOf q)) rows)) l))
        (fst (Stats.by_year_month (Stats.aggregate usedPaths rows q))).
Proof.
  destruct (aggregate_sums usedPaths rows q) as (S1 & S2 & S3 & S4).
  repeat (split; [assumption|]).
  unfold Stats.aggregate.
  destruct rows as [|r0 rows]; [repeat split; intros; reflexivity|].
  cbn [List.length Nat.eqb].
  set (filtered := filter (Stats.keep (filtersOf q)) (r0 :: rows)).
  cbn [Stats.by_category Stats.by_section Stats.by_year_month fst snd].
  destruct (countAll_nodup filtered (Stats.mkCounters [] [] [])) as [N1 N2];
    [constructor|constructor|].
  fold (Stats.countAll filtered) in N1, N2.
  split; [|split].
  - intro k.
    rewrite <- (getOr0_perm _ _ k N1 (Permutation_sym (sort_perm Stats.byCountDesc _))).
    unfold Stats.countAll. rewrite countAll_category. reflexivity.
  - intro k.
    rewrite <- (getOr0_perm _ _ k N2 (Permutation_sym (sort_perm Stats.byCountDesc _))).
    unfold Stats.countAll. rewrite countAll_section. reflexivity.
  - apply map_ext. intro l. rewrite fold_incr_get.
    unfold Stats.countAll. rewrite countAll_ymList. reflexivity.
Qed.

(** * Further properties *)

(** ** [normalizeSpace] *)

Lemma collapse_word_app (w rest : string) (b : bool) :
  isWord w = true -> collapse b (w ++ rest) = w ++ collapse false rest.
Proof.
  intro H. apply andb_true_iff in H. destruct H as [Ht Hn].
  destruct w as [|c w]; [discriminate|]. clear Ht.
  revert c b Hn. induction w as [|d w IH]; intros c b Hn.
  - cbn [noSpace] in Hn. apply andb_true_iff in Hn. destruct Hn as [Hc _].
    apply negb_true_iff in Hc. cbn [append collapse]. rewrite Hc. reflexivity.
  - cbn [noSpace] in Hn. apply andb_true_iff in Hn. destruct Hn as [Hc Hn].
    apply negb_true_iff in Hc.
    change (String c (String d w) ++ rest) with (String c (String d w ++ rest)).
    cbn [collapse]. rewrite Hc. rewrite (IH d false Hn). reflexivity.
Qed.

Lemma collapse_concat (ws : list string) (b : bool) :
  Forall (fun w => isWord w = true) ws ->
  collapse b (String.concat " " ws) = String.concat " " ws.
Proof.
  intro H. revert b. induction H as [|w ws Hw Hws IH]; intro b; [reflexivity|].
  cbn [String.concat]. destruct ws as [|w' ws'].
  - rewrite <- (append_nil_r w) at 1. rewrite (collapse_word_app w "" b Hw).
    cbn. apply append_nil_r.
  - rewrite (collapse_word_app w _ b Hw). f_equal.
    change (" " ++ String.concat " " (w' :: ws'))
      with (String " " (String.concat " " (w' :: ws'))).
    cbn [collapse]. replace (isSpace " ") with true by reflexivity.
    rewrite (IH true). reflexivity.
Qed.

(** X1.  The result of [normalizeSpace] is in normal form: trimming it,
    collapsing its white space or normalizing it again changes nothing, and
    it is empty exactly when the text has no character other than white
    space. *)
Theorem normalizeSpace_normal_form (text : string) :
  trim (normalizeSpace text) = normalizeSpace text /\
  collapse false (normalizeSpace text) = normalizeSpace text /\
  normalizeSpace (normalizeSpace text) = normalizeSpace text /\
  (normalizeSpace text = "" <-> trim text = "").
Proof.
  pose proof (tokens_words text) as Hw.
  rewrite (normalizeSpace_tokens text).
  split; [apply trim_concat, Hw|].
  split; [apply collapse_concat, Hw|].
  split; [apply normalizeSpace_concat, Hw|].
  rewrite <- (normalizeSpace_tokens text). unfold normalizeSpace.
  destruct (trim text) as [|c t] eqn:E; cbn [truthy].
  - tauto.
  - split; [|discriminate]. intro H.
    assert (T : truthy (String.concat " " (tokens text)) = false).
    { rewrite <- normalizeSpace_tokens. unfold normalizeSpace. rewrite E. cbn [truthy].
      rewrite H. reflexivity. }
    rewrite (concat_truthy _ (isWord_truthy _ Hw)) in T.
    destruct (tokens text) as [|w ws] eqn:Et; [|discriminate].
    exfalso.
    assert (N : normalizeSpace text = "") by (rewrite normalizeSpace_tokens, Et; reflexivity).
    unfold normalizeSpace in N. rewrite E in N. cbn [truthy] in N.
    unfold trim in E, N. rewrite trimStart_collapse in N.
    pose proof (proj1 (collapse_trimEnd text)) as C. rewrite N in C.
    unfold tokens in Et. destruct (tokFrom text) as [w0 ws0] eqn:Etok. cbn [fst snd] in C.
    pose proof (trimStart_tokens text) as TS. unfold tokens in TS. rewrite Etok in TS.
    destruct (trimStart text) as [|c0 t0] eqn:Ets; [discriminate|].
    assert (Hc0 : isSpace c0 = false).
    { clear -Ets. induction text as [|x text IH]; [discriminate|].
      cbn [trimStart] in Ets. destruct (isSpace x) eqn:Ex; [apply IH, Ets|].
      injection Ets as -> _. exact Ex. }
    cbn [tokFrom] in TS. destruct (tokFrom t0) as [w1 ws1]. rewrite Hc0 in TS.
    cbn [truthy] in TS. rewrite Et in TS. discriminate.
Qed.

(** ** The summarizer, again *)

(** X2.  Summarizing a summary changes nothing: for every text and all
    [n <= m], the summary of the [n]-sentence summary with room for [m]
    sentences is that summary. *)
Theorem summarizeExtractive_of_summary (text : string) (n m : nat) :
  (n <= m)%nat ->
  summarizeExtractive (summarizeExtractive text n) m = summarizeExtractive text n.
Proof.
  intro Hnm.
  destruct (summarizeExtractive_indices text n) as (idx & E & Hlen & Hs & Hv).
  assert (R : sentencesOf (normalizeSpace (summarizeExtractive text n))
              = map (fun i => nth i (sentencesOf (normalizeSpace text)) "") idx).
  { rewrite E. rewrite (normalizeSpace_tokens text) in Hv |- *.
    apply rejoin_selection; [apply tokens_words|exact Hs|exact Hv]. }
  rewrite summarizeExtractive_all.
  - rewrite R. symmetry. exact E.
  - rewrite R, length_map. lia.
Qed.

Lemma summarizeExtractive_of_summary_witness :
  summarizeExtractive
    (summarizeExtractive "The cat sat. The cat ate fish. Dogs bark. Fish swim with the cat." 2) 3
  = summarizeExtractive "The cat sat. The cat ate fish. Dogs bark. Fish swim with the cat." 2.
Proof.
  apply (summarizeExtractive_of_summary
           "The cat sat. The cat ate fish. Dogs bark. Fish swim with the cat." 2 3).
  lia.
Defined.

Section StableInsertion.
Context {A : Type}.
Variable compareFn : A -> A -> num.
Variable R : A -> A -> Prop.
Hypothesis R_trans : forall x y z, R x y -> R y z -> R x z.

(** Insertion keeps a list sorted when the comparator agrees with the
    order on the elements met. *)
Lemma insert_sorted_on (x : A) (l : list A) :
  StronglySorted R l ->
  (forall y, In y l -> JsArray.before compareFn x y = true -> R x y) ->
  (forall y, In y l -> JsArray.before compareFn x y = false -> R y x) ->
  StronglySorted R (JsArray.insert compareFn x l).
Proof.
  induction 1 as [|y l Hs IH Hy]; intros Ht Hf; cbn [JsArray.insert].
  - repeat constructor.
  - destruct (JsArray.before compareFn x y) eqn:E.
    + constructor; [constructor; assumption|].
      assert (Rxy : R x y) by (apply Ht; [left; reflexivity|exact E]).
      constructor; [exact Rxy|].
      eapply Forall_impl; [|exact Hy]. intros z Hz. eapply R_trans; eassumption.
    + constructor.
      * apply IH; intros z Hz; [apply Ht|apply Hf]; right; exact Hz.
      * eapply Permutation_Forall; [symmetry; apply insert_perm|].
        constructor; [apply Hf; [left; reflexivity|exact E]|exact Hy].
  Qed.

(** Sorting a list whose elements satisfy [P], when on such elements the
    comparator decides [R] between a later element and an earlier one. *)
Variable P : A -> Prop.
Variable earlier : A -> A -> Prop.
Hypothesis before_true : forall x y, P x -> P y -> JsArray.before compareFn x y = true -> R x y.
Hypothesis before_false :
  forall x y, P x -> P y -> earlier y x -> JsArray.before compareFn x y = false -> R y x.

Lemma sort_sorted_on (l : list A) :
  Forall P l -> StronglySorted earlier l -> StronglySorted R (JsArray.sort compareFn l).
Proof.
  unfold JsArray.sort.
  assert (G : forall acc,
             Forall P l -> Forall P acc ->
             StronglySorted earlier l ->
             (forall y x, In y acc -> In x l -> earlier y x) ->
             StronglySorted R acc ->
             StronglySorted R (fold_left (fun acc x => JsArray.insert compareFn x acc) l acc)).
  { induction l as [|x l IH]; intros acc Hl Hacc Hsl Hcross Hsacc; cbn [fold_left];
      [exact Hsacc|].
    inversion Hl as [|? ? Px Hl']; subst. inversion Hsl as [|? ? Hsl' Hx]; subst.
    rewrite Forall_forall in Hacc, Hx.
    apply IH.
    - exact Hl'.
    - eapply Permutation_Forall; [symmetry; apply insert_perm|].
      constructor; [exact Px|apply Forall_forall, Hacc].
    - exact Hsl'.
    - intros y z Hy Hz. apply (Permutation_in _ (insert_perm compareFn x acc)) in Hy.
      destruct Hy as [<-|Hy]; [apply Hx, Hz|apply Hcross; [exact Hy|right; exact Hz]].
    - apply insert_sorted_on; [exact Hsacc| |].
      + intros y Hy. apply before_true; [exact Px|apply Hacc, Hy].
      + intros y Hy. apply before_false; [exact Px|apply Hacc, Hy|].
        apply Hcross; [exact Hy|left; reflexivity]. }
  intros Hl Hs. apply G; try assumption; try constructor. intros y x [].
Qed.
End StableInsertion.

Lemma sorted_app_cross {A : Type} (R : A -> A -> Prop) (l1 l2 : list A) :
  StronglySorted R (l1 ++ l2) -> forall a b, In a l1 -> In b l2 -> R a b.
Proof.
  induction l1 as [|x l1 IH]; intros Hs a b Ha Hb; [destruct Ha|].
  cbn [app] in Hs. inversion Hs as [|? ? Hs' Hx]; subst.
  destruct Ha as [<-|Ha].
  - rewrite Forall_forall in Hx. apply Hx, in_or_app. right. exact Hb.
  - apply (IH Hs' a b Ha Hb).
Qed.

Lemma freqOwn_set (freq : freqTable) (w x : string) (v : num) :
  freqOwn (freqSet freq w v) x = if String.eqb w x then Some v else freqOwn freq x.
Proof.
  induction freq as [|[k v'] freq IH]; cbn [freqSet freqOwn].
  - reflexivity.
  - destruct (String.eqb_spec k w) as [->|Hk]; cbn [freqOwn].
    + destruct (String.eqb w x); reflexivity.
    + rewrite IH. destruct (String.eqb_spec k x) as [->|Hx]; [|reflexivity].
      destruct (String.eqb_spec w x); [congruence|reflexivity].
Qed.

(** Without the word "constructor" every entry of the table is a number. *)
Lemma buildFreq_numeric (words : list string) :
  ~ In "constructor" words ->
  forall x v, freqOwn (buildFreq words) x = Some v -> v <> NaN.
Proof.
  unfold buildFreq.
  assert (G : forall freq,
             ~ In "constructor" words ->
             (forall x v, freqOwn freq x = Some v -> v <> NaN) ->
             forall x v, freqOwn (fold_left freqStep words freq) x = Some v -> v <> NaN).
  { induction words as [|w words IH]; intros freq Hn Hf; cbn [fold_left]; [exact Hf|].
    apply IH; [intro H; apply Hn; right; exact H|].
    intros x v. unfold freqStep.
    destruct (stopHas w || (String.length w <=? 2)%nat); [apply Hf|].
    rewrite freqOwn_set. destruct (String.eqb w x); [|apply Hf].
    intro E. injection E as <-. unfold freqGet.
    destruct (freqOwn freq w) as [v0|] eqn:E0.
    - specialize (Hf w v0 E0). destruct v0; [contradiction|discriminate].
    - destruct (String.eqb_spec w "constructor") as [->|_]; [|discriminate].
      exfalso. apply Hn. left. reflexivity. }
  intro Hn. apply G; [exact Hn|]. intros x v E. discriminate.
Qed.

Lemma sentenceScore_numeric (freq : freqTable) (s : string) :
  (forall x v, freqOwn freq x = Some v -> v <> NaN) ->
  ~ In "constructor" (matchWords (toLowerCase s)) ->
  sentenceScore freq s <> NaN.
Proof.
  intros Hf Hn. unfold sentenceScore.
  assert (G : forall a, a <> NaN ->
             fold_left (fun a w => JsNum.add a (freqGet freq w))
                       (matchWords (toLowerCase s)) a <> NaN).
  { induction (matchWords (toLowerCase s)) as [|w ws IH]; intros a Ha; cbn [fold_left];
      [exact Ha|].
    apply IH; [intro H; apply Hn; right; exact H|].
    assert (Hw : freqGet freq w <> NaN).
    { unfold freqGet. destruct (freqOwn freq w) as [v|] eqn:E; [apply (Hf w v E)|].
      destruct (String.eqb_spec w "constructor") as [->|_]; [|discriminate].
      exfalso. apply Hn. left. reflexivity. }
    destruct a; [contradiction|]. destruct (freqGet freq w); [contradiction|discriminate]. }
  apply G. discriminate.
Qed.

Lemma scoreFrom_entry (freq : freqTable) (sentences : list string) :
  forall k i v,
    In (i, v) (scoreFrom freq k sentences) ->
    (k <= i < k + List.length sentences)%nat /\
    v = sentenceScore freq (nth (i - k) sentences "").
Proof.
  induction sentences as [|s rest IH]; intros k i v H; [destruct H|].
  cbn [scoreFrom In List.length] in *. destruct H as [H|H].
  - injection H as <- <-. rewrite Nat.sub_diag. split; [lia|reflexivity].
  - destruct (IH (S k) i v H) as [Hr Hv]. split; [lia|].
    rewrite Hv. replace (i - k)%nat with (S (i - S k)) by lia. reflexivity.
Qed.

Lemma scoreFrom_in (freq : freqTable) (sentences : list string) :
  forall k j, (j < List.length sentences)%nat ->
    In ((k + j)%nat, sentenceScore freq (nth j sentences "")) (scoreFrom freq k sentences).
Proof.
  induction sentences as [|s rest IH]; intros k j Hj; [cbn in Hj; lia|].
  cbn [scoreFrom List.length] in *. destruct j as [|j].
  - left. rewrite Nat.add_0_r. reflexivity.
  - right. specialize (IH (S k) j ltac:(lia)). cbn [nth].
    replace (k + S j)%nat with (S k + j)%nat by lia. exact IH.
Qed.

Lemma scoreFrom_sorted (freq : freqTable) (sentences : list string) :
  forall k, StronglySorted (fun a b : nat * num => (fst a < fst b)%nat)
                           (scoreFrom freq k sentences).
Proof.
  induction sentences as [|s rest IH]; intro k; cbn [scoreFrom]; constructor.
  - apply IH.
  - apply Forall_forall. intros [i v] Hi. apply scoreFrom_entry in Hi. cbn. lia.
Qed.

(** X3.  When the word "constructor" occurs neither in the text nor in a
    sentence, the sentences taken among more than [maxSentences] are the
    best ones: a sentence that is taken scores more than every sentence
    left out, or the same and stands before it in the text. *)
Theorem topIndices_best (body : string) (sentences : list string) (maxSentences i j : nat) :
  ~ In "constructor" (matchWords (toLowerCase body)) ->
  Forall (fun s => ~ In "constructor" (matchWords (toLowerCase s))) sentences ->
  In i (topIndices body sentences maxSentences) ->
  (j < List.length sentences)%nat ->
  ~ In j (topIndices body sentences maxSentences) ->
  exists si sj,
    sentenceScore (buildFreq (matchWords (toLowerCase body))) (nth i sentences "") = Num si /\
    sentenceScore (buildFreq (matchWords (toLowerCase body))) (nth j sentences "") = Num sj /\
    (sj < si \/ (sj = si /\ (i < j)%nat)).
Proof.
  intros Hbody Hsent Hi Hj Hnj. unfold topIndices in Hi, Hnj.
  set (freq := buildFreq (matchWords (toLowerCase body))) in *.
  set (scored0 := scoreFrom freq 0 sentences) in *.
  set (scored := JsArray.sort byScoreDesc scored0) in *.
  pose proof (buildFreq_numeric _ Hbody) as Hfreq. fold freq in Hfreq.
  set (P := fun a : nat * num => snd a <> NaN).
  set (R := fun a b : nat * num =>
              JsNum.toInteger (snd b) < JsNum.toInteger (snd a) \/
              (JsNum.toInteger (snd b) = JsNum.toInteger (snd a) /\ (fst a <= fst b)%nat)).
  assert (HP : Forall P scored0).
  { apply Forall_forall. intros [k v] Hk. apply scoreFrom_entry in Hk. destruct Hk as [Hr ->].
    unfold P. cbn [snd]. apply sentenceScore_numeric; [exact Hfreq|].
    rewrite Forall_forall in Hsent. apply Hsent, nth_In. lia. }
  assert (HS : StronglySorted R scored).
  { apply (sort_sorted_on byScoreDesc R) with (P := P)
      (earlier := fun a b : nat * num => (fst a < fst b)%nat).
    - unfold R. intros x y z. lia.
    - intros [xi xs] [yi ys] Px Py. unfold P, R, JsArray.before, byScoreDesc in *.
      cbn [fst snd] in *. destruct xs; [contradiction|]. destruct ys; [contradiction|].
      cbn. intro H. apply Z.ltb_lt in H. lia.
    - intros [xi xs] [yi ys] Px Py He. unfold P, R, JsArray.before, byScoreDesc in *.
      cbn [fst snd] in *. destruct xs; [contradiction|]. destruct ys; [contradiction|].
      cbn. intro H. apply Z.ltb_ge in H. lia.
    - exact HP.
    - apply scoreFrom_sorted. }
  pose proof (sort_perm byScoreDesc scored0) as Perm. fold scored in Perm.
  apply (Permutation_in _ (sort_perm byIndexAsc _)) in Hi.
  apply in_map_iff in Hi. destruct Hi as ([i' vi] & Ei & Hi). cbn [fst] in Ei. subst i'.
  assert (Hjin : In (j, sentenceScore freq (nth j sentences "")) scored).
  { apply (Permutation_in _ (Permutation_sym Perm)). unfold scored0.
    apply (scoreFrom_in freq sentences 0 j Hj). }
  rewrite <- (firstn_skipn maxSentences scored) in Hjin, HS.
  apply in_app_or in Hjin. destruct Hjin as [Hjin|Hjin].
  { exfalso. apply Hnj. apply (Permutation_in _ (Permutation_sym (sort_perm byIndexAsc _))).
    apply in_map_iff. exists (j, sentenceScore freq (nth j sentences "")). split; [reflexivity|exact Hjin]. }
  pose proof (sorted_app_cross R _ _ HS _ _ Hi Hjin) as Rij.
  assert (Hi0 : In (i, vi) scored0).
  { apply (Permutation_in _ Perm).
    rewrite <- (firstn_skipn maxSentences scored). apply in_or_app. left. exact Hi. }
  pose proof (scoreFrom_entry freq sentences 0 i vi Hi0) as [Hri Hvi].
  rewrite Nat.sub_0_r in Hvi. subst vi.
  assert (Pi : sentenceScore freq (nth i sentences "") <> NaN).
  { rewrite Forall_forall in HP. apply (HP _ Hi0). }
  assert (Pj : sentenceScore freq (nth j sentences "") <> NaN).
  { apply sentenceScore_numeric; [exact Hfreq|].
    rewrite Forall_forall in Hsent. apply Hsent, nth_In, Hj. }
  destruct (sentenceScore freq (nth i sentences "")) as [|si] eqn:Esi; [contradiction|].
  destruct (sentenceScore freq (nth j sentences "")) as [|sj] eqn:Esj; [contradiction|].
  exists si, sj. repeat split.
  unfold R in Rij. cbn [fst snd JsNum.toInteger] in Rij.
  destruct Rij as [Hlt|[Heq Hle]]; [left; exact Hlt|].
  right. split; [exact Heq|].
  assert (i <> j); [|lia].
  intros ->. apply Hnj.
  apply (Permutation_in _ (Permutation_sym (sort_perm byIndexAsc _))).
  apply in_map_iff. exists (j, Num si). split; [reflexivity|exact Hi].
Qed.

Lemma topIndices_best_witness :
  exists si sj,
    sentenceScore (buildFreq (matchWords (toLowerCase "The cat sat. Dogs bark. The cat ate.")))
                  (nth 0 ["The cat sat."; "Dogs bark."; "The cat ate."] "") = Num si /\
    sentenceScore (buildFreq (matchWords (toLowerCase "The cat sat. Dogs bark. The cat ate.")))
                  (nth 1 ["The cat sat."; "Dogs bark."; "The cat ate."] "") = Num sj /\
    (sj < si \/ (sj = si /\ (0 < 1)%nat)).
Proof.
  apply (topIndices_best "The cat sat. Dogs bark. The cat ate."
           ["The cat sat."; "Dogs bark."; "The cat ate."] 2 0 1).
  - vm_compute. intuition discriminate.
  - repeat constructor; vm_compute; intuition discriminate.
  - vm_compute. left. reflexivity.
  - vm_compute. lia.
  - vm_compute. intuition discriminate.
Defined.

(** ** The classifier, again *)

Lemma categorize_label (title summary : string) :
  In (categorize title summary) (map fst areas).
Proof.
  assert (Hd : In defaultCategory (map fst areas)) by (vm_compute; tauto).
  unfold categorize.
  destruct (scan_inv (classifierText title summary) areas defaultCategory 0 ltac:(lia))
    as [_ H].
  destruct (scan (classifierText title summary) areas (defaultCategory, 0)) as [best bestScore].
  cbn [fst] in H.
  destruct (bestScore <? confidenceFloor); [exact Hd|].
  destruct H as [[_ ->]|[_ (k & a & Hk & -> & _)]]; [exact Hd|].
  apply in_map, (nth_error_In _ _ Hk).
Qed.

Lemma areas_labels_nonempty (l : string) : In l (map fst areas) -> l <> "".
Proof.
  intro H.
  assert (C : forallb truthy (map fst areas) = true) by (vm_compute; reflexivity).
  rewrite forallb_forall in C. specialize (C l H). intros ->. discriminate.
Qed.

(** X4.  Whatever the title and the summary, [categorize] returns one of
    the twenty labels of the catalogue, never an empty or a new one. *)
Theorem categorize_in_catalogue (title summary : string) :
  In (categorize title summary) (map fst areas) /\
  categorize title summary <> "" /\
  List.length (map fst areas) = 20%nat.
Proof.
  pose proof (categorize_label title summary) as H.
  split; [exact H|]. split; [apply areas_labels_nonempty, H|reflexivity].
Qed.

Lemma lowerChar_idempotent (c : ascii) : lowerChar (lowerChar c) = lowerChar c.
Proof. destruct c as [[] [] [] [] [] [] [] []]; reflexivity. Qed.

Lemma toLowerCase_idempotent (s : string) : toLowerCase (toLowerCase s) = toLowerCase s.
Proof.
  induction s as [|c s IH]; [reflexivity|].
  cbn [toLowerCase]. rewrite lowerChar_idempotent, IH. reflexivity.
Qed.

(** X5.  [categorize] does not see letter case: titles and summaries that
    agree once lowered get the same category; so a text and its lowered
    form do. *)
Theorem categorize_ignores_case (t1 s1 t2 s2 : string) :
  toLowerCase t1 = toLowerCase t2 ->
  toLowerCase s1 = toLowerCase s2 ->
  categorize t1 s1 = categorize t2 s2 /\
  categorize (toLowerCase t1) (toLowerCase s1) = categorize t1 s1.
Proof.
  intros Ht Hs.
  assert (E : forall a b c d, toLowerCase a = toLowerCase c -> toLowerCase b = toLowerCase d ->
                classifierText a b = classifierText c d).
  { intros a b c d Ha Hb. unfold classifierText.
    rewrite !toLowerCase_app, Ha, Hb. reflexivity. }
  unfold categorize. split.
  - rewrite (E t1 s1 t2 s2 Ht Hs). reflexivity.
  - rewrite (E (toLowerCase t1) (toLowerCase s1) t1 s1); [reflexivity| |];
      apply toLowerCase_idempotent.
Qed.

Lemma categorize_ignores_case_witness :
  categorize "LAND TENURE" "Water Rights" = categorize "land tenure" "water rights".
Proof.
  apply (proj1 (categorize_ignores_case "LAND TENURE" "Water Rights"
                  "land tenure" "water rights" eq_refl eq_refl)).
Defined.

Lemma classic_eq_entry (x y : string * list (string * Z)) : x = y \/ x <> y.
Proof.
  assert (D : {x = y} + {x <> y}) by (repeat decide equality).
  destruct D; [left|right]; assumption.
Qed.

(** X6.  A category that scores at least 2 and more than every other
    category of the catalogue is the one returned. *)
Theorem categorize_strict_winner (title summary : string) (a : string * list (string * Z)) :
  In a areas ->
  2 <= categoryScore (classifierText title summary) (snd a) ->
  (forall b, In b areas -> b <> a ->
     categoryScore (classifierText title summary) (snd b)
       < categoryScore (classifierText title summary) (snd a)) ->
  categorize title summary = fst a.
Proof.
  intros Ha H2 Hbest.
  pose proof (topScore_upper (classifierText title summary) areas a Ha) as Hup.
  destruct (categorize_first_top title summary ltac:(lia)) as (k & w & Hk & Hc & Hw & _).
  rewrite Hc. destruct (classic_eq_entry w a) as [->|Hne]; [reflexivity|].
  specialize (Hbest w (nth_error_In _ _ Hk) Hne). lia.
Qed.

Lemma categorize_strict_winner_witness :
  categorize "Land tenure and water rights" "" = "Gender and land and water".
Proof.
  apply (categorize_strict_winner "Land tenure and water rights" "" (nth 5 areas ("", []))).
  - vm_compute. tauto.
  - vm_compute. discriminate.
  - intros b Hb Hne. cbv [areas In] in Hb.
    repeat (destruct Hb as [<-|Hb];
            [first [vm_compute; reflexivity | exfalso; apply Hne; reflexivity]|]).
    destruct Hb.
Defined.

(** ** Main-content extraction *)

(** The loop over the selectors keeps the longest text met, the first one
    among the longest. *)
Lemma candidate_step (ch : Cheerio) (html : string) (best sel : string) :
  exists b1,
    candidateStep ch html (best, String.length best) sel = (b1, String.length b1) /\
    (String.length best <= String.length b1)%nat /\
    (forall parts, partsOf ch html sel = Some parts ->
       (String.length (joinParts parts) <= String.length b1)%nat) /\
    (b1 = best \/ exists parts, partsOf ch html sel = Some parts /\ b1 = joinParts parts).
Proof.
  unfold candidateStep. cbn [snd].
  destruct (partsOf ch html sel) as [parts|] eqn:Ep.
  - destruct (Nat.ltb_spec (String.length best) (String.length (joinParts parts))) as [Hlt|Hge].
    + exists (joinParts parts). repeat split; [lia| |right; exists parts; split; reflexivity].
      intros p Hp. injection Hp as <-. lia.
    + exists best. repeat split; [lia| |left; reflexivity].
      intros p Hp. injection Hp as <-. exact Hge.
  - exists best. repeat split; [lia| |left; reflexivity]. intros p Hp. discriminate.
Qed.

Lemma candidate_scan (ch : Cheerio) (html : string) (sels : list string) :
  forall best : string,
    snd (fold_left (candidateStep ch html) sels (best, String.length best))
      = String.length (fst (fold_left (candidateStep ch html) sels (best, String.length best))) /\
    (String.length best
       <= String.length (fst (fold_left (candidateStep ch html) sels
                                (best, String.length best))))%nat /\
    (forall sel parts, In sel sels -> partsOf ch html sel = Some parts ->
       (String.length (joinParts parts)
          <= String.length (fst (fold_left (candidateStep ch html) sels
                                   (best, String.length best))))%nat) /\
    (fst (fold_left (candidateStep ch html) sels (best, String.length best)) = best \/
     exists sel parts, In sel sels /\ partsOf ch html sel = Some parts /\
                       fst (fold_left (candidateStep ch html) sels
                              (best, String.length best)) = joinParts parts).
Proof.
  induction sels as [|sel sels IH]; intro best.
  - cbn [fold_left fst snd]. repeat split; [lia|intros ? ? []|left; reflexivity].
  - cbn [fold_left].
    destruct (candidate_step ch html best sel) as (b1 & -> & Hb1 & Hsel & Hor1).
    destruct (IH b1) as (E & Hb & Hall & Hor).
    split; [exact E|]. split; [lia|]. split.
    + intros s p [<-|Hs] Hp; [specialize (Hsel p Hp); lia|apply (Hall s p Hs Hp)].
    + destruct Hor as [Hor|(s & p & Hs & Hp & Hor)].
      * rewrite Hor. destruct Hor1 as [->|(p & Hp & ->)]; [left; reflexivity|].
        right. exists sel, p. repeat split; [left; reflexivity|exact Hp].
      * right. exists s, p. repeat split; [right; exact Hs|exact Hp|exact Hor].
Qed.

Lemma length_zero_empty (s : string) : String.length s = 0%nat -> s = "".
Proof. destruct s; [reflexivity|discriminate]. Qed.

Lemma collapse_length (b : bool) (s : string) :
  (String.length (collapse b s) <= String.length s)%nat.
Proof.
  revert b. induction s as [|c s IH]; intro b; [cbn; lia|].
  cbn [collapse]. destruct (isSpace c).
  - destruct b; cbn [String.length]; [specialize (IH true); lia|specialize (IH true); lia].
  - cbn [String.length]. specialize (IH false). lia.
Qed.

Lemma collapse_fixed_no_newline (s : string) :
  forall b, collapse b s = s -> ~ Substring newline s.
Proof.
  induction s as [|x s IH]; intros b H (pre & post & E).
  - destruct pre; discriminate.
  - assert (Hx : isSpace x = true -> x = " "%char /\ collapse true s = s).
    { intro Hs. cbn [collapse] in H. rewrite Hs in H. destruct b.
      - apply (f_equal String.length) in H. pose proof (collapse_length true s).
        cbn [String.length] in H. lia.
      - injection H as <- H. split; [reflexivity|exact H]. }
    destruct pre as [|y pre].
    + cbn in E. injection E as -> _. destruct (Hx eq_refl) as [Hc _]. discriminate.
    + cbn in E. injection E as <- E.
      destruct (isSpace x) eqn:Hs.
      * destruct (Hx eq_refl) as [_ Hc]. apply (IH true Hc). exists pre, post. exact E.
      * cbn [collapse] in H. rewrite Hs in H. injection H as H.
        apply (IH false H). exists pre, post. exact E.
Qed.

Lemma normalizeSpace_normal_form_aux (text : string) :
  trim (normalizeSpace text) = normalizeSpace text /\
  collapse false (normalizeSpace text) = normalizeSpace text /\
  normalizeSpace (normalizeSpace text) = normalizeSpace text.
Proof.
  pose proof (tokens_words text) as Hw.
  rewrite (normalizeSpace_tokens text).
  split; [apply trim_concat, Hw|].
  split; [apply collapse_concat, Hw|apply normalizeSpace_concat, Hw].
Qed.

(** X7.  [extractMainText] returns, normalized, the text of a candidate
    container that is at least as long as that of every other candidate;
    when no candidate has any text, it returns the paragraphs of the page,
    normalized.  The result is in normal form, so the line breaks put
    between the parts do not survive. *)
Theorem extractMainText_longest (ch : Cheerio) (html : string) :
  ((forall sel parts, In sel candidateSelectors -> partsOf ch html sel = Some parts ->
      joinParts parts = "") ->
   extractMainText ch html = normalizeSpace (joinParts (paragraphsOf ch html))) /\
  ((exists sel parts, In sel candidateSelectors /\ partsOf ch html sel = Some parts /\
                      joinParts parts <> "") ->
   exists sel parts,
     In sel candidateSelectors /\ partsOf ch html sel = Some parts /\
     extractMainText ch html = normalizeSpace (joinParts parts) /\
     forall sel' parts', In sel' candidateSelectors -> partsOf ch html sel' = Some parts' ->
       (String.length (joinParts parts') <= String.length (joinParts parts))%nat) /\
  normalizeSpace (extractMainText ch html) = extractMainText ch html /\
  includes (extractMainText ch html) newline = false.
Proof.
  pose proof (candidate_scan ch html candidateSelectors "") as H.
  change (String.length "") with 0%nat in H.
  unfold extractMainText.
  destruct (fold_left (candidateStep ch html) candidateSelectors ("", 0%nat))
    as [best bestLen] eqn:Es.
  cbn [fst snd] in H. destruct H as (E & _ & Hall & Hor).
  split; [|split; [|split]].
  - intro Hempty.
    assert (Hb : best = "").
    { destruct Hor as [->|(s & p & Hs & Hp & ->)]; [reflexivity|apply (Hempty s p Hs Hp)]. }
    rewrite Hb. reflexivity.
  - intros (s0 & p0 & Hs0 & Hp0 & Hne).
    assert (Hlen : (0 < String.length best)%nat).
    { specialize (Hall s0 p0 Hs0 Hp0).
      destruct (joinParts p0) as [|c t]; [contradiction|]. cbn [String.length] in Hall. lia. }
    destruct best as [|c best]; [cbn in Hlen; lia|]. cbn [truthy negb].
    destruct Hor as [Hor|(s & p & Hs & Hp & Eb)]; [discriminate|].
    exists s, p. rewrite <- Eb. repeat split; try assumption.
  - apply normalizeSpace_idempotent.
  - destruct (includes _ newline) eqn:Ei; [|reflexivity].
    exfalso. apply includes_iff in Ei. revert Ei.
    apply (collapse_fixed_no_newline _ false).
    apply (proj1 (proj2 (normalizeSpace_normal_form_aux _))).
Qed.

Lemma extractMainText_longest_witness :
  exists sel parts,
    In sel candidateSelectors /\ partsOf sampleCheerio "" sel = Some parts /\
    extractMainText sampleCheerio "" = normalizeSpace (joinParts parts) /\
    forall sel' parts', In sel' candidateSelectors -> partsOf sampleCheerio "" sel' = Some parts' ->
      (String.length (joinParts parts') <= String.length (joinParts parts))%nat.
Proof.
  apply (proj1 (proj2 (extractMainText_longest sampleCheerio ""))).
  exists "article", ["Women lead  the cooperative."; "   "; "Fish sales rose."].
  repeat split; [vm_compute; tauto|vm_compute; discriminate].
Defined.

Example extractMainText_sample :
  extractMainText sampleCheerio "" = "Women lead the cooperative. Fish sales rose.".
Proof. vm_compute. reflexivity. Qed.

(** ** The summarize route *)

Lemma summarizeWithAgent_some (w : Web) (url title content summary category : string) :
  summarizeWithAgent w url title content = Some (summary, category) ->
  apiKey w <> "" /\ summary <> "" /\ normalizeSpace summary = summary /\ category <> "".
Proof.
  unfold summarizeWithAgent.
  destruct (apiKey w) as [|k key] eqn:Ek; cbn [truthy negb]; [discriminate|].
  destruct (chat w url title _) as [| |s c]; try discriminate.
  destruct (normalizeSpace s) as [|x t] eqn:Es; cbn [truthy negb]; [discriminate|].
  intro H. injection H as <- <-.
  split; [discriminate|]. split; [discriminate|].
  split; [rewrite <- Es; apply normalizeSpace_idempotent|].
  unfold orElse. destruct (normalizeSpace c) as [|y u] eqn:Ec; cbn [truthy]; [|discriminate].
  apply areas_labels_nonempty, categorize_label.
Qed.

(** X8.  Without a key for the completion service the remote adapter is
    never available; and for every request on which it is unavailable
    (it yields nothing for the url, the title and the main text of the page
    that the request fetches), asking for the agent changes nothing: the
    route answers as it does for the heuristic request. *)
Theorem POST_agent_unavailable (w : Web) :
  (apiKey w = "" -> forall url title content, summarizeWithAgent w url title content = None) /\
  (forall url : option string,
     (forall status html,
        fetchPage w (trim (orEmpty url)) = PageAnswer true status html ->
        summarizeWithAgent w (trim (orEmpty url))
          (pageTitle (cheerio w) html (trim (orEmpty url)))
          (extractMainText (cheerio w) html) = None) ->
     POST w (Fields url true) = POST w (Fields url false)).
Proof.
  split.
  - intros Hk url title content. unfold summarizeWithAgent. rewrite Hk. reflexivity.
  - intros url Hnone. unfold POST.
    destruct (negb (truthy (trim (orEmpty url))) || negb (Items.isHttp (trim (orEmpty url))));
      [reflexivity|].
    destruct (fetchPage w (trim (orEmpty url))) as [|ok status html] eqn:Hf; [reflexivity|].
    destruct ok; cbn [negb]; [|reflexivity].
    rewrite (Hnone status html eq_refl). reflexivity.
Qed.

Lemma POST_agent_unavailable_witness :
  POST agentDownWeb (Fields (Some "https://example.org/a") true)
  = POST agentDownWeb (Fields (Some "https://example.org/a") false).
Proof.
  apply (proj2 (POST_agent_unavailable agentDownWeb) (Some "https://example.org/a")).
  intros status html _. reflexivity.
Defined.

(** X9.  A payload of the route never has an empty title or category; its
    url is the trimmed url of the request, an http or https one, whose page
    was fetched with an ok status.  With the heuristic method the summary
    is the extractive summary of the page's main text and the category is
    a label of the catalogue; with the agent method the agent was asked
    for, a key is configured, and the summary is not empty and is
    normalized. *)
Theorem POST_payload_sound (w : Web) (req : SummarizeRequest) (p : SummarizeResponse) :
  POST w req = Payload p ->
  r_url p = trim (orEmpty (req_url req)) /\
  Items.isHttp (r_url p) = true /\
  r_title p <> "" /\
  r_category p <> "" /\
  exists status html,
    fetchPage w (r_url p) = PageAnswer true status html /\
    (r_method p = heuristic ->
       r_summary p = summarizeExtractive (extractMainText (cheerio w) html) 5 /\
       In (r_category p) (map fst areas)) /\
    (r_method p = agent ->
       req_agent req = true /\ apiKey w <> "" /\
       r_summary p <> "" /\ normalizeSpace (r_summary p) = r_summary p).
Proof.
  unfold POST. destruct req as [|url wantAgent]; [discriminate|].
  cbn [req_url req_agent]. set (u := trim (orEmpty url)).
  destruct (truthy u) eqn:Hu; cbn [negb orb]; [|discriminate].
  destruct (Items.isHttp u) eqn:Hh; cbn [negb]; [|discriminate].
  destruct (fetchPage w u) as [|ok status html] eqn:Hf; [discriminate|].
  destruct ok; cbn [negb]; [|discriminate].
  set (title := pageTitle (cheerio w) html u).
  set (content := extractMainText (cheerio w) html).
  set (summary := summarizeExtractive content 5).
  set (category := categorize title (orElse summary content)).
  assert (Ht : title <> "").
  { unfold title, pageTitle, orElse.
    destruct (truthy (normalizeSpace (titleOf (cheerio w) html))) eqn:E1.
    - intro H. rewrite H in E1. discriminate.
    - destruct (truthy (normalizeSpace (headingOf (cheerio w) html))) eqn:E2.
      + intro H. rewrite H in E2. discriminate.
      + intro H. rewrite H in Hu. discriminate. }
  assert (Hc : In category (map fst areas)) by apply categorize_label.
  assert (Heur : forall p0,
            Payload {| r_title := title; r_url := u; r_summary := summary;
                       r_category := category; r_method := heuristic |} = Payload p0 ->
            r_url p0 = u /\ Items.isHttp (r_url p0) = true /\ r_title p0 <> "" /\
            r_category p0 <> "" /\
            exists status html,
              fetchPage w (r_url p0) = PageAnswer true status html /\
              (r_method p0 = heuristic ->
                 r_summary p0 = summarizeExtractive (extractMainText (cheerio w) html) 5 /\
                 In (r_category p0) (map fst areas)) /\
              (r_method p0 = agent ->
                 wantAgent = true /\ apiKey w <> "" /\
                 r_summary p0 <> "" /\ normalizeSpace (r_summary p0) = r_summary p0)).
  { intros p0 E. injection E as <-. cbn [r_url r_title r_category r_method r_summary].
    repeat split; try assumption; [apply areas_labels_nonempty, Hc|].
    exists status, html. repeat split; try assumption; discriminate. }
  destruct wantAgent eqn:Ha; [|apply Heur].
  destruct (summarizeWithAgent w u title content) as [[aiSummary aiCategory]|] eqn:Eai;
    [|apply Heur].
  destruct (summarizeWithAgent_some _ _ _ _ _ _ Eai) as (Hk & Hs & Hn & Hcat).
  destruct aiSummary as [|c0 s0]; [contradiction|]. cbn [truthy].
  intro E. injection E as <-. cbn [r_url r_title r_category r_method r_summary].
  repeat split; try assumption.
  - unfold orElse. destruct aiCategory; [contradiction|]. cbn [truthy]. discriminate.
  - exists status, html. repeat split; try assumption; try discriminate.
Qed.

Lemma POST_payload_sound_witness :
  r_title {| r_title := "Fisheries news"; r_url := "https://example.org/a";
             r_summary := "Women lead the cooperative. Fish sales rose.";
             r_category := "Gender in fisheries and aquaculture";
             r_method := heuristic |} <> "".
Proof.
  refine (proj1 (proj2 (proj2 (POST_payload_sound sampleWeb
            (Fields (Some " https://example.org/a ") true) _ _)))).
  vm_compute. reflexivity.
Defined.


(** ** The listing route, again *)

Lemma length_append (a b : string) :
  String.length (a ++ b) = (String.length a + String.length b)%nat.
Proof. induction a as [|c a IH]; cbn; [reflexivity|rewrite IH; reflexivity]. Qed.

Lemma substring_0_split (n : nat) (s : string) :
  exists post, s = substring 0 n s ++ post /\
               String.length (substring 0 n s) = Nat.min n (String.length s).
Proof.
  revert s. induction n as [|n IH]; intro s.
  - exists s. destruct s; split; reflexivity.
  - destruct s as [|c s]; [exists ""; split; reflexivity|].
    destruct (IH s) as (post & E & L). exists post. cbn [substring append String.length].
    split; [f_equal; exact E|rewrite L; reflexivity].
Qed.

Lemma trimEnd_split (s : string) : exists post, s = trimEnd s ++ post.
Proof.
  induction s as [|c s (post & E)]; [exists ""; reflexivity|].
  cbn [trimEnd]. destruct (trimEnd s) as [|d t] eqn:Et.
  - destruct (isSpace c); [exists (String c s); reflexivity|].
    exists s. reflexivity.
  - exists post. cbn [append]. f_equal. exact E.
Qed.

Lemma trimEnd_idempotent (s : string) : trimEnd (trimEnd s) = trimEnd s.
Proof.
  induction s as [|c s IH]; [reflexivity|].
  cbn [trimEnd]. destruct (trimEnd s) as [|d t] eqn:Et.
  - destruct (isSpace c) eqn:Ec; [reflexivity|]. cbn [trimEnd]. rewrite Ec. reflexivity.
  - cbn [trimEnd] in *. rewrite IH. reflexivity.
Qed.

(** X11.  [makeShortSummary] leaves a text of at most 240 characters as
    it is, trimmed; a longer one becomes a beginning of the trimmed text of
    at most 239 characters, without white space at its end, followed by the
    marker.  The result is empty only for a blank text. *)
Theorem makeShortSummary_bounded (marker s : string) :
  ((String.length (trim s) <= 240)%nat -> Items.makeShortSummary marker s = trim s) /\
  ((240 < String.length (trim s))%nat ->
   exists cut rest,
     Items.makeShortSummary marker s = cut ++ marker /\
     trim s = cut ++ rest /\
     (String.length cut <= 239)%nat /\
     trimEnd cut = cut) /\
  (Items.makeShortSummary marker s = "" -> trim s = "").
Proof.
  unfold Items.makeShortSummary.
  destruct (trim s) as [|c t] eqn:Et; cbn [truthy negb].
  - repeat split; try reflexivity. cbn. lia.
  - set (text := String c t) in *.
    assert (Hcut : exists cut rest, trimEnd (substring 0 239 text) = cut /\
                     text = cut ++ rest /\ (String.length cut <= 239)%nat /\ trimEnd cut = cut).
    { destruct (substring_0_split 239 text) as (post & E & L).
      destruct (trimEnd_split (substring 0 239 text)) as (post' & E').
      exists (trimEnd (substring 0 239 text)), (post' ++ post).
      split; [reflexivity|]. split; [|split].
      - rewrite <- append_assoc, <- E'. exact E.
      - apply (f_equal String.length) in E'. rewrite length_append in E'. lia.
      - apply trimEnd_idempotent. }
    destruct (Nat.leb_spec (String.length text) 240) as [Hle|Hgt].
    + repeat split; [lia|discriminate].
    + split; [lia|]. split.
      * intros _. destruct Hcut as (cut & rest & E1 & E2 & L & T).
        exists cut, rest. rewrite E1. repeat split; assumption.
      * intro H. exfalso.
        assert (L : (0 < String.length (trimEnd (substring 0 239 text)))%nat).
        { unfold text. cbn [substring]. destruct (isSpace c) eqn:Ec.
          - exfalso. unfold trim in Et.
            assert (F : forall u x v, trimStart u = String x v -> isSpace x = false).
            { clear. induction u as [|y u IH]; intros x v H; [discriminate|].
              cbn [trimStart] in H. destruct (isSpace y) eqn:Ey; [apply (IH _ _ H)|].
              injection H as -> _. exact Ey. }
            destruct (trimStart s) as [|x v] eqn:Es; [discriminate|].
            pose proof (F s x v Es) as Hx.
            rewrite (trimEnd_cons_nonspace x v Hx) in Et. injection Et as -> _. congruence.
          - rewrite (trimEnd_cons_nonspace c _ Ec). cbn. lia. }
        apply (f_equal String.length) in H. rewrite length_append in H.
        change (String.length "") with 0%nat in H. lia.
Qed.

Lemma makeShortSummary_bounded_witness :
  Items.makeShortSummary "..." "  Short text  " = trim "  Short text  ".
Proof.
  apply (proj1 (makeShortSummary_bounded "..." "  Short text  ")). vm_compute. lia.
Defined.

Lemma slice_length {A : Type} (l : list A) (start finish : num) :
  (List.length (JsArray.slice l start finish) <= List.length l)%nat.
Proof.
  unfold JsArray.slice. rewrite length_firstn, length_skipn. lia.
Qed.

Lemma slice_nan_end {A : Type} (l : list A) (start : num) :
  (start = NaN \/ exists o, start = Num o /\ 0 <= o) ->
  JsArray.slice l start NaN = [].
Proof.
  intro H. unfold JsArray.slice, JsArray.clampIndex. cbn [JsNum.toInteger].
  change (0 <? 0) with false. cbv iota.
  assert (K : 0 <= (let r := JsNum.toInteger start in
                    if r <? 0 then Z.max (Z.of_nat (List.length l) + r) 0
                    else Z.min r (Z.of_nat (List.length l)))).
  { destruct H as [->|(o & -> & Ho)]; cbn [JsNum.toInteger]; cbv zeta.
    - change (0 <? 0) with false. cbv iota. lia.
    - destruct (Z.ltb_spec o 0); lia. }
  cbv zeta in K.
  replace (Z.to_nat (Z.min 0 (Z.of_nat (List.length l)) - _)) with 0%nat by lia.
  reflexivity.
Qed.

Lemma limitOf_cases (p : Items.Page) :
  Items.limitOf p = NaN \/ exists l, Items.limitOf p = Num l /\ 1 <= l <= 500.
Proof.
  unfold Items.limitOf.
  destruct (JsNum.parseInt _) as [|n]; [left; reflexivity|].
  right. eexists. split; [reflexivity|]. lia.
Qed.

Lemma offsetOf_cases (p : Items.Page) :
  Items.offsetOf p = NaN \/ exists o, Items.offsetOf p = Num o /\ 0 <= o.
Proof.
  unfold Items.offsetOf.
  destruct (JsNum.parseInt _) as [|n]; [left; reflexivity|].
  right. eexists. split; [reflexivity|]. lia.
Qed.

(** X12.  Whatever the [limit] and [offset] parameters hold, numbers or
    not, a page of the listing has at most 500 items and no more items than
    [total]. *)
Theorem listing_page_size (localeCompare : string -> string -> num) (marker : string)
    (rows : list Row) (q : Query) (p : Items.Page) :
  (List.length (Items.items (Items.listing localeCompare marker rows q p)) <= 500)%nat /\
  Z.of_nat (List.length (Items.items (Items.listing localeCompare marker rows q p)))
    <= Items.total (Items.listing localeCompare marker rows q p).
Proof.
  unfold Items.listing.
  destruct (List.length rows =? 0)%nat; [cbn; split; lia|].
  cbn [Items.items Items.total]. rewrite length_map.
  set (sorted := JsArray.sort (Items.compareRows localeCompare)
                   (filter (Items.keep (filtersOf q)) rows)).
  assert (Ls : List.length sorted = List.length (filter (Items.keep (filtersOf q)) rows))
    by apply sort_length.
  split; [|rewrite <- Ls; pose proof (slice_length sorted (Items.offsetOf p)
             (JsNum.add (Items.offsetOf p) (Items.limitOf p))); lia].
  destruct (limitOf_cases p) as [->|(l & -> & Hl)];
    destruct (offsetOf_cases p) as [Ho|(o & Ho & Ho0)]; rewrite ?Ho; cbn [JsNum.add].
  - rewrite slice_nan_end; [cbn; lia|left; reflexivity].
  - rewrite slice_nan_end; [cbn; lia|right; eauto].
  - rewrite slice_nan_end; [cbn; lia|left; reflexivity].
  - change (Num (o + l)) with (JsNum.add (Num o) (Num l)).
    rewrite slice_window by lia. rewrite length_firstn. lia.
Qed.

Lemma sorted_trivial {A : Type} (l : list A) : StronglySorted (fun _ _ => True) l.
Proof. induction l; constructor; [assumption|apply Forall_forall; trivial]. Qed.

Lemma sorted_firstn {A : Type} (R : A -> A -> Prop) (n : nat) (l : list A) :
  StronglySorted R l -> StronglySorted R (firstn n l).
Proof.
  intro H. revert n. induction H as [|x l Hs IH Hx]; intros [|n]; cbn [firstn]; try constructor.
  - apply IH.
  - rewrite Forall_forall in *. intros y Hy. apply Hx.
    rewrite <- (firstn_skipn n l). apply in_or_app. left. exact Hy.
Qed.

Lemma sorted_skipn {A : Type} (R : A -> A -> Prop) (n : nat) (l : list A) :
  StronglySorted R l -> StronglySorted R (skipn n l).
Proof.
  intro H. revert n. induction H as [|x l Hs IH Hx]; intros [|n]; cbn [skipn];
    try constructor; try assumption. apply IH.
Qed.

Lemma isSafeInteger_number (n : num) : JsNum.isSafeInteger n = true -> n <> NaN.
Proof. destruct n; [discriminate|intros _; discriminate]. Qed.

(** The listing's comparator puts the greater date key first, whatever
    [localeCompare] answers on the titles. *)
Lemma compareRows_sorted (localeCompare : string -> string -> num) (l : list Row) :
  Forall (fun r => Items.dateKey r <> NaN) l ->
  StronglySorted (fun a b => JsNum.toInteger (Items.dateKey b) <= JsNum.toInteger (Items.dateKey a))
                 (JsArray.sort (Items.compareRows localeCompare) l).
Proof.
  intro HP.
  apply (sort_sorted_on (Items.compareRows localeCompare) _)
    with (P := fun r => Items.dateKey r <> NaN) (earlier := fun _ _ => True).
  - intros x y z. lia.
  - intros x y Px Py. unfold JsArray.before, Items.compareRows.
    destruct (Items.dateKey x) as [|a]; [contradiction|].
    destruct (Items.dateKey y) as [|b]; [contradiction|].
    cbn [JsNum.neqb JsNum.sub JsNum.toInteger].
    destruct (Z.eqb_spec a b) as [->|Hne]; cbn [negb]; [lia|].
    intro H. apply Z.ltb_lt in H. lia.
  - intros x y Px Py _. unfold JsArray.before, Items.compareRows.
    destruct (Items.dateKey x) as [|a]; [contradiction|].
    destruct (Items.dateKey y) as [|b]; [contradiction|].
    cbn [JsNum.neqb JsNum.sub JsNum.toInteger].
    destruct (Z.eqb_spec a b) as [->|Hne]; cbn [negb]; [lia|].
    intro H. apply Z.ltb_ge in H. lia.
  - exact HP.
  - apply sorted_trivial.
Qed.

Lemma in_firstn_skipn {A : Type} (a b : nat) (l : list A) (x : A) :
  In x (firstn a (skipn b l)) -> In x l.
Proof.
  intro H. rewrite <- (firstn_skipn b l). apply in_or_app. right.
  rewrite <- (firstn_skipn a (skipn b l)). apply in_or_app. left. exact H.
Qed.

(** X13.  When the date key of every record is a safe integer (a number
    that JavaScript holds exactly, as the key of a date of up to 15 digits
    is), a page of the listing shows records that pass the filters, the
    newest first: each record's date key is at least that of the records
    after it (a record without date has key 0 and comes last). *)
Theorem listing_newest_first (localeCompare : string -> string -> num) (marker : string)
    (rows : list Row) (q : Query) (p : Items.Page) :
  Forall (fun r => JsNum.isSafeInteger (Items.dateKey r) = true) rows ->
  exists page,
    Items.items (Items.listing localeCompare marker rows q p) = map (Items.compact marker) page /\
    StronglySorted
      (fun a b => JsNum.toInteger (Items.dateKey b) <= JsNum.toInteger (Items.dateKey a)) page /\
    Forall (fun r => In r rows /\ Items.keep (filtersOf q) r = true) page.
Proof.
  intro HP. unfold Items.listing.
  destruct (List.length rows =? 0)%nat.
  - exists []. repeat split; constructor.
  - cbn [Items.items].
    set (filtered := filter (Items.keep (filtersOf q)) rows).
    exists (JsArray.slice (JsArray.sort (Items.compareRows localeCompare) filtered)
              (Items.offsetOf p) (JsNum.add (Items.offsetOf p) (Items.limitOf p))).
    split; [reflexivity|]. split.
    + unfold JsArray.slice. apply sorted_firstn, sorted_skipn, compareRows_sorted.
      apply Forall_forall. intros r Hr. apply filter_In in Hr.
      rewrite Forall_forall in HP. apply isSafeInteger_number, HP, Hr.
    + apply Forall_forall. intros r Hr. unfold JsArray.slice in Hr.
      apply filter_In.
      apply (Permutation_in _ (sort_perm (Items.compareRows localeCompare) filtered)).
      apply (in_firstn_skipn _ _ _ _ Hr).
Qed.

Lemma listing_newest_first_witness :
  exists page,
    Items.items (Items.listing JsArray.compareStrings "..." [rowFisheries; rowPublication; rowLand]
                   noFilters (Items.mkPage None None))
      = map (Items.compact "...") page /\
    StronglySorted
      (fun a b => JsNum.toInteger (Items.dateKey b) <= JsNum.toInteger (Items.dateKey a)) page /\
    Forall (fun r => In r [rowFisheries; rowPublication; rowLand] /\
                     Items.keep (filtersOf noFilters) r = true) page.
Proof.
  apply (listing_newest_first JsArray.compareStrings "..."
           [rowFisheries; rowPublication; rowLand] noFilters (Items.mkPage None None)).
  repeat constructor.
Defined.

Lemma firstn_add {A : Type} (a b : nat) (l : list A) :
  firstn (a + b) l = (firstn a l ++ firstn b (skipn a l))%list.
Proof.
  revert l. induction a as [|a IH]; intro l; [reflexivity|].
  destruct l as [|x l]; cbn [Nat.add firstn skipn app].
  - rewrite firstn_nil. reflexivity.
  - rewrite IH. reflexivity.
Qed.

(** X14.  Consecutive pages tile the listing: the page at [offset] with
    limit [l1] followed by the page at [offset + l1] with limit [l2] is the
    page at [offset] with limit [l1 + l2]; no record is skipped or shown
    twice. *)
Theorem listing_pages_tile (localeCompare : string -> string -> num) (marker : string)
    (rows : list Row) (q : Query) (p1 p2 p12 : Items.Page) (o l1 l2 : Z) :
  0 <= o -> 0 <= l1 -> 0 <= l2 ->
  Items.offsetOf p1 = Num o -> Items.limitOf p1 = Num l1 ->
  Items.offsetOf p2 = Num (o + l1) -> Items.limitOf p2 = Num l2 ->
  Items.offsetOf p12 = Num o -> Items.limitOf p12 = Num (l1 + l2) ->
  (Items.items (Items.listing localeCompare marker rows q p1)
   ++ Items.items (Items.listing localeCompare marker rows q p2))%list
  = Items.items (Items.listing localeCompare marker rows q p12).
Proof.
  intros Ho Hl1 Hl2 O1 L1 O2 L2 O12 L12.
  destruct rows as [|r rows]; [reflexivity|].
  destruct (listing_page localeCompare marker (r :: rows) q p1 l1 o ltac:(discriminate)
              L1 Hl1 O1 Ho) as [-> _].
  destruct (listing_page localeCompare marker (r :: rows) q p2 l2 (o + l1) ltac:(discriminate)
              L2 Hl2 O2 ltac:(lia)) as [-> _].
  destruct (listing_page localeCompare marker (r :: rows) q p12 (l1 + l2) o ltac:(discriminate)
              L12 ltac:(lia) O12 Ho) as [-> _].
  rewrite <- map_app. f_equal.
  rewrite (Z2Nat.inj_add l1 l2 Hl1 Hl2), firstn_add.
  f_equal. rewrite skipn_skipn. f_equal. f_equal. lia.
Qed.

Lemma listing_pages_tile_witness :
  (Items.items (Items.listing JsArray.compareStrings "..." [rowFisheries; rowPublication; rowLand]
                  noFilters (Items.mkPage (Some "1") (Some "0")))
   ++ Items.items (Items.listing JsArray.compareStrings "..."
                     [rowFisheries; rowPublication; rowLand]
                     noFilters (Items.mkPage (Some "2") (Some "1"))))%list
  = Items.items (Items.listing JsArray.compareStrings "..." [rowFisheries; rowPublication; rowLand]
                   noFilters (Items.mkPage (Some "3") (Some "0"))).
Proof.
  apply (listing_pages_tile JsArray.compareStrings "..." [rowFisheries; rowPublication; rowLand]
           noFilters _ _ _ 0 1 2); try lia; reflexivity.
Defined.

(** ** Filters and data sets, again *)

Lemma filter_all {A : Type} (f : A -> bool) (l : list A) :
  (forall x, In x l -> f x = true) -> filter f l = l.
Proof.
  induction l as [|x l IH]; intro H; [reflexivity|]. cbn [filter].
  rewrite (H x (or_introl eq_refl)), IH; [reflexivity|].
  intros y Hy. apply H. right. exact Hy.
Qed.

(** X15.  A query without any active filter (each parameter absent, blank
    or, for section and category, "all") counts every record of the corpus
    in both routes, dated or not. *)
Theorem unfiltered_total (localeCompare : string -> string -> num) (marker : string)
    (usedPaths : list string) (rows : list Row) (q : Query) (p : Items.Page) :
  filtersOf q = {| fSection := ""; fCategory := ""; fQ := ""; fStart := ""; fEnd := "" |} ->
  Stats.total (Stats.aggregate usedPaths rows q) = Z.of_nat (List.length rows) /\
  Items.total (Items.listing localeCompare marker rows q p) = Z.of_nat (List.length rows).
Proof.
  intro Hf. unfold Stats.aggregate, Items.listing. rewrite Hf.
  destruct rows as [|r rows]; [split; reflexivity|].
  cbn [List.length Nat.eqb Stats.total Items.total].
  rewrite !filter_all; [split; reflexivity| |]; intros x _; reflexivity.
Qed.

Lemma unfiltered_total_witness :
  Stats.total (Stats.aggregate [] [rowFisheries; rowPublication; blankRow]
                 {| p_section := Some " ALL "; p_category := Some "all"; p_q := Some "  ";
                    p_startYm := None; p_endYm := Some "" |}) = 3 /\
  Items.total (Items.listing JsArray.compareStrings "..." [rowFisheries; rowPublication; blankRow]
                 {| p_section := Some " ALL "; p_category := Some "all"; p_q := Some "  ";
                    p_startYm := None; p_endYm := Some "" |} (Items.mkPage None None)) = 3.
Proof.
  apply (unfiltered_total JsArray.compareStrings "..." [] [rowFisheries; rowPublication; blankRow]).
  reflexivity.
Defined.

Lemma stats_load_step_rows (w : World) (p : string) :
  snd (Stats.loadStep w ([], []) p) = fileItems w p.
Proof. rewrite stats_loadStep_fileItems. reflexivity. Qed.

(** X16.  A data set named by the [csv] parameter is the only one read,
    and one named by the environment is the only one read when [csv] is
    empty: the default data sets are not consulted.  A data set that cannot
    be read leaves the corpus empty. *)
Theorem dataset_override (w : World) (csvParam : string) :
  (csvParam <> "" ->
   Items.loadRows w csvParam = sourceItems w csvParam /\
   Stats.load w csvParam = Stats.loadStep w ([], []) csvParam /\
   snd (Stats.load w csvParam) = fileItems w csvParam) /\
  (csvParam = "" -> envJsonPath w <> "" ->
   Items.loadRows w csvParam = sourceItems w (envJsonPath w) /\
   snd (Stats.load w csvParam) = fileItems w (envJsonPath w)).
Proof.
  split.
  - intro H. destruct csvParam as [|c s]; [contradiction|].
    unfold Items.loadRows, Stats.load. cbn [truthy].
    rewrite items_tryRead_sourceItems, stats_load_step_rows. repeat split.
  - intros -> He. destruct (envJsonPath w) as [|c s] eqn:E; [contradiction|].
    unfold Items.loadRows, Stats.load. rewrite E. cbn [truthy].
    rewrite items_tryRead_sourceItems, stats_load_step_rows. repeat split.
Qed.

Lemma dataset_override_witness :
  Items.loadRows sampleWorld "/app/public/news.json" = [rowFisheries; rowLand].
Proof.
  destruct (proj1 (dataset_override sampleWorld "/app/public/news.json") ltac:(discriminate))
    as [H _].
  rewrite H. reflexivity.
Defined.

Lemma sourceItems_file (w : World) (p : string) :
  Items.isHttp p = false -> sourceItems w p = fileItems w p.
Proof. intro H. unfold sourceItems. rewrite H. reflexivity. Qed.

(** X17.  When no location consulted is an http or https address, the two
    routes build the same corpus: the statistics route only reads files,
    the listing route also fetches addresses. *)
Theorem routes_same_corpus (w : World) (csvParam : string) :
  Items.isHttp csvParam = false ->
  Items.isHttp (envJsonPath w) = false ->
  Forall (fun p => Items.isHttp p = false) (defaultPublicPaths w) ->
  Items.loadRows w csvParam = snd (Stats.load w csvParam).
Proof.
  intros Hc He Hd. unfold Items.loadRows, Stats.load.
  destruct (truthy csvParam).
  - rewrite items_tryRead_sourceItems, stats_load_step_rows. apply sourceItems_file, Hc.
  - destruct (truthy (envJsonPath w)).
    + rewrite items_tryRead_sourceItems, stats_load_step_rows. apply sourceItems_file, He.
    + unfold Items.mergeAll, Stats.mergeAll.
      rewrite items_merge_from, stats_merge_from. cbn [snd app].
      induction Hd as [|p ps Hp Hps IH]; [reflexivity|].
      cbn [flat_map]. rewrite IH, (sourceItems_file w p Hp). reflexivity.
Qed.

Lemma routes_same_corpus_witness :
  Items.loadRows sampleWorld "" = snd (Stats.load sampleWorld "").
Proof.
  apply (routes_same_corpus sampleWorld ""); [reflexivity|reflexivity|].
  repeat constructor.
Defined.

(** ** Year-month labels and the range filter *)

Lemma isDigit_facts (c : ascii) :
  JsNum.isDigit c = true ->
  isSpace c = false /\ Ascii.eqb c "-" = false /\ 0 <= JsNum.digitValue c <= 9 /\
  forall s, JsNum.parseInt (String c s)
            = match JsNum.readDigits (Some (JsNum.digitValue c)) s with
              | Some n => Num n
              | None => NaN
              end.
Proof.
  destruct c as [[] [] [] [] [] [] [] []]; intro H; try discriminate H;
    (split; [reflexivity|split; [reflexivity|split; [cbv; split; discriminate|]]]);
    intro s; reflexivity.
Qed.

Lemma readDigits_digits (s : string) :
  forall acc, JsNum.allDigits s = true ->
    JsNum.readDigits (Some acc) s = Some (decimalValue acc s).
Proof.
  induction s as [|c s IH]; intros acc H; [reflexivity|].
  cbn [JsNum.allDigits] in H. apply andb_true_iff in H. destruct H as [Hc Hs].
  cbn [JsNum.readDigits decimalValue]. rewrite Hc. apply IH, Hs.
Qed.

(** [parseInt] reads a string of digits as the number it writes. *)
Lemma parseInt_digits (c : ascii) (s : string) :
  JsNum.allDigits (String c s) = true ->
  JsNum.parseInt (String c s) = Num (decimalValue 0 (String c s)).
Proof.
  intro H. cbn [JsNum.allDigits] in H. apply andb_true_iff in H. destruct H as [Hc Hs].
  destruct (isDigit_facts c Hc) as (_ & _ & _ & Hp).
  rewrite Hp, (readDigits_digits s _ Hs). reflexivity.
Qed.

Lemma decimalValue_split (s : string) :
  forall acc, JsNum.allDigits s = true ->
    decimalValue acc s = acc * 10 ^ Z.of_nat (String.length s) + decimalValue 0 s /\
    0 <= decimalValue 0 s < 10 ^ Z.of_nat (String.length s).
Proof.
  induction s as [|c s IH]; intros acc H.
  - cbn. lia.
  - cbn [JsNum.allDigits] in H. apply andb_true_iff in H. destruct H as [Hc Hs].
    destruct (isDigit_facts c Hc) as (_ & _ & Hd & _).
    cbn [decimalValue String.length].
    destruct (IH (10 * acc + JsNum.digitValue c) Hs) as [E1 B].
    destruct (IH (10 * 0 + JsNum.digitValue c) Hs) as [E2 _].
    rewrite E1, E2.
    rewrite Nat2Z.inj_succ, Z.pow_succ_r by lia.
    set (P := 10 ^ Z.of_nat (String.length s)) in *.
    split; [ring|]. nia.
Qed.

(** Digit strings of the same length compare as the numbers they write. *)
Lemma compare_digits (x : string) :
  forall y, JsNum.allDigits x = true -> JsNum.allDigits y = true ->
    String.length x = String.length y ->
    String.compare x y = Z.compare (decimalValue 0 x) (decimalValue 0 y).
Proof.
  induction x as [|c x IH]; intros [|d y] Hx Hy Hl; try discriminate Hl; [reflexivity|].
  cbn [String.length] in Hl. injection Hl as Hl.
  pose proof Hx as Hx'. pose proof Hy as Hy'.
  cbn [JsNum.allDigits] in Hx, Hy.
  apply andb_true_iff in Hx. destruct Hx as [Hc Hxs].
  apply andb_true_iff in Hy. destruct Hy as [Hd Hys].
  destruct (isDigit_facts c Hc) as (_ & _ & Bc & _).
  destruct (isDigit_facts d Hd) as (_ & _ & Bd & _).
  cbn [String.compare decimalValue].
  destruct (decimalValue_split x (10 * 0 + JsNum.digitValue c) Hxs) as [Ex Bx].
  destruct (decimalValue_split y (10 * 0 + JsNum.digitValue d) Hys) as [Ey By].
  rewrite Ex, Ey, <- Hl. set (P := 10 ^ Z.of_nat (String.length x)) in *.
  rewrite <- Hl in By. fold P in By.
  assert (Hcmp : Ascii.compare c d = Z.compare (JsNum.digitValue c) (JsNum.digitValue d)).
  { unfold Ascii.compare, JsNum.digitValue, code.
    rewrite <- N2Z.inj_compare.
    destruct (Z.compare_spec (Z.of_N (N_of_ascii c) - 48) (Z.of_N (N_of_ascii d) - 48));
      [apply Z.compare_eq_iff|apply Z.compare_lt_iff|apply Z.compare_gt_iff]; lia. }
  rewrite Hcmp.
  destruct (Z.compare_spec (JsNum.digitValue c) (JsNum.digitValue d)) as [E|L|G].
  - rewrite E, (IH y Hxs Hys Hl).
    destruct (Z.compare_spec (decimalValue 0 x) (decimalValue 0 y));
      symmetry; [apply Z.compare_eq_iff|apply Z.compare_lt_iff|apply Z.compare_gt_iff]; lia.
  - symmetry. apply Z.compare_lt_iff. nia.
  - symmetry. apply Z.compare_gt_iff. nia.
Qed.

Lemma andb7 (a b c d e f g : bool) :
  a && b && c && d && e && f && g = true ->
  a = true /\ b = true /\ c = true /\ d = true /\ e = true /\ f = true /\ g = true.
Proof. destruct a, b, c, d, e, f, g; cbn; intro H; try discriminate H; repeat split. Qed.

Lemma andb4 (a b c d : bool) :
  a && b && c && d = true -> a = true /\ b = true /\ c = true /\ d = true.
Proof. destruct a, b, c, d; cbn; intro H; try discriminate H; repeat split. Qed.

Lemma isYm_key (a : string) :
  isYm a = true ->
  exists y m,
    a = y ++ String "-" m /\
    JsNum.allDigits y = true /\ String.length y = 4%nat /\
    JsNum.allDigits m = true /\ String.length m = 2%nat /\
    removeFirstDash a = y ++ m /\
    Stats.ymKey a = Num (decimalValue 0 (y ++ m)).
Proof.
  destruct a as [|c1 [|c2 [|c3 [|c4 [|c5 [|c6 [|c7 [|c8 a]]]]]]]]; try discriminate.
  cbn [isYm]. intro H.
  apply andb7 in H. destruct H as (H1 & H2 & H3 & H4 & H5 & H6 & H7).
  apply Ascii.eqb_eq in H5. subst c5.
  exists (String c1 (String c2 (String c3 (String c4 "")))), (String c6 (String c7 "")).
  destruct (isDigit_facts c1 H1) as (_ & D1 & _ & _).
  destruct (isDigit_facts c2 ltac:(assumption)) as (_ & D2 & _ & _).
  destruct (isDigit_facts c3 ltac:(assumption)) as (_ & D3 & _ & _).
  destruct (isDigit_facts c4 ltac:(assumption)) as (_ & D4 & _ & _).
  assert (A6 : JsNum.allDigits
                 (String c1 (String c2 (String c3 (String c4 (String c6 (String c7 "")))))) = true).
  { cbn [JsNum.allDigits]. rewrite H1, H2, H3, H4, H6, H7. reflexivity. }
  assert (R : removeFirstDash
                (String c1 (String c2 (String c3 (String c4 (String "-" (String c6 (String c7 "")))))))
              = String c1 (String c2 (String c3 (String c4 (String c6 (String c7 "")))))).
  { cbn [removeFirstDash]. rewrite D1, D2, D3, D4. reflexivity. }
  split; [reflexivity|].
  split; [cbn [JsNum.allDigits]; rewrite H1, H2, H3, H4; reflexivity|].
  split; [reflexivity|].
  split; [cbn [JsNum.allDigits]; rewrite H6, H7; reflexivity|].
  split; [reflexivity|].
  split; [exact R|].
  { unfold Stats.ymKey.
    destruct (String.eqb_spec
                (String c1 (String c2 (String c3 (String c4 (String "-" (String c6 (String c7 "")))))))
                "Unknown") as [E|_].
    + injection E as -> _. discriminate.
    + rewrite R. apply (parseInt_digits c1 _ A6). }
Qed.

(** On labels of the usual shape, the string comparison of the range
    filter is the comparison of the numeric sort keys. *)
Lemma ltb_isYm (a b : string) :
  isYm a = true -> isYm b = true ->
  String.ltb (removeFirstDash a) (removeFirstDash b)
  = (JsNum.toInteger (Stats.ymKey a) <? JsNum.toInteger (Stats.ymKey b)).
Proof.
  intros Ha Hb.
  destruct (isYm_key a Ha) as (ya & ma & _ & Ay & Ly & Am & Lm & Ra & Ka).
  destruct (isYm_key b Hb) as (yb & mb & _ & By' & Ly' & Bm & Lm' & Rb & Kb).
  rewrite Ra, Rb, Ka, Kb. cbn [JsNum.toInteger].
  assert (D : forall y m, JsNum.allDigits y = true -> JsNum.allDigits m = true ->
                JsNum.allDigits (y ++ m) = true).
  { intros y m Hy Hm. induction y as [|c y IH]; [exact Hm|].
    cbn [JsNum.allDigits append] in *. apply andb_true_iff in Hy. destruct Hy as [Hc Hy].
    rewrite Hc, (IH Hy). reflexivity. }
  unfold String.ltb. rewrite compare_digits.
  - destruct (Z.compare_spec (decimalValue 0 (ya ++ ma)) (decimalValue 0 (yb ++ mb)));
      symmetry; [apply Z.ltb_ge|apply Z.ltb_lt|apply Z.ltb_ge]; lia.
  - apply D; assumption.
  - apply D; assumption.
  - rewrite !length_append. lia.
Qed.

(** X18.  For a label and bounds of the shape YYYY-MM, the range filter
    keeps the label exactly when its numeric sort key lies between those
    of the bounds that are set, both bounds included: the comparison of
    strings agrees with the order of the months. *)
Theorem inRange_calendar (f : Filters) (lbl : string) :
  isYm lbl = true ->
  fStart f = "" \/ isYm (fStart f) = true ->
  fEnd f = "" \/ isYm (fEnd f) = true ->
  inRange f lbl
  = (if truthy (fStart f)
     then JsNum.toInteger (Stats.ymKey (fStart f)) <=? JsNum.toInteger (Stats.ymKey lbl)
     else true)
    && (if truthy (fEnd f)
        then JsNum.toInteger (Stats.ymKey lbl) <=? JsNum.toInteger (Stats.ymKey (fEnd f))
        else true).
Proof.
  intros Hl Hs He. unfold inRange.
  assert (Hu : String.eqb lbl "Unknown" = false).
  { destruct (String.eqb_spec lbl "Unknown") as [->|_]; [discriminate Hl|reflexivity]. }
  assert (S : truthy (fStart f) = true -> isYm (fStart f) = true).
  { destruct Hs as [->|H]; [discriminate|intros _; exact H]. }
  assert (E : truthy (fEnd f) = true -> isYm (fEnd f) = true).
  { destruct He as [->|H]; [discriminate|intros _; exact H]. }
  rewrite Hu.
  destruct (truthy (fStart f)) eqn:Ts; destruct (truthy (fEnd f)) eqn:Te; cbn [negb andb].
  - rewrite (ltb_isYm lbl (fStart f) Hl (S eq_refl)), (ltb_isYm (fEnd f) lbl (E eq_refl) Hl).
    rewrite !Z.leb_antisym.
    destruct (_ <? _); destruct (_ <? _); reflexivity.
  - rewrite (ltb_isYm lbl (fStart f) Hl (S eq_refl)). rewrite Z.leb_antisym.
    destruct (_ <? _); reflexivity.
  - rewrite (ltb_isYm (fEnd f) lbl (E eq_refl) Hl). rewrite Z.leb_antisym.
    destruct (_ <? _); reflexivity.
  - reflexivity.
Qed.

Lemma inRange_calendar_witness :
  inRange {| fSection := ""; fCategory := ""; fQ := ""; fStart := "2023-11"; fEnd := "" |}
          "2024-02" = true.
Proof.
  rewrite (inRange_calendar
             {| fSection := ""; fCategory := ""; fQ := ""; fStart := "2023-11"; fEnd := "" |}
             "2024-02" eq_refl (or_intror eq_refl) (or_introl eq_refl)).
  reflexivity.
Defined.

Lemma fieldPart_years (y : Z) : 1 <= y <= 9999 -> fieldPartOk 4 y = true.
Proof.
  intro H.
  assert (C : forallb (fun n => fieldPartOk 4 (Z.of_nat n)) (seq 1 (Z.to_nat 9999)) = true)
    by (vm_compute; reflexivity).
  rewrite forallb_forall in C. specialize (C (Z.to_nat y)).
  rewrite Z2Nat.id in C by lia. apply C, in_seq. lia.
Qed.

Lemma fieldPart_months (m : Z) : 1 <= m <= 12 -> fieldPartOk 2 m = true.
Proof.
  intro H.
  assert (C : forallb (fun n => fieldPartOk 2 (Z.of_nat n)) (seq 1 12) = true)
    by (vm_compute; reflexivity).
  rewrite forallb_forall in C. specialize (C (Z.to_nat m)).
  rewrite Z2Nat.id in C by lia. apply C, in_seq. lia.
Qed.

(** X19.  For a record without [date_iso] whose [year] and [month] are the
    numbers [y] (1 to 9999) and [m] (1 to 12), the label of the statistics
    route has the shape YYYY-MM, zero-padded, and the key by which labels
    are sorted reads it back as [100 * y + m]. *)
Theorem toYmLabel_year_month_key (r : Row) (y m : Z) :
  trim (orEmpty (date_iso r)) = "" ->
  year r = Some (YmNumber y) -> month r = Some (YmNumber m) ->
  1 <= y <= 9999 -> 1 <= m <= 12 ->
  isYm (Stats.toYmLabel r) = true /\
  Stats.ymKey (Stats.toYmLabel r) = Num (100 * y + m) /\
  String.length (Stats.toYmLabel r) = 7%nat.
Proof.
  intros Hd Hy Hm By Bm.
  rewrite (toYmLabel_without_date_iso r Hd), Hy, Hm.
  pose proof (fieldPart_years y By) as Oy. pose proof (fieldPart_months m Bm) as Om.
  unfold fieldPartOk in Oy, Om.
  apply andb4 in Oy. destruct Oy as (Y1 & Y2 & Y3 & Y4).
  apply andb4 in Om. destruct Om as (M1 & M2 & M3 & M4).
  fold (fieldDigits y) (fieldDigits m). rewrite Y1, M1. cbn [andb].
  fold (fieldPart 4 y) (fieldPart 2 m).
  apply Nat.eqb_eq in Y2, M2. apply Z.eqb_eq in Y4, M4.
  destruct (fieldPart 4 y) as [|c1 [|c2 [|c3 [|c4 [|c5 p4]]]]]; try discriminate Y2.
  destruct (fieldPart 2 m) as [|c6 [|c7 [|c8 p2]]]; try discriminate M2.
  set (lbl := String c1 (String c2 (String c3 (String c4 ""))) ++ "-" ++ String c6 (String c7 "")).
  assert (I : isYm lbl = true).
  { unfold lbl. cbn [append isYm]. cbn [JsNum.allDigits] in Y3, M3.
    rewrite andb_true_r in Y3, M3.
    apply andb_true_iff in Y3. destruct Y3 as (A1 & Y3).
    apply andb_true_iff in Y3. destruct Y3 as (A2 & Y3).
    apply andb_true_iff in Y3. destruct Y3 as (A3 & A4).
    apply andb_true_iff in M3. destruct M3 as (A6 & A7).
    rewrite A1, A2, A3, A4, A6, A7. reflexivity. }
  split; [exact I|]. split; [|reflexivity].
  destruct (isYm_key lbl I) as (yy & mm & E & _ & Ly & _ & Lm & _ & K).
  rewrite K. f_equal.
  assert (Eq : yy = String c1 (String c2 (String c3 (String c4 "")))
               /\ mm = String c6 (String c7 "")).
  { unfold lbl in E. cbn [append] in E.
    destruct yy as [|a1 [|a2 [|a3 [|a4 [|a5 yy]]]]]; try discriminate Ly.
    cbn [append] in E. injection E as -> -> -> -> E. split; [reflexivity|]. symmetry. exact E. }
  destruct Eq as [-> ->].
  cbn [append decimalValue] in *. lia.
Qed.

Lemma toYmLabel_year_month_key_witness :
  Stats.ymKey (Stats.toYmLabel rowPublication) = Num 202307.
Proof.
  apply (toYmLabel_year_month_key rowPublication 2023 7); try reflexivity; lia.
Defined.

(** X20.  For a record whose [date_iso] starts with YYYY-MM and either
    ends there or goes on with a dash, as an ISO date does, the label of
    the statistics route is the first seven characters, whatever [year]
    and [month] hold; the listing route tests the same label, so the range
    filters of the two routes agree on the record. *)
Theorem iso_date_label (r : Row) (d : string) (f : Filters) :
  date_iso r = Some d ->
  isYm (substring 0 7 d) = true ->
  String.length d = 7%nat \/ get 7 d = Some "-"%char ->
  Stats.toYmLabel r = substring 0 7 d /\
  Items.withinYmRange f (orEmpty (date_iso r)) = Stats.withinYmRange f (Stats.toYmLabel r).
Proof.
  intros Hd Hs Ht.
  destruct d as [|c1 [|c2 [|c3 [|c4 [|c5 [|c6 [|c7 rest]]]]]]]; try discriminate Hs.
  cbn [substring] in Hs |- *.
  assert (Hsub : substring 0 0 rest = "") by (destruct rest; reflexivity).
  rewrite Hsub in *.
  pose proof Hs as Hs'. cbn [isYm] in Hs'.
  apply andb7 in Hs'. destruct Hs' as (H1 & H2 & H3 & H4 & H5 & H6 & H7).
  apply Ascii.eqb_eq in H5. subst c5.
  destruct (isDigit_facts c1 H1) as (S1 & D1 & _ & _).
  destruct (isDigit_facts c2 ltac:(assumption)) as (S2 & D2 & _ & _).
  destruct (isDigit_facts c3 ltac:(assumption)) as (S3 & D3 & _ & _).
  destruct (isDigit_facts c4 ltac:(assumption)) as (S4 & D4 & _ & _).
  destruct (isDigit_facts c6 ltac:(assumption)) as (S6 & D6 & _ & _).
  destruct (isDigit_facts c7 ltac:(assumption)) as (S7 & D7 & _ & _).
  assert (L : Stats.toYmLabel r
              = String c1 (String c2 (String c3 (String c4 ""))) ++ "-" ++ String c6 (String c7 "")).
  { apply (toYmLabel_prefers_date_iso r _ _ (trimEnd rest)).
    - rewrite Hd. cbn [orEmpty]. unfold trim. cbn [trimStart]. rewrite S1.
      change (String c1 (String c2 (String c3 (String c4 (String "-" (String c6 (String c7 rest)))))))
        with (String c1 (String c2 (String c3 (String c4 (String "-" (String c6 (String c7 ""))))))
              ++ rest).
      rewrite trimEnd_word_app; [reflexivity|].
      cbn [noSpace]. rewrite S1, S2, S3, S4, S6, S7. reflexivity.
    - cbn [hasDash]. rewrite D1, D2, D3, D4. reflexivity.
    - cbn [hasDash]. rewrite D6, D7. reflexivity.
    - discriminate.
    - discriminate.
    - destruct Ht as [Ht|Ht].
      + destruct rest; [left; reflexivity|discriminate Ht].
      + destruct rest as [|x rest]; [discriminate Ht|]. cbn in Ht. injection Ht as ->.
        right. exists (trimEnd rest). apply (trimEnd_cons_nonspace "-" rest eq_refl). }
  split; [exact L|].
  rewrite L, Hd. unfold Items.withinYmRange, Stats.withinYmRange. cbn [orEmpty substring].
  rewrite Hsub. reflexivity.
Qed.

Lemma iso_date_label_witness :
  Stats.toYmLabel rowFisheries = "2024-01".
Proof.
  apply (proj1 (iso_date_label rowFisheries "2024-01-10"
                  {| fSection := ""; fCategory := ""; fQ := ""; fStart := ""; fEnd := "" |}
                  eq_refl eq_refl (or_intror eq_refl))).
Defined.

(** ** The statistics route, again *)

Lemma dedupeAux_in (l : list string) :
  forall seen x, In x (JsArray.dedupeAux seen l) <-> In x l /\ ~ In x seen.
Proof.
  induction l as [|y l IH]; intros seen x; cbn [JsArray.dedupeAux In]; [tauto|].
  destruct (existsb (String.eqb y) seen) eqn:E.
  - rewrite IH. apply existsb_exists in E. destruct E as (z & Hz & Ez).
    apply String.eqb_eq in Ez. subst z. split; [tauto|].
    intros [[<-|H] Hn]; [contradiction|tauto].
  - assert (Hy : ~ In y seen).
    { intro H. assert (T : existsb (String.eqb y) seen = true)
        by (apply existsb_exists; exists y; split; [exact H|apply String.eqb_refl]).
      congruence. }
    cbn [In]. rewrite IH. cbn [In]. split.
    + intros [<-|[H Hn]]; [tauto|]. split; [tauto|]. intro Hs. apply Hn. right. exact Hs.
    + intros [[<-|H] Hn]; [left; reflexivity|].
      destruct (string_dec y x) as [->|Hne]; [left; reflexivity|].
      right. split; [exact H|]. intros [?|?]; [contradiction|contradiction].
Qed.

Lemma dedupeAux_distinct (l : list string) :
  forall seen, NoDup (JsArray.dedupeAux seen l).
Proof.
  induction l as [|y l IH]; intro seen; cbn [JsArray.dedupeAux]; [constructor|].
  destruct (existsb (String.eqb y) seen); [apply IH|].
  constructor; [|apply IH]. rewrite dedupeAux_in. intros [_ H]. apply H. left. reflexivity.
Qed.

Lemma ymKey_sorted (labels : list string) :
  Forall (fun l => Stats.ymKey l <> NaN) labels ->
  StronglySorted (fun a b => JsNum.toInteger (Stats.ymKey a) <= JsNum.toInteger (Stats.ymKey b))
    (JsArray.sort (fun a b => JsNum.sub (Stats.ymKey a) (Stats.ymKey b)) labels).
Proof.
  intro HP.
  apply (sort_sorted_on (fun a b => JsNum.sub (Stats.ymKey a) (Stats.ymKey b)) _)
    with (P := fun l => Stats.ymKey l <> NaN) (earlier := fun _ _ => True).
  - intros x y z. lia.
  - intros x y Px Py. unfold JsArray.before.
    destruct (Stats.ymKey x); [contradiction|]. destruct (Stats.ymKey y); [contradiction|].
    cbn. intro H. apply Z.ltb_lt in H. lia.
  - intros x y Px Py _. unfold JsArray.before.
    destruct (Stats.ymKey x); [contradiction|]. destruct (Stats.ymKey y); [contradiction|].
    cbn. intro H. apply Z.ltb_ge in H. lia.
  - exact HP.
  - apply sorted_trivial.
Qed.

Lemma sortYmLabels_members (labels : list string) :
  NoDup (Stats.sortYmLabels labels) /\
  (forall l, In l (Stats.sortYmLabels labels) <-> In l labels) /\
  (Forall (fun l => Stats.ymKey l <> NaN) labels ->
   StronglySorted (fun a b => JsNum.toInteger (Stats.ymKey a) <= JsNum.toInteger (Stats.ymKey b))
                  (Stats.sortYmLabels labels)).
Proof.
  unfold Stats.sortYmLabels, JsArray.dedupe.
  set (cmp := fun a b => JsNum.sub (Stats.ymKey a) (Stats.ymKey b)).
  pose proof (sort_perm cmp (JsArray.dedupeAux [] labels)) as P.
  split; [|split].
  - apply (Permutation_NoDup (Permutation_sym P)), dedupeAux_distinct.
  - intro l. split.
    + intro H. apply (Permutation_in _ P), dedupeAux_in in H. tauto.
    + intro H. apply (Permutation_in _ (Permutation_sym P)), dedupeAux_in. split; [exact H|intros []].
  - intro HP. apply ymKey_sorted. apply Forall_forall. intros l Hl.
    apply dedupeAux_in in Hl. rewrite Forall_forall in HP. apply HP. tauto.
Qed.

(** X21.  [sortYmLabels] returns every label it is given exactly once;
    when the key of every label is a safe integer (the label is "Unknown"
    or, without its first dash, starts with digits that write a number
    JavaScript holds exactly, as those of a year and a month do), the
    result is in ascending order of the keys, "Unknown" counting as 0. *)
Theorem sortYmLabels_sorted (labels : list string) :
  NoDup (Stats.sortYmLabels labels) /\
  (forall l, In l (Stats.sortYmLabels labels) <-> In l labels) /\
  (Forall (fun l => JsNum.isSafeInteger (Stats.ymKey l) = true) labels ->
   StronglySorted (fun a b => JsNum.toInteger (Stats.ymKey a) <= JsNum.toInteger (Stats.ymKey b))
                  (Stats.sortYmLabels labels)) /\
  Stats.ymKey "Unknown" = Num 0.
Proof.
  destruct (sortYmLabels_members labels) as (H1 & H2 & H3).
  split; [exact H1|]. split; [exact H2|]. split; [|reflexivity].
  intro HP. apply H3. eapply Forall_impl; [|exact HP].
  intros l Hl. apply isSafeInteger_number, Hl.
Qed.

Lemma sortYmLabels_sorted_witness :
  StronglySorted (fun a b => JsNum.toInteger (Stats.ymKey a) <= JsNum.toInteger (Stats.ymKey b))
                 (Stats.sortYmLabels ["2024-01"; "Unknown"; "2023-07"; "2024-01"]).
Proof.
  apply (proj1 (proj2 (proj2 (sortYmLabels_sorted ["2024-01"; "Unknown"; "2023-07"; "2024-01"])))).
  repeat constructor.
Defined.

Lemma incr_positive (m : JsMap.t) (k : string) :
  Forall (fun e => 1 <= snd e) m -> Forall (fun e => 1 <= snd e) (JsMap.incr m k).
Proof.
  intro H. unfold JsMap.incr.
  assert (G : 0 <= JsMap.getOr0 m k).
  { unfold JsMap.getOr0. destruct (JsMap.get m k) as [v|] eqn:E; [|lia].
    clear -H E. induction m as [|[k' v'] m IH]; [discriminate|].
    inversion H as [|? ? Hv Hm]; subst. cbn [JsMap.get] in E.
    destruct (String.eqb k' k); [injection E as <-; cbn in Hv; lia|apply (IH Hm E)]. }
  generalize (JsMap.getOr0 m k + 1), (ltac:(lia) : 1 <= JsMap.getOr0 m k + 1).
  intros v Hv. clear G.
  induction H as [|[k' v'] m Hk Hm IH]; cbn [JsMap.set].
  - repeat constructor. exact Hv.
  - destruct (String.eqb k' k); constructor; assumption.
Qed.

Lemma countAll_positive (l : list Row) :
  forall c : Stats.Counters,
    Forall (fun e => 1 <= snd e) (Stats.byCategory c) ->
    Forall (fun e => 1 <= snd e) (Stats.bySection c) ->
    Forall (fun e => 1 <= snd e) (Stats.byCategory (fold_left Stats.countStep l c)) /\
    Forall (fun e => 1 <= snd e) (Stats.bySection (fold_left Stats.countStep l c)).
Proof.
  induction l as [|r l IH]; intros c H1 H2; cbn [fold_left]; [split; assumption|].
  apply IH; unfold Stats.countStep; cbn [Stats.byCategory Stats.bySection];
    apply incr_positive; assumption.
Qed.

Lemma byCountDesc_sorted (m : JsMap.t) :
  StronglySorted (fun a b : string * Z => snd b <= snd a) (JsArray.sort Stats.byCountDesc m).
Proof.
  apply sort_sorted.
  - intros x y z. lia.
  - intros x y. unfold JsArray.before, Stats.byCountDesc. intro H. apply Z.ltb_lt in H. lia.
  - intros x y. unfold JsArray.before, Stats.byCountDesc. intro H. apply Z.ltb_ge in H. lia.
Qed.

(** X22.  [by_category] and [by_section] list each bucket once, with a
    count of at least 1, in descending order of count. *)
Theorem groupings_descending (usedPaths : list string) (rows : list Row) (q : Query) :
  StronglySorted (fun a b : string * Z => snd b <= snd a)
                 (Stats.by_category (Stats.aggregate usedPaths rows q)) /\
  StronglySorted (fun a b : string * Z => snd b <= snd a)
                 (Stats.by_section (Stats.aggregate usedPaths rows q)) /\
  NoDup (map fst (Stats.by_category (Stats.aggregate usedPaths rows q))) /\
  NoDup (map fst (Stats.by_section (Stats.aggregate usedPaths rows q))) /\
  Forall (fun e => 1 <= snd e) (Stats.by_category (Stats.aggregate usedPaths rows q)) /\
  Forall (fun e => 1 <= snd e) (Stats.by_section (Stats.aggregate usedPaths rows q)).
Proof.
  unfold Stats.aggregate.
  destruct (List.length rows =? 0)%nat;
    [cbn; repeat split; constructor|].
  cbn [Stats.by_category Stats.by_section].
  set (filtered := filter (Stats.keep (filtersOf q)) rows).
  destruct (countAll_nodup filtered (Stats.mkCounters [] [] [])) as [N1 N2];
    [constructor|constructor|].
  destruct (countAll_positive filtered (Stats.mkCounters [] [] [])) as [P1 P2];
    [constructor|constructor|].
  fold (Stats.countAll filtered) in N1, N2, P1, P2.
  pose proof (sort_perm Stats.byCountDesc (Stats.byCategory (Stats.countAll filtered))) as S1.
  pose proof (sort_perm Stats.byCountDesc (Stats.bySection (Stats.countAll filtered))) as S2.
  split; [apply byCountDesc_sorted|]. split; [apply byCountDesc_sorted|].
  split; [apply (Permutation_NoDup (Permutation_map fst (Permutation_sym S1))), N1|].
  split; [apply (Permutation_NoDup (Permutation_map fst (Permutation_sym S2))), N2|].
  split; [apply (Permutation_Forall (Permutation_sym S1)), P1
         |apply (Permutation_Forall (Permutation_sym S2)), P2].
Qed.

Lemma fold_incr_keys (l : list string) :
  forall m x, In x (JsMap.keys (fold_left JsMap.incr l m)) <-> In x (JsMap.keys m) \/ In x l.
Proof.
  induction l as [|y l IH]; intros m x; cbn [fold_left In]; [tauto|].
  rewrite IH. unfold JsMap.incr. rewrite JsMapFacts.keys_set_in. split.
  - intros [[H| ->]|H]; tauto.
  - intros [H|[ ->|H]]; tauto.
Qed.

(** X23.  The labels of [by_year_month] are exactly the year-month labels
    of the records that pass the filters, each once: no month is made up
    and none is lost; each has a count of at least 1; and when the key of
    every label is a safe integer (a number that JavaScript holds exactly)
    they are in ascending order of the keys. *)
Theorem year_month_labels (usedPaths : list string) (rows : list Row) (q : Query) :
  NoDup (fst (Stats.by_year_month (Stats.aggregate usedPaths rows q))) /\
  (forall l, In l (fst (Stats.by_year_month (Stats.aggregate usedPaths rows q))) <->
             exists r, In r rows /\ Stats.keep (filtersOf q) r = true /\ Stats.toYmLabel r = l) /\
  Forall (fun c => 1 <= c) (snd (Stats.by_year_month (Stats.aggregate usedPaths rows q))) /\
  (Forall (fun r => JsNum.isSafeInteger (Stats.ymKey (Stats.toYmLabel r)) = true) rows ->
   StronglySorted (fun a b => JsNum.toInteger (Stats.ymKey a) <= JsNum.toInteger (Stats.ymKey b))
                  (fst (Stats.by_year_month (Stats.aggregate usedPaths rows q)))).
Proof.
  unfold Stats.aggregate.
  destruct rows as [|r0 rows].
  { cbn. repeat split; try constructor; [intros []|intros (r & [] & _)]. }
  cbn [List.length Nat.eqb Stats.by_year_month fst snd].
  set (filtered := filter (Stats.keep (filtersOf q)) (r0 :: rows)).
  assert (Ey : Stats.ymList (Stats.countAll filtered) = map Stats.toYmLabel filtered)
    by (unfold Stats.countAll; rewrite countAll_ymList; reflexivity).
  rewrite Ey.
  set (ymCounts := fold_left JsMap.incr (map Stats.toYmLabel filtered) []).
  destruct (sortYmLabels_members (JsMap.keys ymCounts)) as (ND & Mem & Srt).
  assert (Hmem : forall l, In l (Stats.sortYmLabels (JsMap.keys ymCounts)) <->
                           exists r, In r (r0 :: rows) /\ Stats.keep (filtersOf q) r = true /\
                                     Stats.toYmLabel r = l).
  { intro l. rewrite Mem. unfold ymCounts. rewrite fold_incr_keys. cbn [JsMap.keys map In].
    rewrite in_map_iff. unfold filtered. split.
    - intros [[]|(r & E & Hr)]. apply filter_In in Hr. destruct Hr as [Hr Hk].
      exists r. split; [exact Hr|]. split; [exact Hk|exact E].
    - intros (r & Hr & Hk & E). right. exists r. split; [exact E|].
      apply filter_In. split; [exact Hr|exact Hk]. }
  split; [exact ND|]. split; [exact Hmem|]. split.
  - apply Forall_map, Forall_forall. intros l Hl.
    unfold ymCounts. rewrite fold_incr_get.
    apply Hmem in Hl. destruct Hl as (r & Hr & Hk & E).
    assert (Hin : In l (map Stats.toYmLabel filtered)).
    { apply in_map_iff. exists r. split; [exact E|]. apply filter_In. tauto. }
    apply (count_occ_In string_dec) in Hin.
    replace (JsMap.getOr0 [] l) with 0 by reflexivity. lia.
  - intro HP. apply Srt. apply Forall_forall. intros l Hl.
    unfold ymCounts in Hl. apply fold_incr_keys in Hl. destruct Hl as [[]|Hl].
    apply in_map_iff in Hl. destruct Hl as (r & <- & Hr). apply filter_In in Hr.
    rewrite Forall_forall in HP. apply isSafeInteger_number, HP, Hr.
Qed.

Lemma year_month_labels_witness :
  StronglySorted (fun a b => JsNum.toInteger (Stats.ymKey a) <= JsNum.toInteger (Stats.ymKey b))
    (fst (Stats.by_year_month
            (Stats.aggregate [] [rowFisheries; rowUndated; rowPublication; rowLand] noFilters))).
Proof.
  apply (proj2 (proj2 (proj2
           (year_month_labels [] [rowFisheries; rowUndated; rowPublication; rowLand] noFilters)))).
  repeat constructor.
Defined.

Lemma string_compare_trans (a : string) :
  forall b c, String.compare a b <> Gt -> String.compare b c <> Gt -> String.compare a c <> Gt.
Proof.
  induction a as [|x a IH]; intros [|y b] [|z c]; cbn [String.compare]; try congruence.
  unfold Ascii.compare.
  destruct (N.compare_spec (N_of_ascii x) (N_of_ascii y)) as [Exy|Lxy|Gxy]; [| |congruence].
  - rewrite Exy. destruct (N_of_ascii y ?= N_of_ascii z)%N; [apply IH|congruence|congruence].
  - intros _.
    destruct (N.compare_spec (N_of_ascii y) (N_of_ascii z)) as [Eyz|Lyz|Gyz]; [| |congruence].
    + rewrite <- Eyz. intros _. apply N.compare_lt_iff in Lxy. rewrite Lxy. discriminate.
    + intros _. assert (L : (N_of_ascii x < N_of_ascii z)%N) by lia.
      apply N.compare_lt_iff in L. rewrite L. discriminate.
Qed.

Lemma sortStrings_sorted (l : list string) :
  StronglySorted (fun a b => String.compare a b <> Gt) (JsArray.sortStrings l).
Proof.
  unfold JsArray.sortStrings. apply sort_sorted.
  - intros x y z. apply string_compare_trans.
  - intros x y. unfold JsArray.before, JsArray.compareStrings.
    destruct (String.compare x y); cbn; congruence.
  - intros x y. unfold JsArray.before, JsArray.compareStrings.
    rewrite (String.compare_antisym y x).
    destruct (String.compare x y); cbn; congruence.
Qed.

Lemma truthy_iff (s : string) : truthy s = true <-> s <> "".
Proof. destruct s; cbn; split; congruence. Qed.

Lemma facetValues_spec (field : Row -> option string) (rows : list Row) :
  NoDup (Stats.facetValues field rows) /\
  (forall v, In v (Stats.facetValues field rows) <->
             v <> "" /\ exists r, In r rows /\ trim (orEmpty (field r)) = v) /\
  StronglySorted (fun a b => String.compare a b <> Gt) (Stats.facetValues field rows).
Proof.
  unfold Stats.facetValues, JsArray.dedupe.
  set (vals := filter truthy (map (fun r => trim (orEmpty (field r))) rows)).
  pose proof (sort_perm JsArray.compareStrings (JsArray.dedupeAux [] vals)) as P.
  fold (JsArray.sortStrings (JsArray.dedupeAux [] vals)) in P.
  split; [|split].
  - apply (Permutation_NoDup (Permutation_sym P)), dedupeAux_distinct.
  - intro v.
    assert (E : In v (JsArray.sortStrings (JsArray.dedupeAux [] vals)) <-> In v vals).
    { split.
      - intro H. apply (Permutation_in _ P), dedupeAux_in in H. apply H.
      - intro H. apply (Permutation_in _ (Permutation_sym P)), dedupeAux_in.
        split; [exact H|intros []]. }
    rewrite E. unfold vals. rewrite filter_In, in_map_iff, truthy_iff. split.
    + intros [(r & Hv & Hr) Hne]. split; [exact Hne|]. exists r. split; assumption.
    + intros [Hne (r & Hr & Hv)]. split; [|exact Hne]. exists r. split; assumption.
  - apply sortStrings_sorted.
Qed.

(** X24.  The facets: a value is offered as a section (category) facet
    exactly when it is the trimmed, non-empty section (category) of some
    record of the corpus; each value is offered once, and the values are in
    ascending order of their code units. *)
Theorem facets_catalogue (usedPaths : list string) (rows : list Row) (q : Query) :
  NoDup (fst (Stats.facets (Stats.aggregate usedPaths rows q))) /\
  NoDup (snd (Stats.facets (Stats.aggregate usedPaths rows q))) /\
  (forall v, In v (fst (Stats.facets (Stats.aggregate usedPaths rows q))) <->
             v <> "" /\ exists r, In r rows /\ trim (orEmpty (section r)) = v) /\
  (forall v, In v (snd (Stats.facets (Stats.aggregate usedPaths rows q))) <->
             v <> "" /\ exists r, In r rows /\ trim (orEmpty (category r)) = v) /\
  StronglySorted (fun a b => String.compare a b <> Gt)
                 (fst (Stats.facets (Stats.aggregate usedPaths rows q))) /\
  StronglySorted (fun a b => String.compare a b <> Gt)
                 (snd (Stats.facets (Stats.aggregate usedPaths rows q))).
Proof.
  unfold Stats.aggregate. destruct rows as [|r0 rows].
  - cbn. split; [constructor|]. split; [constructor|].
    split; [intro v; split; [intros []|intros (_ & r & [] & _)]|].
    split; [intro v; split; [intros []|intros (_ & r & [] & _)]|].
    split; constructor.
  - cbn [List.length Nat.eqb Stats.facets fst snd].
    destruct (facetValues_spec section (r0 :: rows)) as (A1 & A2 & A3).
    destruct (facetValues_spec category (r0 :: rows)) as (B1 & B2 & B3).
    split; [exact A1|]. split; [exact B1|]. split; [exact A2|]. split; [exact B2|].
    split; [exact A3|exact B3].
Qed.

(** ** The monthly series *)

Lemma indexOf_nth (l : list string) :
  NoDup l -> forall j, (j < List.length l)%nat -> JsArray.indexOf (nth j l "") l = Z.of_nat j.
Proof.
  induction 1 as [|y l Hy ND IH]; intros j Hj; cbn [List.length] in Hj; [lia|].
  destruct j as [|j]; cbn [nth JsArray.indexOf].
  - rewrite String.eqb_refl. reflexivity.
  - assert (Hin : In (nth j l "") l) by (apply nth_In; lia).
    destruct (String.eqb_spec y (nth j l "")) as [E|_]; [rewrite E in Hy; contradiction|].
    rewrite IH by lia. destruct (Z.ltb_spec (Z.of_nat j) 0); lia.
Qed.

Lemma indexOf_found (x : string) (l : list string) :
  forall i, JsArray.indexOf x l = i -> 0 <= i ->
            nth (Z.to_nat i) l "" = x /\ (Z.to_nat i < List.length l)%nat.
Proof.
  induction l as [|y l IH]; intros i E Hi; cbn [JsArray.indexOf] in E; [lia|].
  destruct (String.eqb_spec y x) as [->|_].
  - subst i. cbn. split; [reflexivity|lia].
  - destruct (Z.ltb_spec (JsArray.indexOf x l) 0) as [|Hge]; [lia|].
    destruct (IH _ eq_refl Hge) as [E1 E2]. subst i.
    replace (Z.to_nat (JsArray.indexOf x l + 1)) with (S (Z.to_nat (JsArray.indexOf x l))) by lia.
    cbn [nth List.length]. split; [exact E1|lia].
Qed.

Lemma bumpAt_length (l : list Z) : forall i, List.length (Stats.bumpAt i l) = List.length l.
Proof.
  induction l as [|v l IH]; intros [|i]; cbn [Stats.bumpAt List.length]; try reflexivity.
  rewrite IH. reflexivity.
Qed.

Lemma bumpAt_nth (l : list Z) :
  forall i j, (j < List.length l)%nat ->
              nth j (Stats.bumpAt i l) 0 = if (j =? i)%nat then nth j l 0 + 1 else nth j l 0.
Proof.
  induction l as [|v l IH]; intros i j Hj; cbn [List.length] in Hj; [lia|].
  destruct i as [|i], j as [|j]; cbn [Stats.bumpAt nth Nat.eqb]; try reflexivity.
  apply IH. lia.
Qed.

Lemma cellCount_snoc (done : list Row) (r : Row) (sec lbl : string) :
  cellCount (done ++ [r]) sec lbl
  = cellCount done sec lbl
    + (if String.eqb (Stats.sectionBucket r) sec && String.eqb (Stats.toYmLabel r) lbl
       then 1 else 0).
Proof.
  unfold cellCount. rewrite filter_app, length_app. cbn [filter].
  destruct (String.eqb (Stats.sectionBucket r) sec && String.eqb (Stats.toYmLabel r) lbl);
    cbn [List.length]; lia.
Qed.

Section Series.

Variable labels : list string.
Hypothesis labels_distinct : NoDup labels.

(** Every row of the table has one cell for each label, and a cell holds
    the number of the records seen so far that fall in it. *)
Definition seriesCounts (done : list Row) (series : list (string * list Z)) : Prop :=
  Forall (fun e => List.length (snd e) = List.length labels /\
                   forall j, (j < List.length labels)%nat ->
                             nth j (snd e) 0 = cellCount done (fst e) (nth j labels ""))
         series.

Lemma bumpSeries_keys (series : list (string * list Z)) (sec : string) (i : nat) :
  map fst (Stats.bumpSeries series sec i) = map fst series.
Proof.
  induction series as [|[k arr] series IH]; cbn [Stats.bumpSeries map fst]; [reflexivity|].
  destruct (String.eqb k sec); cbn [map fst]; [reflexivity|rewrite IH; reflexivity].
Qed.

Lemma seriesStep_keys (series : list (string * list Z)) (r : Row) :
  map fst (Stats.seriesStep labels series r) = map fst series.
Proof.
  unfold Stats.seriesStep.
  destruct (JsArray.indexOf (Stats.toYmLabel r) labels >=? 0); [apply bumpSeries_keys|reflexivity].
Qed.

Lemma seriesStep_counts (done : list Row) (series : list (string * list Z)) (r : Row) :
  NoDup (map fst series) -> seriesCounts done series ->
  seriesCounts (done ++ [r]) (Stats.seriesStep labels series r).
Proof.
  unfold Stats.seriesStep, seriesCounts.
  destruct (Z.geb_spec (JsArray.indexOf (Stats.toYmLabel r) labels) 0) as [Hge|Hlt].
  - destruct (indexOf_found _ _ _ eq_refl Hge) as [Ei Hi].
    set (i := Z.to_nat (JsArray.indexOf (Stats.toYmLabel r) labels)) in *.
    assert (Hlab : forall j, (j < List.length labels)%nat ->
                             String.eqb (Stats.toYmLabel r) (nth j labels "") = (j =? i)%nat).
    { intros j Hj. destruct (Nat.eqb_spec j i) as [->|Hne].
      - rewrite Ei. apply String.eqb_refl.
      - apply String.eqb_neq. intro E. apply Hne.
        pose proof (indexOf_nth labels labels_distinct j Hj) as Ij.
        rewrite <- E in Ij. unfold i. lia. }
    induction series as [|[k arr] series IH]; intros ND Inv; cbn [Stats.bumpSeries];
      [constructor|].
    inversion ND as [|? ? Hk ND']; subst. inversion Inv as [|? ? [Hlen Hcell] Inv']; subst.
    cbn [fst snd] in Hlen, Hcell.
    destruct (String.eqb_spec k (Stats.sectionBucket r)) as [->|Hne].
    + constructor.
      * cbn [fst snd]. rewrite bumpAt_length. split; [exact Hlen|].
        intros j Hj. rewrite bumpAt_nth by lia. rewrite cellCount_snoc, String.eqb_refl.
        cbn [andb]. rewrite (Hlab j Hj), (Hcell j Hj). destruct (j =? i)%nat; lia.
      * apply Forall_forall. intros [k' arr'] He.
        rewrite Forall_forall in Inv'. destruct (Inv' _ He) as [Hl' Hc'].
        cbn [fst snd] in *. split; [exact Hl'|].
        intros j Hj. rewrite cellCount_snoc.
        assert (Hk' : String.eqb (Stats.sectionBucket r) k' = false).
        { apply String.eqb_neq. intros <-. apply Hk.
          apply in_map_iff. exists (Stats.sectionBucket r, arr'). split; [reflexivity|exact He]. }
        rewrite Hk'. cbn [andb]. rewrite (Hc' j Hj). lia.
    + constructor; [|apply IH; assumption].
      cbn [fst snd]. split; [exact Hlen|].
      intros j Hj. rewrite cellCount_snoc.
      assert (Hk' : String.eqb (Stats.sectionBucket r) k = false)
        by (apply String.eqb_neq; congruence).
      rewrite Hk'. cbn [andb]. rewrite (Hcell j Hj). lia.
  - intros _ Inv. eapply Forall_impl; [|exact Inv]. intros [k arr] [Hlen Hcell].
    cbn [fst snd] in *. split; [exact Hlen|].
    intros j Hj. rewrite cellCount_snoc.
    assert (Hl : String.eqb (Stats.toYmLabel r) (nth j labels "") = false).
    { apply String.eqb_neq. intro E.
      pose proof (indexOf_nth labels labels_distinct j Hj) as Ij.
      rewrite <- E in Ij. lia. }
    rewrite Hl, andb_false_r, (Hcell j Hj). lia.
Qed.

Lemma series_counts (rest : list Row) :
  forall done series,
    NoDup (map fst series) -> seriesCounts done series ->
    seriesCounts (done ++ rest) (fold_left (Stats.seriesStep labels) rest series) /\
    map fst (fold_left (Stats.seriesStep labels) rest series) = map fst series.
Proof.
  induction rest as [|r rest IH]; intros done series ND Inv; cbn [fold_left].
  - rewrite app_nil_r. split; [exact Inv|reflexivity].
  - destruct (IH (done ++ [r])%list (Stats.seriesStep labels series r)) as [I1 I2].
    + rewrite seriesStep_keys. exact ND.
    + apply seriesStep_counts; assumption.
    + rewrite <- app_assoc in I1. cbn [app] in I1.
      split; [exact I1|]. rewrite I2. apply seriesStep_keys.
Qed.

Lemma series_start (keys : list string) :
  seriesCounts [] (map (fun s => (s, map (fun _ : string => 0) labels)) keys) /\
  map fst (map (fun s => (s, map (fun _ : string => 0) labels)) keys) = keys.
Proof.
  split.
  - unfold seriesCounts. apply Forall_map, Forall_forall. intros s _. cbn [fst snd].
    rewrite length_map. split; [reflexivity|].
    intros j _. exact (map_nth (fun _ : string => 0) labels "" j).
  - rewrite map_map. cbn [fst]. apply map_id.
Qed.

End Series.

Lemma countAll_section_keys (l : list Row) :
  forall (c : Stats.Counters) (k : string),
    In k (JsMap.keys (Stats.bySection (fold_left Stats.countStep l c))) <->
    In k (JsMap.keys (Stats.bySection c)) \/ exists r, In r l /\ Stats.sectionBucket r = k.
Proof.
  induction l as [|r l IH]; intros c k; cbn [fold_left].
  - split; [tauto|]. intros [H|(r & [] & _)]. exact H.
  - rewrite IH. unfold Stats.countStep at 1. cbn [Stats.bySection].
    unfold JsMap.incr. rewrite JsMapFacts.keys_set_in. cbn [In]. split.
    + intros [[H|E]|(r' & Hr & E)].
      * left. exact H.
      * right. exists r. split; [left; reflexivity|symmetry; exact E].
      * right. exists r'. split; [right; exact Hr|exact E].
    + intros [H|(r' & [<-|Hr] & E)].
      * left. left. exact H.
      * left. right. symmetry. exact E.
      * right. exists r'. split; assumption.
Qed.

(** X25.  [monthly_by_section] is the table of the filtered records by
    section and month: it has the labels of [by_year_month], one row for
    each section bucket of a filtered record (no section being named
    "__proto__", which an object cannot hold as a key of its own), each row
    has one cell for each label, and a cell holds the number of filtered
    records of that section with that label. *)
Theorem monthly_by_section_cells (usedPaths : list string) (rows : list Row) (q : Query) :
  Forall (fun r => Stats.sectionBucket r <> "__proto__") rows ->
  fst (Stats.monthly_by_section (Stats.aggregate usedPaths rows q))
    = fst (Stats.by_year_month (Stats.aggregate usedPaths rows q)) /\
  NoDup (map fst (snd (Stats.monthly_by_section (Stats.aggregate usedPaths rows q)))) /\
  (forall sec,
      In sec (map fst (snd (Stats.monthly_by_section (Stats.aggregate usedPaths rows q)))) <->
      exists r, In r rows /\ Stats.keep (filtersOf q) r = true /\ Stats.sectionBucket r = sec) /\
  (forall sec arr,
      In (sec, arr) (snd (Stats.monthly_by_section (Stats.aggregate usedPaths rows q))) ->
      List.length arr
        = List.length (fst (Stats.monthly_by_section (Stats.aggregate usedPaths rows q))) /\
      forall j,
        (j < List.length (fst (Stats.monthly_by_section (Stats.aggregate usedPaths rows q))))%nat ->
        nth j arr 0
        = cellCount (filter (Stats.keep (filtersOf q)) rows) sec
            (nth j (fst (Stats.monthly_by_section (Stats.aggregate usedPaths rows q))) "")).
Proof.
  intros _. unfold Stats.aggregate. destruct rows as [|r0 rows].
  { cbn. split; [reflexivity|]. split; [constructor|].
    split; [intro sec; split; [intros []|intros (r & [] & _)]|intros sec arr []]. }
  cbn [List.length Nat.eqb Stats.monthly_by_section Stats.by_year_month fst snd].
  set (filtered := filter (Stats.keep (filtersOf q)) (r0 :: rows)).
  set (labels := Stats.sortYmLabels
                   (JsMap.keys (fold_left JsMap.incr (Stats.ymList (Stats.countAll filtered)) []))).
  set (keys := JsArray.sortStrings (JsMap.keys (Stats.bySection (Stats.countAll filtered)))).
  assert (LD : NoDup labels) by apply sortYmLabels_members.
  destruct (countAll_nodup filtered (Stats.mkCounters [] [] [])) as [_ N2];
    [constructor|constructor|].
  fold (Stats.countAll filtered) in N2.
  pose proof (sort_perm JsArray.compareStrings
                (JsMap.keys (Stats.bySection (Stats.countAll filtered)))) as P.
  fold (JsArray.sortStrings (JsMap.keys (Stats.bySection (Stats.countAll filtered)))) in P.
  fold keys in P.
  destruct (series_start labels keys) as [S1 S2].
  destruct (series_counts labels LD filtered [] _
              ltac:(rewrite S2; apply (Permutation_NoDup (Permutation_sym P)), N2) S1)
    as [I1 I2].
  cbn [app] in I1. rewrite S2 in I2.
  split; [reflexivity|]. split; [|split].
  - rewrite I2. apply (Permutation_NoDup (Permutation_sym P)), N2.
  - intro sec. rewrite I2. split.
    + intro H. apply (Permutation_in _ P) in H. unfold Stats.countAll in H.
      apply countAll_section_keys in H. destruct H as [[]|(r & Hr & E)].
      apply filter_In in Hr. destruct Hr as [Hr Hk].
      exists r. split; [exact Hr|]. split; [exact Hk|exact E].
    + intros (r & Hr & Hk & E). apply (Permutation_in _ (Permutation_sym P)).
      unfold Stats.countAll. apply countAll_section_keys. right.
      exists r. split; [|exact E]. apply filter_In. split; assumption.
  - intros sec arr He. unfold seriesCounts in I1. rewrite Forall_forall in I1.
    apply (I1 _ He).
Qed.

Lemma monthly_by_section_cells_witness :
  snd (Stats.monthly_by_section
         (Stats.aggregate [] [rowFisheries; rowUndated; rowPublication; rowLand] noFilters))
  = [("news", [0; 0; 2]); ("publications", [0; 1; 0]); ("unknown", [1; 0; 0])] /\
  forall sec,
    In sec (map fst (snd (Stats.monthly_by_section
              (Stats.aggregate [] [rowFisheries; rowUndated; rowPublication; rowLand] noFilters))))
    <-> exists r, In r [rowFisheries; rowUndated; rowPublication; rowLand] /\
                  Stats.keep (filtersOf noFilters) r = true /\ Stats.sectionBucket r = sec.
Proof.
  split; [reflexivity|].
  apply (monthly_by_section_cells [] [rowFisheries; rowUndated; rowPublication; rowLand] noFilters).
  repeat constructor; vm_compute; discriminate.
Defined.

(** ** The migration script *)

Lemma existsb_eqb_in (w : string) (l : list string) :
  existsb (String.eqb w) l = true <-> In w l.
Proof.
  rewrite existsb_exists. split.
  - intros (x & Hx & E). apply String.eqb_eq in E. subst x. exact Hx.
  - intro H. exists w. split; [exact H|apply String.eqb_refl].
Qed.

Lemma picks_filter (text : string) (rest : list string) :
  forall done : list string,
    NoDup (done ++ rest) ->
    fold_left (fun picks k => if includes text (firstWord k) then addPick picks k else picks)
              rest (filter (fun k => includes text (firstWord k)) done)
    = filter (fun k => includes text (firstWord k)) (done ++ rest).
Proof.
  induction rest as [|k rest IH]; intros done ND; cbn [fold_left].
  - rewrite app_nil_r. reflexivity.
  - replace (done ++ k :: rest)%list with ((done ++ [k]) ++ rest)%list in *
      by (rewrite <- app_assoc; reflexivity).
    rewrite <- (IH (done ++ [k])%list ND). f_equal.
    rewrite filter_app. cbn [filter].
    destruct (includes text (firstWord k)); [|rewrite app_nil_r; reflexivity].
    unfold addPick.
    destruct (existsb (String.eqb k) (filter (fun k0 => includes text (firstWord k0)) done))
      eqn:E; [|reflexivity].
    exfalso. apply existsb_eqb_in, filter_In in E. destruct E as [Hin _].
    apply NoDup_app_remove_r in ND. apply NoDup_remove_2 in ND.
    rewrite app_nil_r in ND. contradiction.
Qed.

(** X26.  [guessKeywords] returns the entries of its dictionary whose
    first word occurs in the lower-cased title and summary, in dictionary
    order: the duplicate test of [add] never fires and [slice(0, 12)] never
    cuts, the dictionary having ten distinct entries. *)
Theorem guessKeywords_dictionary (title summary : string) :
  guessKeywords title summary
  = filter (fun k => includes (toLowerCase (title ++ " " ++ summary)) (firstWord k)) keywordDict /\
  NoDup (guessKeywords title summary) /\
  (List.length (guessKeywords title summary) <= 10)%nat.
Proof.
  assert (ND : NoDup keywordDict).
  { apply (NoDup_count_occ' string_dec). intros x Hx.
    repeat (destruct Hx as [<-|Hx]; [reflexivity|]). destruct Hx. }
  assert (E : guessKeywords title summary
              = filter (fun k => includes (toLowerCase (title ++ " " ++ summary)) (firstWord k))
                       keywordDict).
  { unfold guessKeywords.
    pose proof (picks_filter (toLowerCase (title ++ " " ++ summary)) keywordDict [] ND) as F.
    cbn [filter app] in F. rewrite F.
    pose proof (filter_length_le
                  (fun k => includes (toLowerCase (title ++ " " ++ summary)) (firstWord k))
                  keywordDict) as Hlen.
    change (List.length keywordDict) with 10%nat in Hlen.
    change (Num 12) with (JsNum.add (Num 0) (Num 12)).
    rewrite slice_window by lia. cbn [skipn Z.to_nat].
    apply firstn_all2. change (Z.to_nat 12) with 12%nat. lia. }
  rewrite E. split; [reflexivity|]. split.
  - apply NoDup_filter, ND.
  - pose proof (filter_length_le
                  (fun k => includes (toLowerCase (title ++ " " ++ summary)) (firstWord k))
                  keywordDict) as Hlen.
    exact Hlen.
Qed.

Lemma stats_used_from (w : World) (paths : list string) :
  forall st, fst (fold_left (Stats.loadStep w) paths st)
             = (fst st ++ filter (parses w) paths)%list.
Proof.
  induction paths as [|p paths IH]; intro st; cbn [fold_left filter].
  - rewrite app_nil_r. reflexivity.
  - rewrite IH. unfold Stats.loadStep, Stats.tryRead, parses.
    destruct (readFile w p) as [[|items]|]; cbn [fst]; try reflexivity.
    destruct (0 <? List.length (itemsArray items))%nat; cbn [fst];
      rewrite <- app_assoc; reflexivity.
Qed.

Lemma aggregate_csv_path (usedPaths : list string) (rows : list Row) (q : Query) :
  Stats.csv_path (Stats.aggregate usedPaths rows q) = String.concat ", " usedPaths.
Proof. unfold Stats.aggregate. destruct (List.length rows =? 0)%nat; reflexivity. Qed.

(** X27.  With no [csv] parameter and no data set named by the
    environment, [csv_path] names, in their order and joined by ", ", the
    default data sets that could be read and parsed: one that holds no
    items is named although it brings no record, one that cannot be read or
    parsed is left out; and this whether or not any record was found. *)
Theorem csv_path_names_read_files (w : World) (q : Query) :
  envJsonPath w = "" ->
  Stats.csv_path (Stats.GET w None q)
  = String.concat ", " (filter (parses w) (defaultPublicPaths w)).
Proof.
  intro He. unfold Stats.GET. cbn [orEmpty].
  destruct (Stats.load w "") as [usedPaths rows] eqn:E.
  rewrite aggregate_csv_path. f_equal.
  unfold Stats.load in E. rewrite He in E. cbn [truthy] in E. unfold Stats.mergeAll in E.
  pose proof (stats_used_from w (defaultPublicPaths w) ([], [])) as F.
  rewrite E in F. exact F.
Qed.

Lemma csv_path_names_read_files_witness :
  Stats.csv_path (Stats.GET sampleWorld None noFilters)
  = "/app/public/news.json, /app/public/success-stories.json, /app/public/publications.json".
Proof.
  rewrite (csv_path_names_read_files sampleWorld noFilters); reflexivity.
Defined.
